(** * jogo-servidor: the game-session state machine of [src/index.js] and of
    its sibling [src/unnamed/part_000].

    The server is a Node.js event loop.  Every handler runs to completion
    before the next event is taken, except [evaluateRound], which suspends
    once, at the [await] of the scoring request.  The embedding follows
    that shape: a handler is a function [State -> State * list Output],
    the suspended tail of [evaluateRound] is stored in the state, and the
    event loop is a step function over the events the process can receive
    (socket events, timer callbacks, the answer of the scoring service).

    The two files hold the same functions; they differ in the guard of
    the start command and in the host bookkeeping, which [Variant]
    selects.

    Modelling choices:
    - [players] is a JS object keyed by socket id whose values carry the
      same id in their [id] field; [Object.values] lists it in insertion
      order.  It is a list of player records keyed by [Player.id].
    - a JS value that may be [null]/[undefined] is an [option].
    - the payload of [submitGuess] is whatever the client sends, and the
      handler stores it unchecked: a string, or a value that is no string
      ([null], nothing, a number, an object), which is [None]: the code
      only ever calls [toLowerCase] on it, which such a value does not
      have.  The scores of an answer are integers ([Z]) or missing; [turn]
      and [timeLeft] are naturals (the code never decrements [timeLeft]
      below zero).
    - [Math.floor(Math.random() * n)] is a draw reduced modulo [n]; the
      draw is part of the event.
    - [toLowerCase]/[toUpperCase] are the runtime's string functions,
      taken as parameters of the development.
    - an emitted message is a value of [Output]; the text of a round
      result is kept as its parts ([RoundMessage]). *)

From Stdlib Require Import String Ascii List ZArith Lia Bool Arith PeanoNat.
From Stdlib Require Import Permutation Sorted.
Import ListNotations.
Local Open Scope string_scope.
Local Open Scope nat_scope.
Local Open Scope list_scope.
Set Default Proof Using "Type".

(** ** Constants *)

Definition TURN_DURATION : nat := 30.
Definition MAX_TURNS : nat := 10.
Definition colors : list string :=
  ["#E53935"; "#1E88E5"; "#43A047"; "#FDD835"; "#8E24AA"; "#D81B60"; "#F4511E"; "#3949AB"].
Definition seedWords : list string :=
  ["Futuro"; "Natureza"; "Arte"; "Sociedade"; "Conhecimento"; "Justiça"].

(** The two source files differ in who may start a game. *)
Inductive Variant :=
| HostGated   (* src/index.js: the host, whenever no game is being played *)
| OpenLobby.  (* src/unnamed/part_000: any player, from the lobby only *)

(** ** Data *)

Module Player.
Record t := mk {
  id : string;
  name : string;
  color : string;
  score : Z;
  submitted : bool;
  lastGuess : option string
}.
Definition with_score (z : Z) (p : t) : t :=
  mk (id p) (name p) (color p) z (submitted p) (lastGuess p).
Definition with_submission (b : bool) (w : option string) (p : t) : t :=
  mk (id p) (name p) (color p) (score p) b w.
(** [p.isHost]: no player object is ever given this property. *)
Definition isHost (p : t) : bool := false.
End Player.

Module Node.
Record t := mk { word : option string; playerId : option string }.
End Node.

(** An element of the local array [guesses] of [evaluateRound]. *)
Module Guess.
Record t := mk { groupId : string; word : option string; score : option Z }.
Definition with_score (z : option Z) (g : t) : t := mk (groupId g) (word g) z.
(** [guess.score || 0] *)
Definition scoreOr0 (g : t) : Z :=
  match score g with Some z => z | None => 0%Z end.
(** [guess.score >= 57] ([undefined >= 57] is false) *)
Definition reachesThreshold (g : t) : bool :=
  match score g with Some z => (57 <=? z)%Z | None => false end.
End Guess.

(** An element of the [results] array answered by the scoring service. *)
Module Result.
Record t := mk { word : option string; score : option Z }.
End Result.

Inductive Status := lobby | playing | finished.

Definition Status_eqb (a b : Status) : bool :=
  match a, b with
  | lobby, lobby | playing, playing | finished, finished => true
  | _, _ => false
  end.

(** The object [gameState].  In the lobby only [status] is defined; the
    other fields then hold what reading [undefined] amounts to.  [players]
    (the array captured by [resetGame]) is kept as the ids of its elements. *)
Record GameState := mkGameState {
  status : Status;
  gs_players : list string;
  gs_hostId : option string;
  chain : list Node.t;
  turn : nat;
  maxTurns : nat;
  isRoundActive : bool;
  isEvaluating : bool;
  timeLeft : nat
}.

(** The process state: the module-level variables, and the calls of
    [evaluateRound] suspended at their [await], each with its local array
    [guesses]. *)
Record State := mkState {
  players : list Player.t;
  hostId : option string;
  gameState : GameState;
  timerInterval : bool;          (* an interval is armed *)
  pending : list (list Guess.t)
}.

(** The text of a [roundResult] event. *)
Record Line := mkLine {
  l_name : string; l_word : option string; l_score : Z; l_points : Z
}.

Inductive RoundMessage :=
| NobodyPlayed                         (* "Ninguém jogou nesta rodada. Pulando..." *)
| OracleError                          (* "... erro ao falar com a IA. Pulando turno." *)
| Summary (t : nat) (winnerWord : option string) (winnerScore : Z)
          (winnerName : string) (lines : list Line) (nextWord : option string).

(** What a handler does to the outside. *)
Inductive Output :=
| emit_timer (t : nat)
| emit_gameState (gs : GameState) (ps : option (list Player.t))
| emit_lobbyState (ps : list Player.t) (host : option string)
| emit_roundResult (m : RoundMessage)
| emit_gameOver (ps : list Player.t) (host : option string)
| socket_disconnect (sid : string)
| connect_error (sid : string)
| openai_create (target : option string) (candidates : list (option string))
| console_error
| uncaught_TypeError.

(** The answer of the scoring service: the promise rejects or its content
    does not parse ([rejected]), or [resultJson.results || []]. *)
Inductive OracleAnswer :=
| rejected
| results (rs : list Result.t).

(** What the event loop can receive. *)
Inductive Event :=
| connection (sid name : string)
| startGame (sid : string) (draw : nat)
| submitGuess (sid : string) (word : option string)
| disconnect (sid : string)
| tick
| oracleAnswer (k : nat) (a : OracleAnswer) (draw : nat).

(** ** The object [players] *)

(** [players[k]] *)
Fixpoint get (k : string) (ps : list Player.t) : option Player.t :=
  match ps with
  | [] => None
  | p :: ps' => if String.eqb (Player.id p) k then Some p else get k ps'
  end.

(** [players[k] = p]: an existing key keeps its place, a new one goes last. *)
Fixpoint set (k : string) (p : Player.t) (ps : list Player.t) : list Player.t :=
  match ps with
  | [] => [p]
  | q :: ps' => if String.eqb (Player.id q) k then p :: ps' else q :: set k p ps'
  end.

(** [delete players[k]] *)
Definition delete (k : string) (ps : list Player.t) : list Player.t :=
  filter (fun p => negb (String.eqb (Player.id p) k)) ps.

(** A field assignment through [players[k]]. *)
Definition modify (k : string) (f : Player.t -> Player.t) (ps : list Player.t)
  : list Player.t :=
  map (fun p => if String.eqb (Player.id p) k then f p else p) ps.

(** ** State updates *)

Definition set_gameState (g : GameState) (s : State) : State :=
  mkState (players s) (hostId s) g (timerInterval s) (pending s).
Definition set_players (ps : list Player.t) (s : State) : State :=
  mkState ps (hostId s) (gameState s) (timerInterval s) (pending s).
Definition set_hostId (h : option string) (s : State) : State :=
  mkState (players s) h (gameState s) (timerInterval s) (pending s).
Definition set_timerInterval (b : bool) (s : State) : State :=
  mkState (players s) (hostId s) (gameState s) b (pending s).
Definition set_pending (l : list (list Guess.t)) (s : State) : State :=
  mkState (players s) (hostId s) (gameState s) (timerInterval s) l.

Definition gs_set_status (x : Status) (g : GameState) : GameState :=
  mkGameState x (gs_players g) (gs_hostId g) (chain g) (turn g) (maxTurns g)
              (isRoundActive g) (isEvaluating g) (timeLeft g).
Definition gs_set_chain (x : list Node.t) (g : GameState) : GameState :=
  mkGameState (status g) (gs_players g) (gs_hostId g) x (turn g) (maxTurns g)
              (isRoundActive g) (isEvaluating g) (timeLeft g).
Definition gs_set_turn (x : nat) (g : GameState) : GameState :=
  mkGameState (status g) (gs_players g) (gs_hostId g) (chain g) x (maxTurns g)
              (isRoundActive g) (isEvaluating g) (timeLeft g).
Definition gs_set_flags (active evaluating : bool) (g : GameState) : GameState :=
  mkGameState (status g) (gs_players g) (gs_hostId g) (chain g) (turn g) (maxTurns g)
              active evaluating (timeLeft g).
Definition gs_set_timeLeft (x : nat) (g : GameState) : GameState :=
  mkGameState (status g) (gs_players g) (gs_hostId g) (chain g) (turn g) (maxTurns g)
              (isRoundActive g) (isEvaluating g) x.

(** The module-level initialisers. *)
Definition initialGameState : GameState :=
  mkGameState lobby [] None [] 0 0 false false 0.
Definition initialState : State :=
  mkState [] None initialGameState false [].

(** ** Timer and turn handling *)

(** [startTurnTimer]: any armed interval is cleared and a new one armed. *)
Definition startTurnTimer (s : State) : State * list Output :=
  let s1 := set_gameState (gs_set_timeLeft TURN_DURATION (gameState s)) s in
  (set_timerInterval true s1, [emit_timer TURN_DURATION]).

(** [resetGame]; [draw] is the random draw choosing the seed word. *)
Definition resetGame (draw : nat) (s : State) : State :=
  let randomSeed := nth_error seedWords (draw mod length seedWords) in
  let ps := map (fun p => Player.with_submission false None (Player.with_score 0%Z p))
                (players s) in
  let g := mkGameState playing (map Player.id ps) (hostId s)
                       [Node.mk randomSeed None] 1 MAX_TURNS true false
                       (timeLeft initialGameState) in
  set_gameState g (set_players ps s).

(** [startNextTurn] *)
Definition startNextTurn (s : State) : State * list Output :=
  if MAX_TURNS <=? turn (gameState s) then
    (set_gameState (gs_set_status finished (gameState s)) s,
     [emit_gameOver (players s) (hostId s)])
  else
    let g := gs_set_flags true false
               (gs_set_turn (S (turn (gameState s))) (gameState s)) in
    let ps := map (Player.with_submission false None) (players s) in
    let s1 := set_players ps (set_gameState g s) in
    let '(s2, o2) := startTurnTimer s1 in
    (s2, emit_gameState g None :: o2).

(** ** Round evaluation *)

(** [Object.values(players).filter(p => p.submitted).map(...)] *)
Definition snapshot (ps : list Player.t) : list Guess.t :=
  map (fun p => Guess.mk (Player.id p) (Player.lastGuess p) None)
      (filter Player.submitted ps).

(** [gameState.chain[gameState.chain.length - 1]] *)
Definition lastNode (c : list Node.t) : option Node.t :=
  nth_error c (length c - 1).

(** [evaluateRound] up to its [await].  With nobody having submitted the
    call ends here, through [startNextTurn]; otherwise the request is sent
    and the rest of the call waits in [pending]. *)
Definition evaluateRound (s : State) : State * list Output :=
  if isEvaluating (gameState s) then (s, [])
  else
    let g := gs_set_flags false true (gameState s) in
    let s1 := set_timerInterval false (set_gameState g s) in
    let o1 := [emit_gameState g None] in
    match lastNode (chain g) with
    | None => (s1, o1 ++ [uncaught_TypeError])
    | Some last =>
        let guesses := snapshot (players s1) in
        match guesses with
        | [] =>
            let '(s2, o2) := startNextTurn s1 in
            (s2, o1 ++ emit_roundResult NobodyPlayed :: o2)
        | _ :: _ =>
            (set_pending (pending s1 ++ [guesses]) s1,
             o1 ++ [openai_create (Node.word last) (map Guess.word guesses)])
        end
    end.

(** [Array.prototype.sort] with a comparison function.  The sort is stable
    (ECMAScript 2019), so its result is that of any stable sort: here,
    insertion from the right. *)
Section ArraySort.
Context {A : Type} (compareFn : A -> A -> Z).

Fixpoint sort_insert (x : A) (l : list A) : list A :=
  match l with
  | [] => [x]
  | y :: l' => if (0 <? compareFn x y)%Z then y :: sort_insert x l' else x :: l
  end.

Definition Array_sort (l : list A) : list A := fold_right sort_insert [] l.
End ArraySort.

(** [(a, b) => (b.score || 0) - (a.score || 0)] *)
Definition byScoreDesc (a b : Guess.t) : Z := (Guess.scoreOr0 b - Guess.scoreOr0 a)%Z.

(** The points loop.  [players[guess.groupId].score += ...] throws when the
    player is gone; what was added before stays. *)
Fixpoint awardPoints (winner : Guess.t) (gs : list Guess.t) (ps : list Player.t)
         (lines : list Line) : list Player.t * option (list Line) :=
  match gs with
  | [] => (ps, Some lines)
  | guess :: rest =>
      let pointsToAdd :=
        ((if Guess.reachesThreshold guess then 2 else 0)
         + (if String.eqb (Guess.groupId guess) (Guess.groupId winner) then 5 else 0))%Z in
      match get (Guess.groupId guess) ps with
      | None => (ps, None)
      | Some p =>
          let ps' := modify (Guess.groupId guess)
                            (fun q => Player.with_score (Player.score q + pointsToAdd)%Z q)
                            ps in
          awardPoints winner rest ps'
            (lines ++ [mkLine (Player.name p) (Guess.word guess)
                              (Guess.scoreOr0 guess) pointsToAdd])
      end
  end.

Section Server.
(** [String.prototype.toLowerCase] and [toUpperCase]. *)
Variable toLowerCase : string -> string.
Variable toUpperCase : string -> string.

(** [guesses.find(g => g.word.toLowerCase() === rw.toLowerCase())]
    followed by [guess.score = sc], on the first match.  [None]: a
    [toLowerCase] on a missing word threw. *)
Fixpoint assignScore (rw : string) (sc : option Z) (gs : list Guess.t)
  : option (list Guess.t) :=
  match gs with
  | [] => Some []
  | g :: rest =>
      match Guess.word g with
      | None => None
      | Some w =>
          if String.eqb (toLowerCase w) (toLowerCase rw) then Some (Guess.with_score sc g :: rest)
          else option_map (cons g) (assignScore rw sc rest)
      end
  end.

(** One iteration of [results.forEach]. *)
Definition applyResult (r : Result.t) (gs : list Guess.t) : option (list Guess.t) :=
  match gs with
  | [] => Some []
  | _ :: _ =>
      match Result.word r with
      | None => None
      | Some rw => assignScore rw (Result.score r) gs
      end
  end.

Fixpoint assignScores (rs : list Result.t) (gs : list Guess.t)
  : option (list Guess.t) :=
  match rs with
  | [] => Some gs
  | r :: rs' =>
      match applyResult r gs with
      | None => None
      | Some gs' => assignScores rs' gs'
      end
  end.

(** The [try] block after the [await].  [None]: it threw. *)
Definition tryBlock (guesses : list Guess.t) (a : OracleAnswer) (draw : nat)
           (s : State) : State * option RoundMessage :=
  match a with
  | rejected => (s, None)
  | results rs =>
      match assignScores rs guesses with
      | None => (s, None)
      | Some scored =>
          let sorted := Array_sort byScoreDesc scored in
          match sorted with
          | [] => (s, None)
          | winnerOfTheRound :: _ =>
              match get (Guess.groupId winnerOfTheRound) (players s) with
              | None => (s, None)
              | Some wp =>
                  match awardPoints winnerOfTheRound sorted (players s) [] with
                  | (ps, None) => (set_players ps s, None)
                  | (ps, Some lines) =>
                      let s1 := set_players ps s in
                      match nth_error sorted (draw mod length sorted) with
                      | None => (s1, None)
                      | Some nextNodeData =>
                          let node := Node.mk (Guess.word nextNodeData)
                                              (Some (Guess.groupId nextNodeData)) in
                          let g := gs_set_chain (chain (gameState s1) ++ [node])
                                                (gameState s1) in
                          (set_gameState g s1,
                           Some (Summary (turn (gameState s1))
                                         (Guess.word winnerOfTheRound)
                                         (Guess.scoreOr0 winnerOfTheRound)
                                         (Player.name wp) lines
                                         (Guess.word nextNodeData)))
                      end
                  end
              end
          end
      end
  end.

(** [evaluateRound] from its [await] on: [try], [catch], [finally]. *)
Definition evaluateRound_resume (guesses : list Guess.t) (a : OracleAnswer)
           (draw : nat) (s : State) : State * list Output :=
  let '(s1, r) := tryBlock guesses a draw s in
  let o1 := match r with
            | Some m => [emit_roundResult m]
            | None => [console_error; emit_roundResult OracleError]
            end in
  let '(s2, o2) := startNextTurn s1 in
  (s2, o1 ++ o2).

(** The callback of [setInterval] in [startTurnTimer]. *)
Definition timerCallback (s : State) : State * list Output :=
  let '(s1, o1) :=
    if 0 <? timeLeft (gameState s) then
      let t := timeLeft (gameState s) - 1 in
      (set_gameState (gs_set_timeLeft t (gameState s)) s, [emit_timer t])
    else (s, []) in
  if timeLeft (gameState s1) <=? 0 then
    let s2 := set_timerInterval false s1 in
    if negb (isEvaluating (gameState s2)) then
      let '(s3, o3) := evaluateRound s2 in (s3, o1 ++ o3)
    else (s2, o1)
  else (s1, o1).

(** ** Socket handlers *)

(** The middleware [io.use]: a handshake without a name is refused and
    never reaches the connection handler. *)
Definition io_use (name : string) : bool := negb (String.eqb name "").

(** [io.on('connection', ...)] *)
Definition on_connection (v : Variant) (sid name : string) (s : State)
  : State * list Output :=
  if Status_eqb (status (gameState s)) playing || (50 <=? length (players s)) then
    (s, [socket_disconnect sid])
  else
    let s1 :=
      match v with
      | HostGated =>
          if String.eqb (toUpperCase name) "LIDER"
             && negb (existsb Player.isHost (players s))
          then set_hostId (Some sid) s else s
      | OpenLobby => s
      end in
    let c := nth (length (players s1) mod length colors) colors "" in
    let ps := set sid (Player.mk sid name c 0%Z false None) (players s1) in
    let s2 := set_players ps s1 in
    (s2, [emit_lobbyState ps (hostId s2)]).

(** The guard of [socket.on('startGame', ...)]. *)
Definition mayStart (v : Variant) (sid : string) (s : State) : bool :=
  match v with
  | HostGated =>
      match hostId s with
      | Some h => String.eqb sid h && negb (Status_eqb (status (gameState s)) playing)
      | None => false
      end
  | OpenLobby => Status_eqb (status (gameState s)) lobby
  end.

Definition on_startGame (v : Variant) (sid : string) (draw : nat) (s : State)
  : State * list Output :=
  if mayStart v sid s then
    let s1 := resetGame draw s in
    let '(s2, o2) := startTurnTimer s1 in
    (s2, emit_gameState (gameState s1) None :: o2)
  else (s, []).

(** The guard of [socket.on('submitGuess', ...)]. *)
Definition acceptsGuess (sid : string) (s : State) : bool :=
  match get sid (players s) with
  | Some p => isRoundActive (gameState s) && negb (Player.submitted p)
  | None => false
  end.

(** The two assignments of the handler: [word] is stored as it comes. *)
Definition recordGuess (sid : string) (word : option string) (s : State) : State :=
  set_players (modify sid (Player.with_submission true word) (players s)) s.

Definition on_submitGuess (sid : string) (word : option string) (s : State)
  : State * list Output :=
  if acceptsGuess sid s then
    let s1 := recordGuess sid word s in
    let o1 := [emit_gameState (gameState s1) (Some (players s1))] in
    if forallb Player.submitted (players s1) then
      let '(s2, o2) := evaluateRound s1 in (s2, o1 ++ o2)
    else (s1, o1)
  else (s, []).

Definition on_disconnect (sid : string) (s : State) : State * list Output :=
  match get sid (players s) with
  | Some _ =>
      let wasHost := match hostId s with Some h => String.eqb sid h | None => false end in
      let s1 := set_players (delete sid (players s)) s in
      let s2 := if wasHost then set_hostId None s1 else s1 in
      (s2, [emit_lobbyState (players s2) (hostId s2)])
  | None => (s, [])
  end.

(** ** The event loop *)

(** A socket has handlers from the moment its connection is accepted
    until it disconnects, that is, while its id is a key of [players]. *)
Definition connected (sid : string) (s : State) : bool :=
  match get sid (players s) with Some _ => true | None => false end.

(** The list without its [k]-th element. *)
Fixpoint remove_nth {A : Type} (k : nat) (l : list A) : list A :=
  match l, k with
  | [], _ => []
  | _ :: l', 0 => l'
  | x :: l', S k' => x :: remove_nth k' l'
  end.

Definition step (v : Variant) (s : State) (e : Event) : State * list Output :=
  match e with
  | connection sid name =>
      if io_use name then on_connection v sid name s
      else (s, [connect_error sid])
  | startGame sid draw =>
      if connected sid s then on_startGame v sid draw s else (s, [])
  | submitGuess sid word =>
      if connected sid s then on_submitGuess sid word s else (s, [])
  | disconnect sid =>
      if connected sid s then on_disconnect sid s else (s, [])
  | tick =>
      if timerInterval s then timerCallback s else (s, [])
  | oracleAnswer k a draw =>
      match nth_error (pending s) k with
      | Some guesses =>
          evaluateRound_resume guesses a draw
            (set_pending (remove_nth k (pending s)) s)
      | None => (s, [])
      end
  end.

Fixpoint run (v : Variant) (s : State) (evs : list Event) : State * list Output :=
  match evs with
  | [] => (s, [])
  | e :: evs' =>
      let '(s1, o1) := step v s e in
      let '(s2, o2) := run v s1 evs' in
      (s2, o1 ++ o2)
  end.

Inductive reachable (v : Variant) : State -> Prop :=
| reachable_init : reachable v initialState
| reachable_step s e : reachable v s -> reachable v (fst (step v s e)).

End Server.

(** ** A concrete runtime for closed examples *)

(** Case mapping on the ASCII letters, where it agrees with the runtime's. *)
Definition ascii_lower (c : ascii) : ascii :=
  let n := nat_of_ascii c in
  if (65 <=? n) && (n <=? 90) then ascii_of_nat (n + 32) else c.
Definition ascii_upper (c : ascii) : ascii :=
  let n := nat_of_ascii c in
  if (97 <=? n) && (n <=? 122) then ascii_of_nat (n - 32) else c.

Fixpoint string_map (f : ascii -> ascii) (w : string) : string :=
  match w with
  | EmptyString => EmptyString
  | String c w' => String (f c) (string_map f w')
  end.

Definition lower : string -> string := string_map ascii_lower.
Definition upper : string -> string := string_map ascii_upper.

(** The two servers over that runtime. *)
Definition run_index := run lower upper HostGated.
Definition run_part0 := run lower upper OpenLobby.

(** ** Observations on the outputs of a handler *)

Definition is_roundResult (o : Output) : bool :=
  match o with emit_roundResult _ => true | _ => false end.
Definition is_request (o : Output) : bool :=
  match o with openai_create _ _ => true | _ => false end.
Definition is_timer (o : Output) : bool :=
  match o with emit_timer _ => true | _ => false end.
Definition is_lobbyState (o : Output) : bool :=
  match o with emit_lobbyState _ _ => true | _ => false end.

(** A round result that announces a skipped round. *)
Definition is_skip (o : Output) : bool :=
  match o with
  | emit_roundResult NobodyPlayed | emit_roundResult OracleError => true
  | _ => false
  end.

Definition count (f : Output -> bool) (l : list Output) : nat :=
  length (filter f l).

(** ** Scenarios *)

(** A game in which nobody ever submits: the host joins and starts, and
    the timer runs out ten times. *)
Definition silent_game : list Event :=
  connection "a" "LIDER" :: startGame "a" 0 :: repeat tick (MAX_TURNS * TURN_DURATION).

(** Two players in the lobby of [src/index.js], then a game started by the
    host. *)
Definition two_players_started : list Event :=
  [connection "a" "Lider"; connection "b" "Bia"; startGame "a" 0].

Definition after_silent_game_index : State := fst (run_index initialState silent_game).
Definition after_silent_game_part0 : State := fst (run_part0 initialState silent_game).

(** The scoring request fails, or its answer is not what the [try] block
    can read: the block throws before any point is awarded. *)
Definition answerThrows (lc : string -> string) (a : OracleAnswer)
           (guesses : list Guess.t) : Prop :=
  match a with
  | rejected => True
  | results rs => assignScores lc rs guesses = None
  end.

(** Both players of [two_players_started] submit, which starts the
    evaluation. *)
Definition both_submitted : list Event :=
  two_players_started ++ [submitGuess "a" (Some "Passado"); submitGuess "b" (Some "Carro")].

(** ** The phases of a session

    What holds of the flags, the timer and the suspended evaluations in
    every state the server can be in. *)

Definition collecting (s : State) : Prop :=
  isRoundActive (gameState s) = true /\ isEvaluating (gameState s) = false /\
  timerInterval s = true /\ pending s = [] /\ 1 <= timeLeft (gameState s).

Definition scoring (s : State) : Prop :=
  isRoundActive (gameState s) = false /\ isEvaluating (gameState s) = true /\
  timerInterval s = false /\ exists gs, pending s = [gs].

Definition Inv (s : State) : Prop :=
  match status (gameState s) with
  | lobby =>
      isRoundActive (gameState s) = false /\ isEvaluating (gameState s) = false /\
      timerInterval s = false /\ pending s = []
  | playing =>
      chain (gameState s) <> [] /\ 1 <= turn (gameState s) <= MAX_TURNS /\
      (collecting s \/ scoring s)
  | finished =>
      chain (gameState s) <> [] /\
      isRoundActive (gameState s) = false /\ isEvaluating (gameState s) = true /\
      timerInterval s = false /\ pending s = []
  end.

(** The state in which [evaluateRound] is entered with its guard open. *)
Definition ready (s : State) : Prop :=
  status (gameState s) = playing /\ chain (gameState s) <> [] /\
  1 <= turn (gameState s) <= MAX_TURNS /\
  isEvaluating (gameState s) = false /\ pending s = [].

(** The state in which the [finally] of [evaluateRound] runs. *)
Definition closing (s : State) : Prop :=
  status (gameState s) = playing /\ chain (gameState s) <> [] /\
  1 <= turn (gameState s) <= MAX_TURNS /\
  isRoundActive (gameState s) = false /\ isEvaluating (gameState s) = true /\
  timerInterval s = false /\ pending s = [].

(** ** The kinds of step

    What one event does to the round in progress, seen from the state
    before ([s]), the state after ([s']) and the outputs ([out]). *)

(** Nothing about the round moves: no result, no request, the suspended
    evaluations stay; the session record keeps its chain, turn and status
    unless the event starts a new game from a status other than playing. *)
Definition stepIdle (s s' : State) (out : list Output) : Prop :=
  count is_roundResult out = 0 /\ count is_request out = 0 /\
  pending s' = pending s /\
  ((chain (gameState s') = chain (gameState s) /\
    turn (gameState s') = turn (gameState s) /\
    status (gameState s') = status (gameState s) /\
    isEvaluating (gameState s') = isEvaluating (gameState s)) \/
   (status (gameState s) <> playing /\ status (gameState s') = playing /\
    turn (gameState s') = 1 /\ length (chain (gameState s')) = 1)).

(** The evaluation of the turn starts: the guard was open and is now
    closed, one request is sent, and the call waits for its answer. *)
Definition stepRequest (s s' : State) (out : list Output) : Prop :=
  count is_roundResult out = 0 /\ count is_request out = 1 /\
  status (gameState s) = playing /\
  isEvaluating (gameState s) = false /\ isEvaluating (gameState s') = true /\
  pending s = [] /\ pending s' = [snapshot (players s')] /\
  snapshot (players s') <> [] /\
  chain (gameState s') = chain (gameState s) /\
  turn (gameState s') = turn (gameState s) /\
  status (gameState s') = status (gameState s).

(** The turn ends: one round result is broadcast, no request is sent, the
    chain grows by at most one node, and the game moves to the next turn
    or finishes. *)
Definition stepTurnEnd (s s' : State) (out : list Output) : Prop :=
  count is_roundResult out = 1 /\ count is_request out = 0 /\
  status (gameState s) = playing /\ pending s' = [] /\
  (chain (gameState s') = chain (gameState s) \/
   exists node, chain (gameState s') = chain (gameState s) ++ [node]) /\
  ((turn (gameState s) < MAX_TURNS /\ status (gameState s') = playing /\
    turn (gameState s') = S (turn (gameState s)) /\
    isEvaluating (gameState s') = false) \/
   (turn (gameState s) = MAX_TURNS /\ status (gameState s') = finished /\
    turn (gameState s') = turn (gameState s))) /\
  (existsb is_skip out = false ->
   exists node, chain (gameState s') = chain (gameState s) ++ [node]).

(** The chain has one node per completed turn, and the seed. *)
Definition chainTracksTurn (s : State) : Prop :=
  match status (gameState s) with
  | lobby => True
  | playing => length (chain (gameState s)) = turn (gameState s)
  | finished => length (chain (gameState s)) = S (turn (gameState s))
  end.

(** [evaluateRound] called [n] times in a row, as by several triggers
    arriving in the same turn. *)
Fixpoint invokeEvaluate (n : nat) (s : State) : State * list Output :=
  match n with
  | 0 => (s, [])
  | S n' =>
      let '(s1, o1) := evaluateRound s in
      let '(s2, o2) := invokeEvaluate n' s1 in
      (s2, o1 ++ o2)
  end.

(** The host alone, a game started, and the first timer running out. *)
Definition silent_turn : list Event :=
  connection "a" "LIDER" :: startGame "a" 0 :: repeat tick TURN_DURATION.

(** No entry of the answer names the word of [g], whatever the case of
    the letters. *)
Definition unmatched (lc : string -> string) (rs : list Result.t) (g : Guess.t)
  : Prop :=
  forall r rw w, In r rs -> Result.word r = Some rw -> Guess.word g = Some w ->
                 lc w <> lc rw.

(** [g'] is the guess [g], up to its score. *)
Definition sameGuess (g g' : Guess.t) : Prop :=
  Guess.groupId g' = Guess.groupId g /\ Guess.word g' = Guess.word g.

(** Both players of [two_players_started] submit the same word. *)
Definition same_word_twice : list Event :=
  two_players_started ++ [submitGuess "a" (Some "Casa"); submitGuess "b" (Some "Casa")].

(** The timer callbacks among the events. *)
Definition is_tick (e : Event) : bool :=
  match e with tick => true | _ => false end.
Definition countTicks (evs : list Event) : nat := length (filter is_tick evs).

(** A round is collecting submissions, everybody present has submitted,
    and [sid] is not in the roster. *)
Definition waitingForTimer (sid : string) (s : State) : Prop :=
  status (gameState s) = playing /\ chain (gameState s) <> [] /\
  1 <= turn (gameState s) <= MAX_TURNS /\ collecting s /\
  forallb Player.submitted (players s) = true /\
  get sid (players s) = None.

(** Three players; two submit, and the third leaves without submitting. *)
Definition last_one_leaves : list Event :=
  [connection "a" "Lider"; connection "b" "Bia"; connection "c" "Caio";
   startGame "a" 0; submitGuess "a" (Some "Passado"); submitGuess "b" (Some "Carro")].

(** The points of one guess: 2 at or above the threshold, 5 more for the
    guess of the round winner. *)
Definition pointsOf (winner g : Guess.t) : Z :=
  ((if Guess.reachesThreshold g then 2 else 0)
   + (if String.eqb (Guess.groupId g) (Guess.groupId winner) then 5 else 0))%Z.

(** The points the loop of [awardPoints] adds to the player [k]. *)
Fixpoint pointsFor (winner : Guess.t) (gs : list Guess.t) (k : string) : Z :=
  match gs with
  | [] => 0%Z
  | g :: rest =>
      ((if String.eqb k (Guess.groupId g) then pointsOf winner g else 0)
       + pointsFor winner rest k)%Z
  end.

(** Descending order of scores. *)
Definition scoreGe (a b : Guess.t) : Prop :=
  (Guess.scoreOr0 b <= Guess.scoreOr0 a)%Z.

(** The guesses of a given score. *)
Definition withScore (z : Z) (l : list Guess.t) : list Guess.t :=
  filter (fun g => (Guess.scoreOr0 g =? z)%Z) l.

(** The second player to join submits first, and the two words score the
    same. *)
Definition tie_second_joiner_first : list Event :=
  two_players_started
    ++ [submitGuess "b" (Some "Carro"); submitGuess "a" (Some "Passado");
        oracleAnswer 0 (results [Result.mk (Some "carro") (Some 60%Z);
                                 Result.mk (Some "passado") (Some 60%Z)]) 0].

(** Three players submit, which starts the evaluation; [b] leaves while
    the scoring request is out; the answer then scores all three words at
    or above the threshold. *)
Definition all_three_submitted : list Event :=
  [connection "a" "Lider"; connection "b" "Bia"; connection "c" "Caio";
   startGame "a" 0;
   submitGuess "a" (Some "Passado"); submitGuess "b" (Some "Presente"); submitGuess "c" (Some "Amanha")].

Definition three_scores : OracleAnswer :=
  results [Result.mk (Some "Passado") (Some 90%Z);
           Result.mk (Some "Presente") (Some 80%Z);
           Result.mk (Some "Amanha") (Some 70%Z)].

Definition departure_during_scoring : list Event :=
  all_three_submitted ++ [disconnect "b"; oracleAnswer 0 three_scores 0].

(** The same round with nobody leaving. *)
Definition nobody_leaves : list Event :=
  all_three_submitted ++ [oracleAnswer 0 three_scores 0].

(** No id occurs twice in the roster, nor in the guesses of a waiting
    evaluation. *)
Definition Distinct (s : State) : Prop :=
  NoDup (map Player.id (players s)) /\
  Forall (fun gs => NoDup (map Guess.groupId gs)) (pending s).

(** ** The changes of the roster

    The turns of the current game that are over. *)
Definition completedTurns (s : State) : nat :=
  match status (gameState s) with
  | lobby => 0
  | playing => turn (gameState s) - 1
  | finished => turn (gameState s)
  end.

(** The player [p] after the points loop has gone through [done]. *)
Definition award (winner : Guess.t) (done : list Guess.t) (p : Player.t) : Player.t :=
  Player.with_score (Player.score p + pointsFor winner done (Player.id p))%Z p.

(** What one event does to the roster, the host and the progress of the
    game: the shapes a step of the server can take. *)
Inductive Change (uc : string -> string) (v : Variant) (s s' : State) : Prop :=
| change_none :
    players s' = players s -> hostId s' = hostId s ->
    status (gameState s') = status (gameState s) ->
    turn (gameState s') = turn (gameState s) ->
    chain (gameState s') = chain (gameState s) ->
    Change uc v s s'
| change_join sid name :
    io_use name = true -> status (gameState s) <> playing ->
    length (players s) < 50 ->
    players s' =
    set sid (Player.mk sid name
                       (nth (length (players s) mod length colors) colors "")
                       0%Z false None) (players s) ->
    hostId s' =
    match v with
    | HostGated => if String.eqb (uc name) "LIDER" then Some sid else hostId s
    | OpenLobby => hostId s
    end ->
    gameState s' = gameState s ->
    Change uc v s s'
| change_leave sid :
    get sid (players s) <> None ->
    players s' = delete sid (players s) ->
    hostId s' =
    (if match hostId s with Some h => String.eqb sid h | None => false end
     then None else hostId s) ->
    gameState s' = gameState s ->
    Change uc v s s'
| change_start sid draw :
    connected sid s = true -> mayStart v sid s = true ->
    players s' = players (resetGame draw s) -> hostId s' = hostId s ->
    gameState s' = gs_set_timeLeft TURN_DURATION (gameState (resetGame draw s)) ->
    Change uc v s s'
| change_submit sid word :
    acceptsGuess sid s = true ->
    players s' = modify sid (Player.with_submission true word) (players s) ->
    hostId s' = hostId s ->
    status (gameState s') = status (gameState s) ->
    turn (gameState s') = turn (gameState s) ->
    chain (gameState s') = chain (gameState s) ->
    Change uc v s s'
| change_silent :
    snapshot (players s) = [] -> status (gameState s) = playing ->
    (players s' = players s \/
     players s' = map (Player.with_submission false None) (players s)) ->
    hostId s' = hostId s ->
    chain (gameState s') = chain (gameState s) ->
    completedTurns s' = S (completedTurns s) ->
    Change uc v s s'
| change_scored guesses winner done :
    pending s = [guesses] -> status (gameState s) = playing ->
    (NoDup (map Guess.groupId guesses) -> NoDup (map Guess.groupId done)) ->
    (players s' = map (award winner done) (players s) \/
     players s' = map (Player.with_submission false None)
                      (map (award winner done) (players s))) ->
    hostId s' = hostId s ->
    completedTurns s' = S (completedTurns s) ->
    Change uc v s s'.

(** ** What holds of a roster *)

(** The roster fits the capacity, and every player has a name and a
    colour of the palette. *)
Definition RosterOk (s : State) : Prop :=
  length (players s) <= 50 /\
  Forall (fun p => Player.name p <> "") (players s) /\
  Forall (fun p => In (Player.color p) colors) (players s).

(** A word is recorded only for a player that has submitted. *)
Definition coherent (p : Player.t) : Prop :=
  Player.submitted p = false -> Player.lastGuess p = None.

(** The host, if any, is a player of the roster; [src/unnamed/part_000]
    has no host. *)
Definition HostOk (v : Variant) (s : State) : Prop :=
  match v with
  | HostGated => forall h, hostId s = Some h -> get h (players s) <> None
  | OpenLobby => hostId s = None
  end.

(** A score lies between 0 and 7 points per completed turn. *)
Definition ScoresOk (s : State) : Prop :=
  Forall (fun p => (0 <= Player.score p <= 7 * Z.of_nat (completedTurns s))%Z)
         (players s).

(** The chain holds the seed and at most one node per completed turn;
    a finished game has played all its turns. *)
Definition TurnOk (s : State) : Prop :=
  match status (gameState s) with
  | lobby => chain (gameState s) = []
  | playing => 1 <= length (chain (gameState s)) <= turn (gameState s)
  | finished =>
      turn (gameState s) = MAX_TURNS /\
      1 <= length (chain (gameState s)) <= S (turn (gameState s))
  end.

(** A waiting evaluation holds at least one guess, and no submitter
    appears twice. *)
Definition guessesOk (gs : list Guess.t) : Prop :=
  gs <> [] /\ NoDup (map Guess.groupId gs).

(** Every guess is a string: no submitter sent a payload of another kind. *)
Definition allWords (gs : list Guess.t) : Prop :=
  Forall (fun g => Guess.word g <> None) gs.

(** The chain node made of a guess. *)
Definition nodeOf (g : Guess.t) : Node.t :=
  Node.mk (Guess.word g) (Some (Guess.groupId g)).

(** The submitter and the word of a guess. *)
Definition entry (g : Guess.t) : string * option string :=
  (Guess.groupId g, Guess.word g).

Definition is_gameOver (o : Output) : bool :=
  match o with emit_gameOver _ _ => true | _ => false end.

(** The game-over broadcast of a step: there is none and the game does not
    end, or the game ends and the one broadcast carries the roster and the
    host as they then are. *)
Definition overOk (s s' : State) (out : list Output) : Prop :=
  (filter is_gameOver out = [] /\
   ~ (status (gameState s) = playing /\ status (gameState s') = finished)) \/
  (filter is_gameOver out = [emit_gameOver (players s') (hostId s')] /\
   status (gameState s) = playing /\ status (gameState s') = finished /\
   turn (gameState s) = MAX_TURNS).

(** ** Turns of a run *)

(** The states a run passes through, one after each event. *)
Fixpoint trace (lc uc : string -> string) (v : Variant) (s : State)
         (evs : list Event) : list State :=
  match evs with
  | [] => []
  | e :: evs' =>
      let s1 := fst (step lc uc v s e) in s1 :: trace lc uc v s1 evs'
  end.

(** [s'] is in the turn of [s]: a game is being played, at the turn number
    of [s]. *)
Definition sameTurn (s s' : State) : Prop :=
  status (gameState s') = playing /\ turn (gameState s') = turn (gameState s).

(** One player; the turns up to the last fail at the scoring request, and
    in the last turn the player has submitted and the request is out. *)
Definition last_turn_scoring : list Event :=
  connection "a" "LIDER" :: startGame "a" 0
    :: concat (repeat [submitGuess "a" (Some "Mar"); oracleAnswer 0 rejected 0]
                      (MAX_TURNS - 1))
    ++ [submitGuess "a" (Some "Mar")].

(** * Properties *)

(** ** Elementary facts *)

Lemma lastNode_nonempty (c : list Node.t) :
  c <> [] -> exists n, lastNode c = Some n.
Proof.
  intros Hc. unfold lastNode.
  destruct (nth_error c (length c - 1)) as [n|] eqn:E; [eauto|].
  apply nth_error_None in E. destruct c; [congruence | simpl in E; lia].
Qed.

Lemma lastNode_empty : lastNode [] = None.
Proof. reflexivity. Qed.

Lemma startNextTurn_last (s : State) :
  MAX_TURNS <= turn (gameState s) ->
  startNextTurn s =
  (set_gameState (gs_set_status finished (gameState s)) s,
   [emit_gameOver (players s) (hostId s)]).
Proof.
  intros H. unfold startNextTurn.
  destruct (Nat.leb_spec MAX_TURNS (turn (gameState s))); [reflexivity | lia].
Qed.

Lemma startNextTurn_next (s : State) :
  turn (gameState s) < MAX_TURNS ->
  let g := gs_set_flags true false
             (gs_set_turn (S (turn (gameState s))) (gameState s)) in
  startNextTurn s =
  (set_timerInterval true
     (set_gameState (gs_set_timeLeft TURN_DURATION g)
        (set_players (map (Player.with_submission false None) (players s))
                     (set_gameState g s))),
   [emit_gameState g None; emit_timer TURN_DURATION]).
Proof.
  intros H. unfold startNextTurn.
  destruct (Nat.leb_spec MAX_TURNS (turn (gameState s))); [lia | reflexivity].
Qed.

Lemma Status_eqb_eq (a b : Status) : Status_eqb a b = true <-> a = b.
Proof. destruct a, b; simpl; split; congruence. Qed.

Lemma Inv_frame (s s' : State) :
  gameState s' = gameState s -> timerInterval s' = timerInterval s ->
  pending s' = pending s -> Inv s -> Inv s'.
Proof.
  unfold Inv, collecting, scoring. intros -> -> ->. exact (fun H => H).
Qed.

Lemma startNextTurn_Inv (s : State) : closing s -> Inv (fst (startNextTurn s)).
Proof.
  intros (Hst & Hc & Ht & Ha & He & Hti & Hp).
  unfold startNextTurn. destruct (MAX_TURNS <=? turn (gameState s)) eqn:E.
  - unfold Inv; simpl. repeat split; assumption.
  - apply Nat.leb_gt in E. unfold Inv, collecting; simpl. rewrite Hst.
    split; [assumption|]. split; [lia|]. left.
    unfold TURN_DURATION. repeat split; try assumption; lia.
Qed.

Lemma evaluateRound_Inv (s : State) : ready s -> Inv (fst (evaluateRound s)).
Proof.
  intros (Hst & Hc & Ht & He & Hp).
  unfold evaluateRound. rewrite He. simpl.
  destruct (lastNode_nonempty _ Hc) as [n Hn]. rewrite Hn.
  destruct (snapshot (players s)) as [|g gs] eqn:Eg.
  - destruct (startNextTurn _) as [s2 o2] eqn:E2.
    change s2 with (fst (s2, o2)). rewrite <- E2.
    apply startNextTurn_Inv. unfold closing; simpl. repeat split; assumption || lia.
  - unfold Inv, scoring; simpl. rewrite Hst, Hp.
    split; [assumption|]. split; [assumption|]. right.
    repeat split. eexists; reflexivity.
Qed.

Arguments startNextTurn : simpl never.
Arguments evaluateRound : simpl never.

Lemma count_app f l1 l2 : count f (l1 ++ l2) = count f l1 + count f l2.
Proof. unfold count. rewrite filter_app, length_app. reflexivity. Qed.

Lemma count_cons_false f x l : f x = false -> count f (x :: l) = count f l.
Proof. unfold count. simpl. intros ->. reflexivity. Qed.

(** What [startNextTurn] does to the turn. *)
Lemma startNextTurn_effects (s : State) :
  turn (gameState s) <= MAX_TURNS ->
  let r := startNextTurn s in
  count is_roundResult (snd r) = 0 /\ count is_request (snd r) = 0 /\
  existsb is_skip (snd r) = false /\
  pending (fst r) = pending s /\
  chain (gameState (fst r)) = chain (gameState s) /\
  ((turn (gameState s) < MAX_TURNS /\
    status (gameState (fst r)) = status (gameState s) /\
    turn (gameState (fst r)) = S (turn (gameState s)) /\
    isEvaluating (gameState (fst r)) = false) \/
   (turn (gameState s) = MAX_TURNS /\ status (gameState (fst r)) = finished /\
    turn (gameState (fst r)) = turn (gameState s))).
Proof.
  intros Hle r. subst r.
  destruct (Nat.le_gt_cases MAX_TURNS (turn (gameState s))) as [E | E].
  - rewrite startNextTurn_last by exact E. simpl.
    repeat split. right. repeat split. lia.
  - rewrite startNextTurn_next by exact E. simpl.
    repeat split. left. repeat split. exact E.
Qed.

(** [evaluateRound] entered with its guard open: either somebody has
    submitted and the request goes out, or the turn ends at once. *)
Lemma evaluateRound_open (s : State) :
  ready s ->
  let r := evaluateRound s in
  stepRequest s (fst r) (snd r) \/
  (snapshot (players s) = [] /\ stepTurnEnd s (fst r) (snd r) /\
   chain (gameState (fst r)) = chain (gameState s)).
Proof.
  intros (Hst & Hc & Ht & He & Hp) r. subst r.
  unfold evaluateRound. rewrite He.
  destruct (lastNode_nonempty _ Hc) as [n Hn]. simpl. rewrite Hn.
  destruct (snapshot (players s)) as [|g gs] eqn:Eg.
  - right. split; [reflexivity|].
    match goal with |- context [startNextTurn ?x] => set (s1 := x) end.
    assert (Hle : turn (gameState s1) <= MAX_TURNS) by (simpl; lia).
    pose proof (startNextTurn_effects s1 Hle) as (C1 & C2 & _ & P & Ch & T).
    destruct (startNextTurn s1) as [s2 o2]. simpl in *.
    unfold stepTurnEnd. simpl.
    change (emit_gameState (gs_set_flags false true (gameState s)) None
              :: emit_roundResult NobodyPlayed :: o2)
      with ([emit_gameState (gs_set_flags false true (gameState s)) None;
             emit_roundResult NobodyPlayed] ++ o2).
    rewrite !count_app, C1, C2, P. simpl.
    repeat split; auto; try discriminate.
    destruct T as [(T1 & T2 & T3 & T4) | (T1 & T2 & T3)]; [left | right];
      repeat split; auto; congruence.
  - left. unfold stepRequest. simpl. rewrite Hp, Eg. simpl.
    repeat split; auto. discriminate.
Qed.

(** ** The ranking of a round *)

Lemma sort_insert_perm x l : Permutation (x :: l) (sort_insert byScoreDesc x l).
Proof.
induction l as [|y l IH]; simpl; [apply Permutation_refl|].
destruct (0 <? byScoreDesc x y)%Z; [|apply Permutation_refl].
eapply perm_trans; [apply perm_swap|]. apply perm_skip. exact IH.
Qed.

Lemma Array_sort_perm l : Permutation l (Array_sort byScoreDesc l).
Proof.
induction l as [|x l IH]; simpl; [constructor|].
eapply perm_trans; [|apply sort_insert_perm]. apply perm_skip. exact IH.
Qed.

Lemma sort_insert_sorted x l :
StronglySorted scoreGe l -> StronglySorted scoreGe (sort_insert byScoreDesc x l).
Proof.
induction 1 as [|y l Hs IH Hall]; simpl.
- constructor; constructor.
- unfold byScoreDesc at 1.
  destruct (Z.ltb_spec 0 (Guess.scoreOr0 y - Guess.scoreOr0 x)) as [Hlt | Hge].
  + constructor; [exact IH|].
    apply (Permutation_Forall (sort_insert_perm x l)).
    constructor; [unfold scoreGe; lia | exact Hall].
  + constructor; [constructor; assumption|].
    constructor; [unfold scoreGe; lia|].
    eapply Forall_impl; [|exact Hall]. unfold scoreGe. intros a Ha. lia.
Qed.

Lemma Array_sort_sorted l : StronglySorted scoreGe (Array_sort byScoreDesc l).
Proof.
induction l as [|x l IH]; simpl; [constructor|].
apply sort_insert_sorted. exact IH.
Qed.

(** Stability: guesses of equal score keep their order. *)
Lemma sort_insert_stable z x l :
withScore z (sort_insert byScoreDesc x l) = withScore z (x :: l).
Proof.
unfold withScore. induction l as [|y l IH]; simpl; [reflexivity|].
unfold byScoreDesc at 1.
destruct (Z.ltb_spec 0 (Guess.scoreOr0 y - Guess.scoreOr0 x)) as [Hlt | Hge];
  [|reflexivity].
simpl. rewrite IH. simpl.
destruct (Z.eqb_spec (Guess.scoreOr0 x) z) as [Ex | Ex];
  destruct (Z.eqb_spec (Guess.scoreOr0 y) z) as [Ey | Ey]; try reflexivity.
lia.
Qed.

Lemma Array_sort_stable z l :
withScore z (Array_sort byScoreDesc l) = withScore z l.
Proof.
induction l as [|x l IH]; simpl; [reflexivity|].
rewrite sort_insert_stable. unfold withScore in *. simpl. rewrite IH.
reflexivity.
Qed.

(** The head of the ranking is the first of the best in the given order. *)
Lemma Array_sort_head l : forall w rest,
Array_sort byScoreDesc l = w :: rest ->
exists pre post,
  l = pre ++ w :: post /\
  Forall (fun h => (Guess.scoreOr0 h < Guess.scoreOr0 w)%Z) pre /\
  Forall (fun h => (Guess.scoreOr0 h <= Guess.scoreOr0 w)%Z) post.
Proof.
induction l as [|x l IH]; simpl; intros w rest H; [discriminate|].
destruct (Array_sort byScoreDesc l) as [|y l'] eqn:E.
- simpl in H. injection H as <- <-.
  assert (Hl : l = []).
  { pose proof (Array_sort_perm l) as P. rewrite E in P.
    apply Permutation_sym, Permutation_nil in P. exact P. }
  subst l. exists [], []. repeat split; constructor.
- simpl in H. unfold byScoreDesc at 1 in H.
  destruct (IH y l' eq_refl) as (pre & post & -> & Hpre & Hpost).
  destruct (Z.ltb_spec 0 (Guess.scoreOr0 y - Guess.scoreOr0 x)) as [Hlt | Hge].
  + injection H as <- <-. exists (x :: pre), post.
    repeat split; [constructor; [lia | exact Hpre] | exact Hpost].
  + injection H as <- <-. exists [], (pre ++ y :: post).
    repeat split; [constructor|].
    apply Forall_app. split.
    * eapply Forall_impl; [|exact Hpre]. intros a Ha. simpl in Ha. lia.
    * constructor; [lia|].
      eapply Forall_impl; [|exact Hpost]. intros a Ha. simpl in Ha. lia.
Qed.

(** ** The points of a round *)

Lemma awardPoints_total winner gs : forall ps lines ps' lines',
awardPoints winner gs ps lines = (ps', Some lines') ->
ps' = map (fun p => Player.with_score
                      (Player.score p + pointsFor winner gs (Player.id p))%Z p) ps.
Proof.
induction gs as [|g gs IH]; simpl; intros ps lines ps' lines' H.
- injection H as <- _. rewrite <- (map_id ps) at 1. apply map_ext.
  intros [i n c sc sb lg]. unfold Player.with_score. simpl.
  rewrite Z.add_0_r. reflexivity.
- destruct (get (Guess.groupId g) ps) as [p|]; [|discriminate].
  apply IH in H. rewrite H. unfold modify. rewrite map_map. apply map_ext.
  intros [i n c sc sb lg]. unfold Player.with_score, pointsOf. simpl.
  destruct (String.eqb i (Guess.groupId g)); simpl; f_equal; lia.
Qed.

Lemma pointsFor_absent winner gs k :
~ In k (map Guess.groupId gs) -> pointsFor winner gs k = 0%Z.
Proof.
induction gs as [|g gs IH]; simpl; intros H; [reflexivity|].
destruct (String.eqb_spec k (Guess.groupId g)) as [E | E].
- exfalso. apply H. left. congruence.
- rewrite IH by (intros Hin; apply H; right; exact Hin). reflexivity.
Qed.

Lemma pointsFor_unique winner gs g :
NoDup (map Guess.groupId gs) -> In g gs ->
pointsFor winner gs (Guess.groupId g) = pointsOf winner g.
Proof.
induction gs as [|h gs IH]; simpl; intros Hnd Hin; [destruct Hin|].
inversion Hnd as [|? ? Hh Hnd']; subst.
destruct Hin as [-> | Hin].
- rewrite String.eqb_refl, (pointsFor_absent _ _ _ Hh). lia.
- destruct (String.eqb_spec (Guess.groupId g) (Guess.groupId h)) as [E | E].
  + exfalso. apply Hh. rewrite <- E. apply in_map. exact Hin.
  + rewrite (IH Hnd' Hin). reflexivity.
Qed.

(** ** Distinct ids *)

Lemma map_id_modify k f ps :
(forall q, Player.id (f q) = Player.id q) ->
map Player.id (modify k f ps) = map Player.id ps.
Proof.
intros Hf. unfold modify. rewrite map_map. apply map_ext.
intros p. destruct (String.eqb (Player.id p) k); auto.
Qed.

Lemma in_map_id_set x k p ps :
Player.id p = k ->
In x (map Player.id (set k p ps)) -> x = k \/ In x (map Player.id ps).
Proof.
intros Hk. induction ps as [|q ps IH]; simpl.
- intros [H | []]. left. congruence.
- destruct (String.eqb_spec (Player.id q) k) as [E | E]; simpl.
  + intros [H | H]; [left; congruence | auto].
  + intros [H | H]; [auto | destruct (IH H); auto].
Qed.

Lemma NoDup_set k p ps :
Player.id p = k -> NoDup (map Player.id ps) ->
NoDup (map Player.id (set k p ps)).
Proof.
intros Hk. induction ps as [|q ps IH]; simpl; intros Hnd.
- constructor; [intros [] | constructor].
- inversion Hnd as [|? ? Hq Hnd']; subst.
  destruct (String.eqb_spec (Player.id q) (Player.id p)) as [E | E]; simpl.
  + rewrite <- E. constructor; assumption.
  + constructor; [|auto].
    intros Hin. apply in_map_id_set in Hin; [|reflexivity].
    destruct Hin; [congruence | contradiction].
Qed.

Lemma NoDup_map_filter {A B : Type} (f : A -> B) (g : A -> bool) l :
NoDup (map f l) -> NoDup (map f (filter g l)).
Proof.
induction l as [|a l IH]; simpl; intros Hnd; [constructor|].
inversion Hnd as [|? ? Ha Hnd']; subst.
destruct (g a); simpl; [|auto].
constructor; [|auto].
intros Hin. apply Ha. apply in_map_iff in Hin.
destruct Hin as (b & Hb & Hin). apply filter_In in Hin.
rewrite <- Hb. apply in_map. tauto.
Qed.

Lemma snapshot_ids ps :
map Guess.groupId (snapshot ps) = map Player.id (filter Player.submitted ps).
Proof. unfold snapshot. rewrite map_map. reflexivity. Qed.

Lemma awardPoints_ids winner gs : forall ps lines,
map Player.id (fst (awardPoints winner gs ps lines)) = map Player.id ps.
Proof.
induction gs as [|g gs IH]; simpl; intros ps lines; [reflexivity|].
destruct (get (Guess.groupId g) ps); [|reflexivity].
rewrite IH. apply map_id_modify. reflexivity.
Qed.

Lemma startNextTurn_ids s :
map Player.id (players (fst (startNextTurn s))) = map Player.id (players s) /\
map Player.score (players (fst (startNextTurn s))) = map Player.score (players s) /\
pending (fst (startNextTurn s)) = pending s.
Proof.
destruct (Nat.le_gt_cases MAX_TURNS (turn (gameState s))) as [L | L].
- rewrite startNextTurn_last by exact L. auto.
- rewrite startNextTurn_next by exact L. simpl. rewrite !map_map. auto.
Qed.

Lemma evaluateRound_Distinct s : Distinct s -> Distinct (fst (evaluateRound s)).
Proof.
intros [Hps Hpd]. unfold evaluateRound.
destruct (isEvaluating (gameState s)); [split; assumption|]. simpl.
destruct (lastNode (chain (gameState s))); [|split; assumption].
destruct (snapshot (players s)) as [|g gs] eqn:Eg.
- match goal with |- context [startNextTurn ?x] => set (s1 := x) end.
  destruct (startNextTurn_ids s1) as (Hi & _ & Hp).
  destruct (startNextTurn s1) as [s2 o2]. simpl in *.
  unfold Distinct. rewrite Hi, Hp. split; assumption.
- unfold Distinct. simpl. split; [exact Hps|].
  apply Forall_app. split; [exact Hpd|]. constructor; [|constructor].
  rewrite <- Eg, snapshot_ids. apply NoDup_map_filter. exact Hps.
Qed.

Section ServerProperties.
Variables lc uc : string -> string.

(** What the [try] block can change: the scores, and the chain by one
    node when it runs to its end. *)
Lemma tryBlock_frame guesses a draw s :
  hostId (fst (tryBlock lc guesses a draw s)) = hostId s /\
  timerInterval (fst (tryBlock lc guesses a draw s)) = timerInterval s /\
  pending (fst (tryBlock lc guesses a draw s)) = pending s /\
  match snd (tryBlock lc guesses a draw s) with
  | None => gameState (fst (tryBlock lc guesses a draw s)) = gameState s
  | Some m =>
      exists node,
        gameState (fst (tryBlock lc guesses a draw s)) =
        gs_set_chain (chain (gameState s) ++ [node]) (gameState s)
  end.
Proof.
  unfold tryBlock.
  destruct a as [|rs]; [simpl; auto|].
  destruct (assignScores lc rs guesses) as [scored|]; [|simpl; auto].
  destruct (Array_sort byScoreDesc scored) as [|w sorted]; [simpl; auto|].
  destruct (get (Guess.groupId w) (players s)); [|simpl; auto].
  destruct (awardPoints w (w :: sorted) (players s) []) as [ps [lines|]];
    [|simpl; auto].
  destruct (nth_error (w :: sorted) _) as [nx|] eqn:En; [|simpl; auto].
  simpl. repeat split. eexists; reflexivity.
Qed.

Lemma evaluateRound_resume_Inv guesses a draw s :
  closing s -> Inv (fst (evaluateRound_resume lc guesses a draw s)).
Proof.
  intros (Hst & Hc & Ht & Ha & He & Hti & Hp).
  unfold evaluateRound_resume.
  pose proof (tryBlock_frame guesses a draw s) as (_ & Hti1 & Hp1 & Hg).
  destruct (tryBlock lc guesses a draw s) as [s1 r]; simpl in *.
  destruct (startNextTurn s1) as [s2 o2] eqn:E2.
  change s2 with (fst (s2, o2)). rewrite <- E2.
  apply startNextTurn_Inv. unfold closing.
  rewrite Hti1, Hp1.
  destruct r as [m|].
  - destruct Hg as [node ->]. simpl.
    repeat split; try assumption; try lia.
    intro H; apply app_eq_nil in H; destruct H; discriminate.
  - rewrite Hg. repeat split; assumption || lia.
Qed.

Lemma get_connected sid s :
  connected sid s = true <-> exists p, get sid (players s) = Some p.
Proof.
  unfold connected. destruct (get sid (players s)) as [p|]; split; eauto.
  - discriminate.
  - intros [p H]; discriminate.
Qed.

Lemma mayStart_not_playing v sid s :
  mayStart v sid s = true -> status (gameState s) <> playing.
Proof.
  unfold mayStart. destruct v.
  - destruct (hostId s); [|discriminate].
    intros H Hs. rewrite Hs in H. simpl in H.
    rewrite andb_false_r in H. discriminate.
  - intros H Hs. rewrite Hs in H. discriminate.
Qed.

Lemma Inv_idle s :
  Inv s -> status (gameState s) <> playing -> pending s = [].
Proof.
  unfold Inv. destruct (status (gameState s)); intuition congruence.
Qed.

Lemma Inv_active s :
  Inv s -> isRoundActive (gameState s) = true ->
  status (gameState s) = playing /\ chain (gameState s) <> [] /\
  1 <= turn (gameState s) <= MAX_TURNS /\ collecting s.
Proof.
  unfold Inv, collecting, scoring.
  destruct (status (gameState s)); intros H Ha.
  - destruct H as (H & _). congruence.
  - destruct H as (Hc & Ht & [H | (H & _)]); [auto | congruence].
  - destruct H as (_ & H & _). congruence.
Qed.

Lemma Inv_timer s :
  Inv s -> timerInterval s = true ->
  status (gameState s) = playing /\ chain (gameState s) <> [] /\
  1 <= turn (gameState s) <= MAX_TURNS /\ collecting s.
Proof.
  unfold Inv, collecting, scoring.
  destruct (status (gameState s)); intros H Ha.
  - destruct H as (_ & _ & H & _). congruence.
  - destruct H as (Hc & Ht & [H | (_ & _ & H & _)]); [auto | congruence].
  - destruct H as (_ & _ & _ & H & _). congruence.
Qed.

Lemma Inv_pending s gs k :
  Inv s -> nth_error (pending s) k = Some gs ->
  k = 0 /\ pending s = [gs] /\ status (gameState s) = playing /\
  chain (gameState s) <> [] /\ 1 <= turn (gameState s) <= MAX_TURNS /\
  scoring s.
Proof.
  unfold Inv, collecting, scoring.
  destruct (status (gameState s)); intros H Hk.
  - destruct H as (_ & _ & _ & H). rewrite H in Hk. destruct k; discriminate.
  - destruct H as (Hc & Ht & [(_ & _ & _ & H & _) | H]).
    + rewrite H in Hk. destruct k; discriminate.
    + destruct H as (Ha & He & Hti & g & Hp). rewrite Hp in Hk.
      destruct k as [|k]; [|destruct k; discriminate].
      simpl in Hk. injection Hk as ->.
      repeat split; try assumption; try lia. eauto.
  - destruct H as (_ & _ & _ & _ & H). rewrite H in Hk. destruct k; discriminate.
Qed.

(** Every handler keeps the session in one of its phases. *)
Lemma step_Inv v s e : Inv s -> Inv (fst (step lc uc v s e)).
Proof.
  intros HI. destruct e as [sid nm | sid draw | sid w | sid | | k a draw]; simpl.
  - (* connection *)
    destruct (io_use nm); [|exact HI].
    unfold on_connection.
    destruct (_ || _); [exact HI|].
    destruct v; [destruct (_ && _)|]; simpl; (eapply Inv_frame; [| | |exact HI]; reflexivity).
  - (* startGame *)
    destruct (connected sid s); [|exact HI].
    unfold on_startGame. destruct (mayStart v sid s) eqn:Hm; [|exact HI].
    apply mayStart_not_playing in Hm.
    pose proof (Inv_idle s HI Hm) as Hp.
    unfold Inv, collecting, resetGame, TURN_DURATION, MAX_TURNS; simpl.
    split; [discriminate|]. split; [lia|]. left.
    repeat split; auto. unfold TURN_DURATION; lia.
  - (* submitGuess *)
    destruct (connected sid s); [|exact HI].
    unfold on_submitGuess, acceptsGuess.
    destruct (get sid (players s)) as [p|]; [|exact HI].
    destruct (isRoundActive (gameState s)) eqn:Ha; [|exact HI].
    destruct (negb (Player.submitted p)); [|exact HI]. simpl.
    destruct (Inv_active s HI Ha) as (Hst & Hc & Ht & (_ & He & _ & Hp & _)).
    destruct (forallb _ _).
    + destruct (evaluateRound _) as [s2 o2] eqn:E2.
      change s2 with (fst (s2, o2)). rewrite <- E2.
      apply evaluateRound_Inv. unfold ready; simpl. auto.
    + simpl. eapply Inv_frame; [| | |exact HI]; reflexivity.
  - (* disconnect *)
    destruct (connected sid s); [|exact HI].
    unfold on_disconnect. destruct (get sid (players s)); [|exact HI].
    destruct (match hostId s with Some h => _ | None => _ end); simpl;
      (eapply Inv_frame; [| | |exact HI]; reflexivity).
  - (* tick *)
    destruct (timerInterval s) eqn:Hti; [|exact HI].
    destruct (Inv_timer s HI Hti) as (Hst & Hc & Ht & (Ha & He & _ & Hp & Htl)).
    unfold timerCallback.
    destruct (0 <? timeLeft (gameState s)) eqn:E0;
      [|apply Nat.ltb_ge in E0; lia].
    simpl.
    destruct (timeLeft (gameState s) - 1 <=? 0) eqn:E1.
    + rewrite He. simpl.
      destruct (evaluateRound _) as [s3 o3] eqn:E3.
      change s3 with (fst (s3, o3)). rewrite <- E3.
      apply evaluateRound_Inv. unfold ready; simpl. auto.
    + apply Nat.leb_gt in E1. simpl.
      unfold Inv, collecting; simpl. rewrite Hst.
      split; [assumption|]. split; [assumption|]. left.
      repeat split; auto.
  - (* oracleAnswer *)
    destruct (nth_error (pending s) k) as [gs|] eqn:Hk; [|exact HI].
    destruct (Inv_pending s gs k HI Hk)
      as (-> & Hp & Hst & Hc & Ht & (Ha & He & Hti & _)).
    apply evaluateRound_resume_Inv. unfold closing; simpl.
    rewrite Hp. simpl. repeat split; assumption || lia.
Qed.

Theorem reachable_Inv v s : reachable lc uc v s -> Inv s.
Proof.
  induction 1 as [|s e _ IH].
  - unfold Inv; simpl. auto.
  - apply step_Inv, IH.
Qed.

Lemma reachable_run v s evs :
  reachable lc uc v s -> reachable lc uc v (fst (run lc uc v s evs)).
Proof.
  revert s. induction evs as [|e evs IH]; intros s H; simpl; [exact H|].
  destruct (step lc uc v s e) as [s1 o1] eqn:E1.
  specialize (IH s1). destruct (run lc uc v s1 evs) as [s2 o2]. simpl in *.
  apply IH. change s1 with (fst (s1, o1)). rewrite <- E1.
  apply reachable_step, H.
Qed.

(** ** Joining *)

Lemma get_set_same k p ps :
  Player.id p = k -> get k (set k p ps) = Some p.
Proof.
  intros Hk. induction ps as [|q ps IH]; simpl.
  - rewrite Hk, String.eqb_refl. reflexivity.
  - destruct (String.eqb (Player.id q) k) eqn:E; simpl.
    + rewrite Hk, String.eqb_refl. reflexivity.
    + rewrite E. exact IH.
Qed.

(** C3, as the code has it: the connection handler turns a socket away
    exactly when a game is being played or fifty players are present.
    A join that arrives after the game has finished, with room left, is
    accepted: the player is created with score 0 and nothing submitted,
    and the new roster is broadcast. *)
Theorem join_rejected_iff_playing_or_full v sid name s :
  (on_connection uc v sid name s = (s, [socket_disconnect sid])
   <-> status (gameState s) = playing \/ 50 <= length (players s)) /\
  (status (gameState s) = finished -> length (players s) < 50 ->
   exists c,
     get sid (players (fst (on_connection uc v sid name s)))
     = Some (Player.mk sid name c 0%Z false None) /\
     exists h,
       snd (on_connection uc v sid name s)
       = [emit_lobbyState (players (fst (on_connection uc v sid name s))) h]).
Proof.
  clear lc. unfold on_connection. split.
  - destruct (Status_eqb (status (gameState s)) playing) eqn:Es;
      destruct (50 <=? length (players s)) eqn:El; simpl.
    + apply Status_eqb_eq in Es. tauto.
    + apply Status_eqb_eq in Es. tauto.
    + apply Nat.leb_le in El. tauto.
    + apply Nat.leb_gt in El. split.
      * intros H. injection H as _ H. discriminate.
      * intros [H | H]; [|lia].
        apply Status_eqb_eq in H. congruence.
  - intros Hs Hl. apply Nat.leb_gt in Hl. rewrite Hs, Hl. simpl.
    eexists. split.
    + simpl. apply get_set_same. reflexivity.
    + eexists. reflexivity.
Qed.

(** ** The end of a game *)

Lemma finished_step_part0 s e :
  Inv s -> status (gameState s) = finished ->
  gameState (fst (step lc uc OpenLobby s e)) = gameState s /\
  timerInterval (fst (step lc uc OpenLobby s e)) = timerInterval s /\
  pending (fst (step lc uc OpenLobby s e)) = pending s /\
  existsb is_timer (snd (step lc uc OpenLobby s e)) = false.
Proof.
  intros HI Hs. unfold Inv in HI. rewrite Hs in HI.
  destruct HI as (_ & Ha & _ & Hti & Hp).
  destruct e as [sid nm | sid draw | sid w | sid | | k a draw]; simpl.
  - destruct (io_use nm); [|simpl; auto].
    unfold on_connection. destruct (_ || _); simpl; auto.
  - destruct (connected sid s); simpl; auto.
    unfold on_startGame, mayStart. rewrite Hs. simpl. auto.
  - destruct (connected sid s); simpl; auto.
    unfold on_submitGuess, acceptsGuess.
    destruct (get sid (players s)); simpl; auto.
    rewrite Ha. simpl. auto.
  - destruct (connected sid s); simpl; auto.
    unfold on_disconnect. destruct (get sid (players s)); simpl; auto.
    destruct (match hostId s with Some h => _ | None => _ end); simpl; auto.
  - rewrite Hti. simpl. auto.
  - rewrite Hp. destruct k; simpl; auto.
Qed.

Lemma finished_run_part0 evs : forall s,
  Inv s -> status (gameState s) = finished ->
  gameState (fst (run lc uc OpenLobby s evs)) = gameState s /\
  timerInterval (fst (run lc uc OpenLobby s evs)) = timerInterval s /\
  existsb is_timer (snd (run lc uc OpenLobby s evs)) = false.
Proof.
  induction evs as [|e evs IH]; intros s HI Hs; simpl; [auto|].
  pose proof (finished_step_part0 s e HI Hs) as (Hg & Hti & Hp & Ho).
  pose proof (step_Inv OpenLobby s e HI) as HI1.
  destruct (step lc uc OpenLobby s e) as [s1 o1]; simpl in *.
  assert (Hs1 : status (gameState s1) = finished) by (rewrite Hg; exact Hs).
  specialize (IH s1 HI1 Hs1). destruct IH as (Hg2 & Hti2 & Ho2).
  destruct (run lc uc OpenLobby s1 evs) as [s2 o2]; simpl in *.
  rewrite Hg2, Hti2, existsb_app, Ho, Ho2. auto.
Qed.

(** C4, as the code has it.  In [src/unnamed/part_000] the start
    command is taken from the lobby only, and a finished game stays
    finished whatever arrives: the session record is never touched
    again and no timer is armed.  In [src/index.js] the command is taken
    whenever no game is being played, so the host of a finished game
    starts a new one: scores are cleared, the chain is reseeded, the
    turn is 1 and the timer is armed. *)
Theorem finished_terminal_without_host_restart :
  (forall s evs,
      reachable lc uc OpenLobby s -> status (gameState s) = finished ->
      gameState (fst (run lc uc OpenLobby s evs)) = gameState s /\
      timerInterval (fst (run lc uc OpenLobby s evs)) = false /\
      existsb is_timer (snd (run lc uc OpenLobby s evs)) = false) /\
  (forall s sid draw,
      reachable lc uc HostGated s -> status (gameState s) = finished ->
      hostId s = Some sid -> connected sid s = true ->
      let s' := fst (step lc uc HostGated s (startGame sid draw)) in
      status (gameState s') = playing /\ turn (gameState s') = 1 /\
      length (chain (gameState s')) = 1 /\ timerInterval s' = true /\
      Forall (fun p => Player.score p = 0%Z) (players s')).
Proof.
  split.
  - intros s evs Hr Hs. pose proof (reachable_Inv _ _ Hr) as HI.
    destruct (finished_run_part0 evs s HI Hs) as (Hg & Hti & Ho).
    repeat split; try assumption.
    rewrite Hti. unfold Inv in HI. rewrite Hs in HI. tauto.
  - intros s sid draw _ Hs Hh Hc. simpl. rewrite Hc.
    unfold on_startGame, mayStart. rewrite Hh, Hs, String.eqb_refl. simpl.
    repeat split.
    apply Forall_forall. intros p Hp. apply in_map_iff in Hp.
    destruct Hp as (q & <- & _). reflexivity.
Qed.

(** ** Submissions *)

Lemma get_In k ps p : get k ps = Some p -> In p ps /\ Player.id p = k.
Proof.
induction ps as [|q ps IH]; simpl; [discriminate|].
destruct (String.eqb (Player.id q) k) eqn:E.
- intros H. injection H as ->. apply String.eqb_eq in E. auto.
- intros H. destruct (IH H). auto.
Qed.

Lemma get_modify_same k f ps p :
(forall q, Player.id (f q) = Player.id q) ->
get k ps = Some p -> get k (modify k f ps) = Some (f p).
Proof.
intros Hf. induction ps as [|q ps IH]; simpl; [discriminate|].
destruct (String.eqb (Player.id q) k) eqn:E.
- intros H. injection H as ->. rewrite Hf, E. reflexivity.
- intros H. rewrite E. exact (IH H).
Qed.

Lemma snapshot_nonempty ps p :
In p ps -> Player.submitted p = true -> snapshot ps <> [].
Proof.
intros Hin Hs Hn. unfold snapshot in Hn. apply map_eq_nil in Hn.
assert (Hf : In p (filter Player.submitted ps)) by (apply filter_In; auto).
rewrite Hn in Hf. exact Hf.
Qed.

Lemma evaluateRound_players s :
snapshot (players s) <> [] -> players (fst (evaluateRound s)) = players s.
Proof.
intros Hn. unfold evaluateRound.
destruct (isEvaluating (gameState s)); [reflexivity|]. simpl.
destruct (lastNode (chain (gameState s))); [|reflexivity].
destruct (snapshot (players s)); [congruence | reflexivity].
Qed.

(** C7.  A [submitGuess] event records the word (sets [lastGuess] and
    [submitted] of the sender and nothing else of it) when the game is
    being played, the round is active, no evaluation is under way, the
    sender is in the roster and has not submitted in this turn; in every
    other case the event changes nothing and emits nothing, so a second
    submission never replaces the first. *)
Theorem submission_recorded_iff_accepting v s sid word :
reachable lc uc v s ->
let accepting :=
  status (gameState s) = playing /\ isRoundActive (gameState s) = true /\
  isEvaluating (gameState s) = false /\
  exists p, get sid (players s) = Some p /\ Player.submitted p = false in
let r := step lc uc v s (submitGuess sid word) in
(accepting ->
 exists p, get sid (players s) = Some p /\
   get sid (players (fst r)) =
   Some (Player.mk sid (Player.name p) (Player.color p) (Player.score p)
                   true word)) /\
(~ accepting -> r = (s, [])) /\
(forall p, get sid (players s) = Some p -> Player.submitted p = true ->
           r = (s, [])).
Proof.
intros Hr accepting r. pose proof (reachable_Inv _ _ Hr) as HI.
assert (Hrej : acceptsGuess sid s = false -> r = (s, [])).
{ intros Hacc. subst r. simpl. destruct (connected sid s); [|reflexivity].
  unfold on_submitGuess. rewrite Hacc. reflexivity. }
assert (Hno : acceptsGuess sid s = false -> ~ accepting).
{ unfold acceptsGuess. intros Hacc (_ & Ha & _ & p & Hg & Hs).
  rewrite Hg, Ha, Hs in Hacc. discriminate. }
destruct (acceptsGuess sid s) eqn:Hacc.
- unfold acceptsGuess in Hacc.
  destruct (get sid (players s)) as [p|] eqn:Hg; [|discriminate].
  apply andb_true_iff in Hacc. destruct Hacc as [Ha Hs].
  apply negb_true_iff in Hs.
  assert (Hrec : exists q, get sid (players s) = Some q /\
             get sid (players (fst r)) =
             Some (Player.mk sid (Player.name q) (Player.color q)
                             (Player.score q) true word)).
  { exists p. split; [exact Hg|]. subst r. simpl.
    assert (Hc : connected sid s = true) by (unfold connected; rewrite Hg; reflexivity).
    rewrite Hc. unfold on_submitGuess, acceptsGuess. rewrite Hg, Ha, Hs. simpl.
    pose proof (get_modify_same sid (Player.with_submission true word)
                  (players s) p (fun q => eq_refl) Hg) as Hm.
    destruct (get_In _ _ _ Hg) as [_ Hid].
    assert (Hm' : get sid (players (recordGuess sid word s)) =
                  Some (Player.mk sid (Player.name p) (Player.color p)
                                  (Player.score p) true word)).
    { unfold recordGuess; simpl. rewrite Hm. unfold Player.with_submission.
      rewrite Hid. reflexivity. }
    destruct (forallb _ _).
    - destruct (evaluateRound (recordGuess sid word s)) as [s2 o2] eqn:E2.
      simpl. replace s2 with (fst (evaluateRound (recordGuess sid word s)))
        by (rewrite E2; reflexivity).
      rewrite evaluateRound_players; [exact Hm'|].
      destruct (get_In _ _ _ Hm') as [Hin _].
      exact (snapshot_nonempty _ _ Hin eq_refl).
    - exact Hm'. }
  split.
  { intros _. destruct Hrec as (q & Hq & Hq2). exists q.
    split; [rewrite <- Hg; exact Hq | exact Hq2]. }
  split.
  + intros Hn. exfalso. apply Hn.
    destruct (Inv_active s HI Ha) as (Hst & _ & _ & (_ & He & _)).
    unfold accepting. repeat split; try assumption. eauto.
  + intros q Hq Hsq. congruence.
- split; [intros H; exfalso; exact (Hno eq_refl H)|].
  split; [intros _; exact (Hrej eq_refl)|].
  intros _ _ _. exact (Hrej eq_refl).
Qed.

(** ** A failing scoring request *)

Lemma tryBlock_throws guesses a draw s :
answerThrows lc a guesses -> tryBlock lc guesses a draw s = (s, None).
Proof.
unfold answerThrows, tryBlock. destruct a as [|rs]; [reflexivity|].
intros ->. reflexivity.
Qed.

Lemma assignScore_length rw sc gs gs' :
assignScore lc rw sc gs = Some gs' -> length gs' = length gs.
Proof.
revert gs'. induction gs as [|g gs IH]; simpl; intros gs' H.
- injection H as <-. reflexivity.
- destruct (Guess.word g); [|discriminate].
  destruct (String.eqb _ _).
  + injection H as <-. reflexivity.
  + destruct (assignScore lc rw sc gs) as [l|]; [|discriminate].
    injection H as <-. simpl. rewrite (IH l eq_refl). reflexivity.
Qed.

Lemma applyResult_length r gs gs' :
applyResult lc r gs = Some gs' -> length gs' = length gs.
Proof.
unfold applyResult. destruct gs as [|g gs].
- intros H. injection H as <-. reflexivity.
- destruct (Result.word r); [|discriminate]. apply assignScore_length.
Qed.

(** An entry of the answer without a word makes [toLowerCase] throw. *)
Lemma assignScores_missing_word rs : forall gs r,
gs <> [] -> In r rs -> Result.word r = None -> assignScores lc rs gs = None.
Proof.
induction rs as [|r0 rs IH]; intros gs r Hgs Hin Hw; [destruct Hin|].
simpl. destruct (applyResult lc r0 gs) as [gs'|] eqn:E; [|reflexivity].
destruct Hin as [-> | Hin].
- unfold applyResult in E. destruct gs; [congruence|].
  rewrite Hw in E. discriminate.
- apply (IH gs' r); try assumption.
  apply applyResult_length in E. destruct gs'; [|discriminate].
  destruct gs; [congruence | discriminate].
Qed.

(** C2, as the code has it.  When the scoring request fails or its answer
    cannot be read, the error is caught inside [evaluateRound]: it is
    logged, one round result carrying the error notice is broadcast, and
    the turn is skipped.  Nobody receives points, the chain is left as it
    was, and the game moves to the next turn, or ends if this was the
    last one. *)
Theorem oracle_failure_skips_turn v s guesses a draw :
reachable lc uc v s -> pending s = [guesses] -> answerThrows lc a guesses ->
let r := step lc uc v s (oracleAnswer 0 a draw) in
chain (gameState (fst r)) = chain (gameState s) /\
map Player.score (players (fst r)) = map Player.score (players s) /\
map Player.id (players (fst r)) = map Player.id (players s) /\
pending (fst r) = [] /\
count is_roundResult (snd r) = 1 /\
In (emit_roundResult OracleError) (snd r) /\ In console_error (snd r) /\
((turn (gameState s) < MAX_TURNS /\
  status (gameState (fst r)) = playing /\
  turn (gameState (fst r)) = S (turn (gameState s)) /\
  isRoundActive (gameState (fst r)) = true /\
  isEvaluating (gameState (fst r)) = false /\
  timerInterval (fst r) = true) \/
 (turn (gameState s) = MAX_TURNS /\ status (gameState (fst r)) = finished)).
Proof.
intros Hr Hp Hthrow r. pose proof (reachable_Inv _ _ Hr) as HI.
assert (Hk : nth_error (pending s) 0 = Some guesses) by (rewrite Hp; reflexivity).
destruct (Inv_pending s guesses 0 HI Hk) as (_ & _ & Hst & _ & Ht & _).
subst r. unfold step. rewrite Hp. simpl.
unfold evaluateRound_resume. rewrite (tryBlock_throws _ _ _ _ Hthrow).
destruct (Nat.le_gt_cases MAX_TURNS (turn (gameState s))) as [E | E].
- rewrite startNextTurn_last by exact E. simpl.
  repeat split; auto. right. split; [lia | reflexivity].
- rewrite startNextTurn_next by exact E. simpl. rewrite !map_map. simpl.
  repeat split; auto. left. repeat split; auto.
Qed.

(** ** One evaluation per turn *)

(** The tail of [evaluateRound] ends the turn. *)
Lemma evaluateRound_resume_effects guesses a draw s :
closing s ->
let r := evaluateRound_resume lc guesses a draw s in
stepTurnEnd s (fst r) (snd r).
Proof.
intros (Hst & Hc & Ht & Ha & He & Hti & Hp) r. subst r.
unfold evaluateRound_resume.
pose proof (tryBlock_frame guesses a draw s) as (_ & _ & Hp1 & Hg).
destruct (tryBlock lc guesses a draw s) as [s1 m]. simpl in *.
assert (Hsame : turn (gameState s1) = turn (gameState s) /\
                status (gameState s1) = status (gameState s) /\
                (chain (gameState s1) = chain (gameState s) \/
                 exists node, chain (gameState s1) = chain (gameState s) ++ [node])).
{ destruct m as [m|].
  - destruct Hg as [node ->]. simpl. repeat split. right. eauto.
  - rewrite Hg. auto. }
destruct Hsame as (Ht1 & Hst1 & Hch).
assert (Hle : turn (gameState s1) <= MAX_TURNS) by lia.
pose proof (startNextTurn_effects s1 Hle) as (C1 & C2 & _ & P & Ch & T).
destruct (startNextTurn s1) as [s2 o2]. simpl in *.
unfold stepTurnEnd. simpl. rewrite !count_app, C1, C2, P, Hp1, Hp, Ch.
repeat split; auto.
- destruct m; reflexivity.
- destruct m; reflexivity.
- rewrite <- Ht1.
  destruct T as [(T1 & T2 & T3 & T4) | (T1 & T2 & T3)]; [left | right];
    repeat split; auto; congruence.
- destruct m as [m|]; [|discriminate]. intros _.
  destruct Hg as [node Hg]. exists node. rewrite Hg. reflexivity.
Qed.

Lemma stepIdle_frame s s' out :
gameState s' = gameState s -> pending s' = pending s ->
count is_roundResult out = 0 -> count is_request out = 0 ->
stepIdle s s' out.
Proof.
intros Hg Hp C1 C2. unfold stepIdle. rewrite Hg. auto 10.
Qed.

(** Every step is of one of the three kinds. *)
Lemma step_kinds v s e :
Inv s ->
let r := step lc uc v s e in
stepIdle s (fst r) (snd r) \/ stepRequest s (fst r) (snd r) \/
stepTurnEnd s (fst r) (snd r).
Proof.
intros HI r. subst r.
assert (Hsame : stepIdle s s []) by (apply stepIdle_frame; reflexivity).
destruct e as [sid nm | sid draw | sid w | sid | | k a draw]; simpl.
- (* connection *)
  left. destruct (io_use nm); [|apply stepIdle_frame; reflexivity].
  unfold on_connection.
  destruct (_ || _); [apply stepIdle_frame; reflexivity|].
  destruct v; [destruct (_ && _)|]; apply stepIdle_frame; reflexivity.
- (* startGame *)
  left. destruct (connected sid s); [|exact Hsame].
  unfold on_startGame. destruct (mayStart v sid s) eqn:Hm; [|exact Hsame].
  apply mayStart_not_playing in Hm.
  unfold stepIdle. simpl. repeat split. right. repeat split. exact Hm.
- (* submitGuess *)
  destruct (connected sid s); [|left; exact Hsame].
  unfold on_submitGuess. destruct (acceptsGuess sid s) eqn:Hacc; [|left; exact Hsame].
  unfold acceptsGuess in Hacc.
  destruct (get sid (players s)) as [p|]; [|discriminate].
  apply andb_true_iff in Hacc. destruct Hacc as [Ha _].
  destruct (Inv_active s HI Ha) as (Hst & Hc & Ht & (_ & He & _ & Hp & _)).
  destruct (forallb _ _); [|left; apply stepIdle_frame; reflexivity].
  assert (Hready : ready (recordGuess sid w s))
    by (unfold ready; simpl; auto).
  pose proof (evaluateRound_open _ Hready) as H.
  destruct (evaluateRound (recordGuess sid w s)) as [s2 o2]. simpl in *.
  right.
  destruct H as [H | (_ & H & _)]; [left | right].
  + unfold stepRequest in *. rewrite !count_cons_false by reflexivity.
    simpl in H. exact H.
  + unfold stepTurnEnd in *. rewrite !count_cons_false by reflexivity.
    simpl in H. exact H.
- (* disconnect *)
  left. destruct (connected sid s); [|exact Hsame].
  unfold on_disconnect. destruct (get sid (players s)); [|exact Hsame].
  destruct (match hostId s with Some h => _ | None => _ end);
    apply stepIdle_frame; reflexivity.
- (* tick *)
  destruct (timerInterval s) eqn:Hti; [|left; exact Hsame].
  destruct (Inv_timer s HI Hti) as (Hst & Hc & Ht & (Ha & He & _ & Hp & Htl)).
  unfold timerCallback.
  destruct (0 <? timeLeft (gameState s)) eqn:E0;
    [|apply Nat.ltb_ge in E0; lia].
  simpl.
  destruct (timeLeft (gameState s) - 1 <=? 0) eqn:E1.
  + rewrite He. simpl.
    match goal with |- context [evaluateRound ?x] => set (s2 := x) end.
    assert (Hready : ready s2) by (unfold ready; simpl; auto).
    pose proof (evaluateRound_open _ Hready) as H.
    destruct (evaluateRound s2) as [s3 o3]. simpl in *.
    right.
    destruct H as [H | (_ & H & _)]; [left | right].
    * unfold stepRequest in *. rewrite !count_cons_false by reflexivity.
      subst s2. simpl in H. exact H.
    * unfold stepTurnEnd in *. rewrite !count_cons_false by reflexivity.
      subst s2. simpl in H. exact H.
  + left. unfold stepIdle. simpl. auto 10.
- (* oracleAnswer *)
  destruct (nth_error (pending s) k) as [gs|] eqn:Hk; [|left; exact Hsame].
  destruct (Inv_pending s gs k HI Hk)
    as (-> & Hp & Hst & Hc & Ht & (Ha & He & Hti & _)).
  right. right. rewrite Hp. simpl.
  assert (Hcl : closing (set_pending [] s))
    by (unfold closing; simpl; repeat split; assumption || lia).
  exact (evaluateRound_resume_effects gs a draw _ Hcl).
Qed.

(** While an evaluation waits for its answer nothing else touches the
    round: every other event leaves the session record, the timer and the
    waiting call as they are, and sends neither a result nor a request. *)
Lemma step_in_flight v s e :
Inv s -> pending s <> [] ->
(forall k a draw, e <> oracleAnswer k a draw) ->
let r := step lc uc v s e in
gameState (fst r) = gameState s /\ pending (fst r) = pending s /\
timerInterval (fst r) = timerInterval s /\
count is_roundResult (snd r) = 0 /\ count is_request (snd r) = 0.
Proof.
intros HI Hp He r. subst r.
assert (Hsc : status (gameState s) = playing /\ scoring s).
{ destruct (pending s) as [|gs l] eqn:E; [congruence|].
  assert (Hk : nth_error (pending s) 0 = Some gs) by (rewrite E; reflexivity).
  destruct (Inv_pending s gs 0 HI Hk) as (_ & _ & Hst & _ & _ & Hsc). auto. }
destruct Hsc as (Hst & Ha & Hev & Hti & _).
destruct e as [sid nm | sid draw | sid w | sid | | k a draw]; simpl.
- destruct (io_use nm); [|auto].
  unfold on_connection. rewrite Hst. simpl. auto.
- destruct (connected sid s); [|auto].
  unfold on_startGame.
  destruct (mayStart v sid s) eqn:Hm; [|auto].
  apply mayStart_not_playing in Hm. congruence.
- destruct (connected sid s); [|auto].
  unfold on_submitGuess, acceptsGuess.
  destruct (get sid (players s)); [|auto]. rewrite Ha. simpl. auto.
- destruct (connected sid s); [|auto].
  unfold on_disconnect. destruct (get sid (players s)); [|auto].
  destruct (match hostId s with Some h => _ | None => _ end); simpl; auto.
- rewrite Hti. auto.
- exfalso. exact (He k a draw eq_refl).
Qed.

Lemma run_cons v s e evs :
run lc uc v s (e :: evs)
= (fst (run lc uc v (fst (step lc uc v s e)) evs),
   snd (step lc uc v s e) ++ snd (run lc uc v (fst (step lc uc v s e)) evs)).
Proof.
simpl. destruct (step lc uc v s e) as [s1 o1]. simpl.
destruct (run lc uc v s1 evs) as [s2 o2]. reflexivity.
Qed.

Lemma Inv_pending_length s : Inv s -> length (pending s) <= 1.
Proof.
unfold Inv, collecting, scoring. destruct (status (gameState s)).
- intros (_ & _ & _ & ->). simpl. lia.
- intros (_ & _ & [(_ & _ & _ & -> & _) | (_ & _ & _ & gs & ->)]); simpl; lia.
- intros (_ & _ & _ & _ & ->). simpl. lia.
Qed.

(** Within a turn: as long as the states of a run stay in the turn it
    started in, no round result is broadcast, the chain is untouched, and
    every request sent leaves one more evaluation waiting. *)
Lemma within_turn v evs : forall s,
Inv s -> status (gameState s) = playing ->
Forall (sameTurn s) (trace lc uc v s evs) ->
let r := run lc uc v s evs in
Inv (fst r) /\ sameTurn s (fst r) /\
chain (gameState (fst r)) = chain (gameState s) /\
count is_roundResult (snd r) = 0 /\
count is_request (snd r) + length (pending s) = length (pending (fst r)).
Proof.
induction evs as [|e evs IH]; intros s HI Hst Hall r; subst r.
- simpl. unfold sameTurn. auto.
- rewrite run_cons. cbn [fst snd]. cbn [trace] in Hall.
  inversion Hall as [|? ? [Hs1 Ht1] Hrest]; subst.
  set (s1 := fst (step lc uc v s e)) in *.
  assert (HI1 : Inv s1) by (apply step_Inv; exact HI).
  assert (Hrest1 : Forall (sameTurn s1) (trace lc uc v s1 evs)).
  { eapply Forall_impl; [|exact Hrest]. unfold sameTurn.
    intros x [Hx1 Hx2]. split; [exact Hx1 | congruence]. }
  destruct (IH s1 HI1 Hs1 Hrest1) as (J1 & [J2 J2'] & J3 & J4 & J5).
  rewrite !count_app, J4.
  split; [exact J1|]. split; [split; [exact J2 | congruence]|].
  pose proof (step_kinds v s e HI) as H. fold s1 in H. cbn beta zeta in H.
  destruct H as [H | [H | H]].
  + destruct H as (C1 & C2 & Hp & [(Hc & _) | (Hn & _)]); [|congruence].
    fold s1 in Hp, Hc. rewrite C1, C2, J3, Hc, <- J5, Hp. auto.
  + destruct H as (C1 & C2 & _ & _ & _ & Hp & Hp' & _ & Hc & _).
    fold s1 in Hp', Hc. rewrite C1, C2, J3, Hc, <- J5, Hp, Hp'. simpl.
    split; [reflexivity|]. split; [reflexivity | lia].
  + destruct H as (_ & _ & _ & _ & _ & [(_ & _ & Ht & _) | (_ & Hf & _)] & _).
    * fold s1 in Ht. lia.
    * fold s1 in Hf. congruence.
Qed.

Lemma invokeEvaluate_closed n : forall s,
isEvaluating (gameState s) = true -> invokeEvaluate n s = (s, []).
Proof.
induction n as [|n IH]; intros s He; simpl; [reflexivity|].
unfold evaluateRound at 1. rewrite He. rewrite (IH s He). reflexivity.
Qed.

(** C1, as the code has it.  An invocation of [evaluateRound] that finds
    [isEvaluating] set returns at once and changes nothing, so of any
    number of invocations within a turn only the first passes the guard.
    Per step of the server there is at most one round result; the chain
    changes only by one appended node, and then a round result is
    broadcast in the same step (or by a new game being started); and a
    step broadcasts a round result exactly when it ends the turn.  While
    the evaluation waits for its answer no other event moves the round.
    Over a turn, from any of its states to the step that leaves it, no
    round result is broadcast before that step and exactly one with it,
    and the chain gains at most one node: none when the round is
    skipped. *)
Theorem evaluation_single_flight v :
(forall s, isEvaluating (gameState s) = true -> evaluateRound s = (s, [])) /\
(forall s n, ready s -> snapshot (players s) <> [] ->
   invokeEvaluate (S n) s = evaluateRound s /\
   count is_request (snd (invokeEvaluate (S n) s)) = 1) /\
(forall s e, reachable lc uc v s ->
   let r := step lc uc v s e in
   count is_roundResult (snd r) <= 1 /\
   (chain (gameState (fst r)) = chain (gameState s) \/
    (count is_roundResult (snd r) = 1 /\
     exists node, chain (gameState (fst r)) = chain (gameState s) ++ [node]) \/
    (status (gameState s) <> playing /\ length (chain (gameState (fst r))) = 1)) /\
   (count is_roundResult (snd r) = 1 ->
    status (gameState s) = playing /\ pending (fst r) = [] /\
    ((status (gameState (fst r)) = playing /\
      turn (gameState (fst r)) = S (turn (gameState s))) \/
     status (gameState (fst r)) = finished)) /\
   (status (gameState s) = playing -> ~ sameTurn s (fst r) ->
    count is_roundResult (snd r) = 1)) /\
(forall s e, reachable lc uc v s -> pending s <> [] ->
   (forall k a draw, e <> oracleAnswer k a draw) ->
   let r := step lc uc v s e in
   gameState (fst r) = gameState s /\ pending (fst r) = pending s /\
   count is_roundResult (snd r) = 0 /\ count is_request (snd r) = 0) /\
(forall s evs e, reachable lc uc v s -> status (gameState s) = playing ->
   Forall (sameTurn s) (trace lc uc v s evs) ->
   let r1 := run lc uc v s evs in
   let r2 := step lc uc v (fst r1) e in
   count is_roundResult (snd r1) = 0 /\
   (~ sameTurn s (fst r2) ->
    count is_roundResult (snd r1 ++ snd r2) = 1 /\
    (chain (gameState (fst r2)) = chain (gameState s) \/
     exists node, chain (gameState (fst r2)) = chain (gameState s) ++ [node]))).
Proof.
split; [|split; [|split; [|split]]].
- intros s He. unfold evaluateRound. rewrite He. reflexivity.
- intros s n Hready Hsnap.
  pose proof (evaluateRound_open s Hready) as H.
  simpl. destruct (evaluateRound s) as [s1 o1]. simpl in H.
  destruct H as [H | (H & _)]; [|congruence].
  destruct H as (_ & C & _ & _ & He & _).
  rewrite (invokeEvaluate_closed n s1 He). rewrite app_nil_r. auto.
- intros s e Hr r. pose proof (reachable_Inv _ _ Hr) as HI.
  pose proof (step_kinds v s e HI) as H. fold r in H.
  destruct H as [H | [H | H]].
  + destruct H as (C1 & _ & _ & [(Hc & Ht & Hs & _) | (Hs & _ & _ & Hl)]);
      rewrite C1; (split; [lia|]); (split; [auto|]);
      (split; [discriminate|]); intros Hpl Hn; exfalso.
    * apply Hn. unfold sameTurn. split; congruence.
    * congruence.
  + destruct H as (C1 & _ & _ & _ & _ & _ & _ & _ & Hc & Ht & Hs).
    rewrite C1. split; [lia|]. split; [auto|]. split; [discriminate|].
    intros Hpl Hn. exfalso. apply Hn. unfold sameTurn. split; congruence.
  + destruct H as (C1 & _ & Hs & Hp & Hc & Ht & _).
    rewrite C1. split; [lia|]. split; [|split].
    * destruct Hc as [Hc | Hc]; auto.
    * intros _. split; [exact Hs|]. split; [exact Hp|].
      destruct Ht as [(_ & T1 & T2 & _) | (_ & T1 & _)]; auto.
    * reflexivity.
- intros s e Hr Hp He r. pose proof (reachable_Inv _ _ Hr) as HI.
  destruct (step_in_flight v s e HI Hp He) as (A & B & _ & C & D).
  subst r. auto.
- intros s evs e Hr Hst Hall r1 r2. pose proof (reachable_Inv _ _ Hr) as HI.
  destruct (within_turn v evs s HI Hst Hall) as (J1 & [J2 J2'] & J3 & J4 & _).
  fold r1 in J1, J2, J2', J3, J4.
  split; [exact J4|]. intros Hn. rewrite count_app, J4.
  pose proof (step_kinds v (fst r1) e J1) as H. fold r2 in H. cbn beta zeta in H.
  destruct H as [H | [H | H]].
  + exfalso. destruct H as (_ & _ & _ & [(_ & Ht & Hs & _) | (Hs & _)]).
    * apply Hn. unfold sameTurn. split; congruence.
    * congruence.
  + exfalso. destruct H as (_ & _ & _ & _ & _ & _ & _ & _ & _ & Ht & Hs).
    apply Hn. unfold sameTurn. split; congruence.
  + destruct H as (C1 & _ & _ & _ & Hc & _).
    rewrite C1. split; [reflexivity|]. rewrite <- J3. exact Hc.
Qed.

(** ** The scoring request and its answer *)

Lemma Forall2_compose {A : Type} (R1 R2 R3 : A -> A -> Prop) :
(forall a b c, R1 a b -> R2 b c -> R3 a c) ->
forall l1 l2 l3, Forall2 R1 l1 l2 -> Forall2 R2 l2 l3 -> Forall2 R3 l1 l3.
Proof.
intros HR l1 l2 l3 H12. revert l3.
induction H12 as [|a b l1 l2 Hab _ IH]; intros l3 H23; inversion H23; subst.
- constructor.
- constructor; [eapply HR; eassumption | apply IH; assumption].
Qed.

Lemma Forall2_same {A : Type} (R : A -> A -> Prop) (l : list A) :
(forall a, R a a) -> Forall2 R l l.
Proof. intros HR. induction l; constructor; auto. Qed.

(** One entry of the answer gives its score to the first guess whose word
    it names, letter case apart, and to no other. *)
Lemma assignScore_first_match rw sc gs gs' :
assignScore lc rw sc gs = Some gs' ->
(exists pre g post w,
    gs = pre ++ g :: post /\ Guess.word g = Some w /\ lc w = lc rw /\
    (forall h wh, In h pre -> Guess.word h = Some wh -> lc wh <> lc rw) /\
    gs' = pre ++ Guess.with_score sc g :: post) \/
(gs' = gs /\ forall h wh, In h gs -> Guess.word h = Some wh -> lc wh <> lc rw).
Proof.
revert gs'. induction gs as [|g gs IH]; simpl; intros gs' H.
- injection H as <-. right. split; [reflexivity|]. intros h wh [].
- destruct (Guess.word g) as [w|] eqn:Ew; [|discriminate].
  destruct (String.eqb (lc w) (lc rw)) eqn:E.
  + injection H as <-. apply String.eqb_eq in E. left.
    exists [], g, gs, w. repeat split; auto; intros h wh [].
  + apply String.eqb_neq in E.
    destruct (assignScore lc rw sc gs) as [l|]; [|discriminate].
    injection H as <-.
    destruct (IH l eq_refl) as [(pre & g0 & post & w0 & -> & Hw & Hm & Hpre & ->)
                               | (-> & Hall)].
    * left. exists (g :: pre), g0, post, w0. repeat split; auto.
      intros h wh [<- | Hin] Hh; [congruence | eauto].
    * right. split; [reflexivity|].
      intros h wh [<- | Hin] Hh; [congruence | eauto].
Qed.

Lemma assignScore_keeps rw sc gs gs' :
assignScore lc rw sc gs = Some gs' ->
Forall2 (fun g g' =>
           sameGuess g g' /\
           ((forall w, Guess.word g = Some w -> lc w <> lc rw) ->
            Guess.score g' = Guess.score g)) gs gs'.
Proof.
revert gs'. induction gs as [|g gs IH]; simpl; intros gs' H.
- injection H as <-. constructor.
- destruct (Guess.word g) as [w|] eqn:Ew; [|discriminate].
  destruct (String.eqb (lc w) (lc rw)) eqn:E.
  + injection H as <-. apply String.eqb_eq in E. constructor.
    * split; [split; reflexivity|]. intros Hn. exfalso. exact (Hn w Ew E).
    * apply Forall2_same. intros a. split; [split; reflexivity | reflexivity].
  + destruct (assignScore lc rw sc gs) as [l|]; [|discriminate].
    injection H as <-. constructor; [|apply IH; reflexivity].
    split; [split; reflexivity | reflexivity].
Qed.

Lemma assignScores_keeps rs : forall gs scored,
assignScores lc rs gs = Some scored ->
Forall2 (fun g g' =>
           sameGuess g g' /\ (unmatched lc rs g -> Guess.score g' = Guess.score g))
        gs scored.
Proof.
induction rs as [|r rs IH]; simpl; intros gs scored H.
- injection H as <-. apply Forall2_same.
  intros a. split; [split; reflexivity | reflexivity].
- destruct (applyResult lc r gs) as [gs1|] eqn:E1; [|discriminate].
  specialize (IH gs1 scored H).
  assert (H1 : Forall2 (fun g g' =>
                 sameGuess g g' /\
                 (unmatched lc [r] g -> Guess.score g' = Guess.score g)) gs gs1).
  { unfold applyResult in E1. destruct gs as [|g0 gs0].
    - injection E1 as <-. constructor.
    - destruct (Result.word r) as [rw|] eqn:Ew; [|discriminate].
      apply assignScore_keeps in E1.
      eapply Forall2_impl; [|exact E1].
      intros a b (Hs & Hk). split; [exact Hs|].
      intros Hu. apply Hk. intros w Hw. apply (Hu r rw w); simpl; auto. }
  eapply Forall2_compose; [|exact H1|exact IH].
  intros a b c ((Hi1 & Hw1) & Hk1) ((Hi2 & Hw2) & Hk2).
  split; [split; congruence|].
  intros Hu. rewrite Hk2, Hk1; [reflexivity| |].
  + intros r0 rw w [E | []] Hr Hw. subst r0. apply (Hu r rw w); simpl; auto.
  + intros r0 rw w Hin Hr Hw. apply (Hu r0 rw w); simpl; auto. congruence.
Qed.

(** Words that are all present never make the matching throw. *)
Lemma assignScore_total rw sc gs :
Forall (fun g => Guess.word g <> None) gs ->
exists gs', assignScore lc rw sc gs = Some gs' /\
            Forall (fun g => Guess.word g <> None) gs'.
Proof.
induction 1 as [|g gs Hg Hgs IH]; simpl.
- eexists; split; [reflexivity | constructor].
- destruct (Guess.word g) as [w|] eqn:Ew; [|congruence].
  destruct (String.eqb (lc w) (lc rw)).
  + eexists; split; [reflexivity|]. constructor; [simpl; congruence|].
    assumption.
  + destruct IH as (gs' & -> & Hf). simpl. eexists; split; [reflexivity|].
    constructor; [congruence | exact Hf].
Qed.

Lemma assignScores_total rs : forall gs,
Forall (fun r => Result.word r <> None) rs ->
Forall (fun g => Guess.word g <> None) gs ->
exists scored, assignScores lc rs gs = Some scored.
Proof.
induction rs as [|r rs IH]; intros gs Hr Hg; simpl; [eauto|].
inversion Hr as [|? ? Hr1 Hr2]; subst.
assert (H1 : exists gs1, applyResult lc r gs = Some gs1 /\
                         Forall (fun g => Guess.word g <> None) gs1).
{ unfold applyResult. destruct gs as [|g0 gs0]; [eauto|].
  destruct (Result.word r) as [rw|]; [|congruence].
  apply assignScore_total. exact Hg. }
destruct H1 as (gs1 & -> & Hg1). apply IH; assumption.
Qed.

Lemma evaluateRound_request s :
ready s -> snapshot (players s) <> [] ->
exists last,
  lastNode (chain (gameState s)) = Some last /\
  snd (evaluateRound s) =
  [emit_gameState (gs_set_flags false true (gameState s)) None;
   openai_create (Node.word last)
                 (map Player.lastGuess (filter Player.submitted (players s)))].
Proof.
intros (Hst & Hc & Ht & He & Hp) Hsnap.
destruct (lastNode_nonempty _ Hc) as [n Hn]. exists n. split; [exact Hn|].
unfold evaluateRound. rewrite He. simpl. rewrite Hn.
assert (Hw : map Guess.word (snapshot (players s)) =
             map Player.lastGuess (filter Player.submitted (players s)))
  by (unfold snapshot; rewrite map_map; reflexivity).
destruct (snapshot (players s)) as [|g gs] eqn:Eg; [congruence|].
rewrite <- Hw. reflexivity.
Qed.

(** C9, as the code has it.  The request of a round names the word of the
    last node of the chain as target and, as candidates, the words of all
    players that have submitted, in roster order, a word submitted twice
    appearing twice.  A step sends at most one request; it does so only
    when no evaluation is waiting, and leaves one waiting in the same
    turn; while one waits no request is sent.  Over the states of one
    turn, whatever events arrive, at most one request is sent, and none
    when an evaluation was already waiting: one request per round at
    most.  An entry of the answer gives its score to the first submission
    whose word it names, letter case apart.  A submission that no entry
    names keeps no score, which counts as 0 and below the threshold, and
    words that are all present never make the matching fail. *)
Theorem scoring_request_and_matching v :
(forall s, ready s -> snapshot (players s) <> [] ->
   exists last,
     lastNode (chain (gameState s)) = Some last /\
     filter is_request (snd (evaluateRound s)) =
     [openai_create (Node.word last)
                    (map Player.lastGuess (filter Player.submitted (players s)))]) /\
(forall s e, reachable lc uc v s ->
   let r := step lc uc v s e in
   count is_request (snd r) <= 1 /\
   (count is_request (snd r) = 1 ->
    pending s = [] /\ pending (fst r) <> [] /\
    turn (gameState (fst r)) = turn (gameState s)) /\
   (pending s <> [] -> count is_request (snd r) = 0)) /\
(forall s evs, reachable lc uc v s -> status (gameState s) = playing ->
   Forall (sameTurn s) (trace lc uc v s evs) ->
   count is_request (snd (run lc uc v s evs)) + length (pending s) <= 1) /\
(forall rw sc gs gs', assignScore lc rw sc gs = Some gs' ->
   (exists pre g post w,
       gs = pre ++ g :: post /\ Guess.word g = Some w /\ lc w = lc rw /\
       (forall h wh, In h pre -> Guess.word h = Some wh -> lc wh <> lc rw) /\
       gs' = pre ++ Guess.with_score sc g :: post) \/
   (gs' = gs /\
    forall h wh, In h gs -> Guess.word h = Some wh -> lc wh <> lc rw)) /\
(forall rs ps scored, assignScores lc rs (snapshot ps) = Some scored ->
   Forall2 (fun g g' =>
              sameGuess g g' /\
              (unmatched lc rs g ->
               Guess.scoreOr0 g' = 0%Z /\ Guess.reachesThreshold g' = false))
           (snapshot ps) scored) /\
(forall rs gs,
   Forall (fun r => Result.word r <> None) rs ->
   Forall (fun g => Guess.word g <> None) gs ->
   exists scored, assignScores lc rs gs = Some scored).
Proof.
split; [|split; [|split; [|split; [|split]]]].
- intros s Hready Hsnap.
  destruct (evaluateRound_request s Hready Hsnap) as (last & Hl & Ho).
  exists last. split; [exact Hl|]. rewrite Ho. reflexivity.
- intros s e Hr r. pose proof (reachable_Inv _ _ Hr) as HI.
  pose proof (step_kinds v s e HI) as H. fold r in H.
  destruct H as [H | [H | H]].
  + destruct H as (_ & C & _). rewrite C.
    split; [lia|]. split; [discriminate | reflexivity].
  + destruct H as (_ & C & _ & _ & _ & Hp & Hp' & Hn & _ & Ht & _). rewrite C.
    split; [lia|]. split.
    * intros _. split; [exact Hp|]. split; [|exact Ht].
      rewrite Hp'. discriminate.
    * congruence.
  + destruct H as (_ & C & _). rewrite C.
    split; [lia|]. split; [discriminate | reflexivity].
- intros s evs Hr Hst Hall. pose proof (reachable_Inv _ _ Hr) as HI.
  destruct (within_turn v evs s HI Hst Hall) as (J1 & _ & _ & _ & J5).
  rewrite J5. apply Inv_pending_length. exact J1.
- intros rw sc gs gs'. apply assignScore_first_match.
- intros rs ps scored H. apply assignScores_keeps in H.
  assert (Hnone : Forall (fun g => Guess.score g = None) (snapshot ps)).
  { unfold snapshot. apply Forall_forall. intros g Hg.
    apply in_map_iff in Hg. destruct Hg as (p & <- & _). reflexivity. }
  revert Hnone. induction H as [|g g' l l' (Hs & Hk) _ IH]; intros Hnone.
  + constructor.
  + inversion Hnone as [|? ? Hg Hl]; subst. constructor; [|exact (IH Hl)].
    split; [exact Hs|]. intros Hu. specialize (Hk Hu).
    unfold Guess.scoreOr0, Guess.reachesThreshold. rewrite Hk, Hg. auto.
- intros rs gs. apply assignScores_total.
Qed.

(** ** Leaving during a round *)

Lemma get_delete_same k ps : get k (delete k ps) = None.
Proof.
induction ps as [|p ps IH]; simpl; [reflexivity|].
destruct (String.eqb (Player.id p) k) eqn:E; simpl; [exact IH|].
rewrite E. exact IH.
Qed.

Lemma get_delete_none k k' ps : get k ps = None -> get k (delete k' ps) = None.
Proof.
induction ps as [|p ps IH]; simpl; [reflexivity|].
destruct (String.eqb (Player.id p) k) eqn:E; [discriminate|].
intros H. destruct (String.eqb (Player.id p) k'); simpl; [auto|].
rewrite E. auto.
Qed.

Lemma forallb_delete f k ps :
forallb f ps = true -> forallb f (delete k ps) = true.
Proof.
induction ps as [|p ps IH]; simpl; [reflexivity|].
intros H. apply andb_true_iff in H. destruct H as [Hp Hps].
destruct (String.eqb (Player.id p) k); simpl; [auto|].
rewrite Hp. auto.
Qed.

Lemma get_none_not_in k ps p : get k ps = None -> In p ps -> Player.id p <> k.
Proof.
induction ps as [|q ps IH]; simpl; [intros _ []|].
destruct (String.eqb (Player.id q) k) eqn:E; [discriminate|].
intros H [<- | Hin]; [apply String.eqb_neq; exact E | auto].
Qed.

Lemma snapshot_excludes k ps g :
get k ps = None -> In g (snapshot ps) -> Guess.groupId g <> k.
Proof.
intros Hk Hg. unfold snapshot in Hg. apply in_map_iff in Hg.
destruct Hg as (p & <- & Hp). apply filter_In in Hp. simpl.
exact (get_none_not_in k ps p Hk (proj1 Hp)).
Qed.

Lemma forallb_get f k ps p :
forallb f ps = true -> get k ps = Some p -> f p = true.
Proof.
intros Hf Hg. destruct (get_In _ _ _ Hg) as [Hin _].
rewrite forallb_forall in Hf. auto.
Qed.

(** With everybody present having submitted, only the timer moves. *)
Lemma waitingForTimer_step v sid s e :
waitingForTimer sid s -> (e = tick -> 2 <= timeLeft (gameState s)) ->
let r := step lc uc v s e in
waitingForTimer sid (fst r) /\
chain (gameState (fst r)) = chain (gameState s) /\
turn (gameState (fst r)) = turn (gameState s) /\
timeLeft (gameState (fst r)) = timeLeft (gameState s) - countTicks [e] /\
count is_request (snd r) = 0 /\ count is_roundResult (snd r) = 0.
Proof.
intros (Hst & Hc & Ht & (Ha & He & Hti & Hp & Htl) & Hall & Hsid) Htick r.
subst r.
assert (Hsame : waitingForTimer sid s)
  by (unfold waitingForTimer, collecting; auto 10).
destruct e as [sid' nm | sid' draw | sid' w | sid' | | k a draw]; simpl;
  try rewrite Nat.sub_0_r.
- destruct (io_use nm); [|auto 10].
  unfold on_connection. rewrite Hst. simpl. auto 10.
- destruct (connected sid' s); [|auto 10].
  unfold on_startGame. destruct (mayStart v sid' s) eqn:Hm; [|auto 10].
  apply mayStart_not_playing in Hm. congruence.
- destruct (connected sid' s); [|auto 10].
  unfold on_submitGuess, acceptsGuess.
  destruct (get sid' (players s)) as [p|] eqn:Hg; [|auto 10].
  rewrite (forallb_get _ _ _ _ Hall Hg), Ha. simpl. auto 10.
- destruct (connected sid' s); [|auto 10].
  unfold on_disconnect. destruct (get sid' (players s)); [|auto 10].
  assert (Hw : forall s', gameState s' = gameState s ->
                 timerInterval s' = timerInterval s -> pending s' = pending s ->
                 players s' = delete sid' (players s) ->
                 waitingForTimer sid s').
  { intros s' E1 E2 E3 E4. unfold waitingForTimer, collecting.
    rewrite E1, E2, E3, E4.
    repeat split; auto using forallb_delete, get_delete_none; lia. }
  destruct (match hostId s with Some h => _ | None => _ end); simpl;
    (split; [apply Hw; reflexivity | auto]).
- specialize (Htick eq_refl). rewrite Hti. unfold timerCallback.
  destruct (0 <? timeLeft (gameState s)) eqn:E0;
    [|apply Nat.ltb_ge in E0; lia].
  simpl.
  destruct (timeLeft (gameState s) - 1 <=? 0) eqn:E1;
    [apply Nat.leb_le in E1; lia|].
  simpl. unfold waitingForTimer, collecting. simpl.
  repeat split; auto; lia.
- rewrite Hp. destruct k; simpl; auto 10.
Qed.

Lemma waitingForTimer_run v sid evs : forall s,
waitingForTimer sid s -> countTicks evs < timeLeft (gameState s) ->
let r := run lc uc v s evs in
waitingForTimer sid (fst r) /\
chain (gameState (fst r)) = chain (gameState s) /\
turn (gameState (fst r)) = turn (gameState s) /\
timeLeft (gameState (fst r)) = timeLeft (gameState s) - countTicks evs /\
count is_request (snd r) = 0 /\ count is_roundResult (snd r) = 0.
Proof.
induction evs as [|e evs IH]; intros s Hw Hlt r; subst r; simpl.
- rewrite Nat.sub_0_r. auto 10.
- assert (Hcons : countTicks (e :: evs) = countTicks [e] + countTicks evs).
  { unfold countTicks. simpl. destruct (is_tick e); reflexivity. }
  assert (Hone : e = tick -> countTicks [e] = 1) by (intros ->; reflexivity).
  assert (Htick : e = tick -> 2 <= timeLeft (gameState s)).
  { intros E. specialize (Hone E). lia. }
  pose proof (waitingForTimer_step v sid s e Hw Htick)
    as (Hw1 & Hc1 & Ht1 & Htl1 & Cq1 & Cr1).
  destruct (step lc uc v s e) as [s1 o1]. simpl in *.
  assert (Hlt1 : countTicks evs < timeLeft (gameState s1)) by lia.
  pose proof (IH s1 Hw1 Hlt1) as (Hw2 & Hc2 & Ht2 & Htl2 & Cq2 & Cr2).
  destruct (run lc uc v s1 evs) as [s2 o2]. simpl in *.
  rewrite !count_app, Cq1, Cq2, Cr1, Cr2.
  split; [exact Hw2|]. split; [congruence|]. split; [congruence|].
  split; [lia | auto].
Qed.

(** The timer reaching zero is what starts the evaluation. *)
Lemma waitingForTimer_expiry v sid s :
waitingForTimer sid s -> timeLeft (gameState s) = 1 ->
let r := step lc uc v s tick in
count is_request (snd r) + count is_roundResult (snd r) = 1 /\
(isEvaluating (gameState (fst r)) = true \/
 turn (gameState (fst r)) = S (turn (gameState s))) /\
forall gs g, In gs (pending (fst r)) -> In g gs -> Guess.groupId g <> sid.
Proof.
intros (Hst & Hc & Ht & (Ha & He & Hti & Hp & Htl) & Hall & Hsid) H1 r.
subst r. simpl. rewrite Hti. unfold timerCallback. rewrite H1. simpl.
rewrite He. simpl. unfold evaluateRound. simpl. rewrite He.
destruct (lastNode_nonempty _ Hc) as [n Hn]. rewrite Hn.
destruct (snapshot (players s)) as [|g0 gs0] eqn:Eg.
- destruct (Nat.le_gt_cases MAX_TURNS (turn (gameState s))) as [L | L].
  + rewrite startNextTurn_last by exact L. simpl. rewrite Hp.
    repeat split; auto; intros gs g [].
  + rewrite startNextTurn_next by exact L. simpl. rewrite Hp.
    repeat split; auto; intros gs g [].
- simpl. rewrite Hp. simpl. repeat split; auto.
  intros gs g [<- | []] Hg. rewrite <- Eg in Hg.
  exact (snapshot_excludes _ _ _ Hsid Hg).
Qed.

(** C10.  The disconnect handler only removes the player and broadcasts
    the roster: the session record, the timer and any waiting evaluation
    are untouched, and the departed has no entry in a snapshot taken from
    then on.  If the round was collecting and everybody left in the roster
    has submitted, then whatever arrives before the timer reaches zero
    starts no evaluation (no request, no round result, same turn and
    chain), and the callback that brings the timer to zero starts it, on a
    snapshot without the departed. *)
Theorem disconnect_never_evaluates v s sid :
reachable lc uc v s ->
let r := step lc uc v s (disconnect sid) in
gameState (fst r) = gameState s /\ pending (fst r) = pending s /\
timerInterval (fst r) = timerInterval s /\
forallb is_lobbyState (snd r) = true /\
get sid (players (fst r)) = None /\
(forall g, In g (snapshot (players (fst r))) -> Guess.groupId g <> sid) /\
(isRoundActive (gameState s) = true ->
 forallb Player.submitted (players (fst r)) = true ->
 forall evs, countTicks evs < timeLeft (gameState s) ->
   let r2 := run lc uc v (fst r) evs in
   isEvaluating (gameState (fst r2)) = false /\
   isRoundActive (gameState (fst r2)) = true /\
   chain (gameState (fst r2)) = chain (gameState s) /\
   turn (gameState (fst r2)) = turn (gameState s) /\
   count is_request (snd r2) = 0 /\ count is_roundResult (snd r2) = 0 /\
   (timeLeft (gameState s) = S (countTicks evs) ->
    let r3 := step lc uc v (fst r2) tick in
    count is_request (snd r3) + count is_roundResult (snd r3) = 1 /\
    (isEvaluating (gameState (fst r3)) = true \/
     turn (gameState (fst r3)) = S (turn (gameState s))) /\
    forall gs g, In gs (pending (fst r3)) -> In g gs -> Guess.groupId g <> sid)).
Proof.
intros Hr r. pose proof (reachable_Inv _ _ Hr) as HI.
assert (Hframe : gameState (fst r) = gameState s /\ pending (fst r) = pending s /\
                 timerInterval (fst r) = timerInterval s /\
                 forallb is_lobbyState (snd r) = true /\
                 get sid (players (fst r)) = None).
{ subst r. simpl. unfold connected, on_disconnect.
  destruct (get sid (players s)) eqn:Hg; [|simpl; auto].
  destruct (match hostId s with Some h => _ | None => _ end); simpl;
    repeat split; apply get_delete_same. }
destruct Hframe as (Hg & Hp & Hti & Ho & Hsid).
split; [exact Hg|]. split; [exact Hp|]. split; [exact Hti|].
split; [exact Ho|]. split; [exact Hsid|].
split; [intros g; apply snapshot_excludes; exact Hsid|].
intros Ha Hall evs Hlt r2.
destruct (Inv_active s HI Ha) as (Hst & Hc & Ht & (_ & He & Htr & Hpe & Htl)).
assert (Hw : waitingForTimer sid (fst r)).
{ unfold waitingForTimer, collecting. rewrite Hg, Hp, Hti. auto 10. }
assert (Hlt' : countTicks evs < timeLeft (gameState (fst r)))
  by (rewrite Hg; exact Hlt).
pose proof (waitingForTimer_run v sid evs (fst r) Hw Hlt')
  as (Hw2 & Hc2 & Ht2 & Htl2 & Cq & Cr).
fold r2 in Hw2, Hc2, Ht2, Htl2, Cq, Cr. rewrite Hg in Hc2, Ht2, Htl2.
destruct Hw2 as (Hst2 & Hcn2 & Htb2 & (Ha2 & He2 & Hrest) & Hall2 & Hsid2).
split; [exact He2|]. split; [exact Ha2|]. split; [exact Hc2|].
split; [exact Ht2|]. split; [exact Cq|]. split; [exact Cr|].
intros Hlast r3.
assert (Hw2 : waitingForTimer sid (fst r2))
  by (unfold waitingForTimer, collecting; auto 10).
assert (H1 : timeLeft (gameState (fst r2)) = 1) by lia.
pose proof (waitingForTimer_expiry v sid (fst r2) Hw2 H1) as (K1 & K2 & K3).
fold r3 in K1, K2, K3. rewrite Ht2 in K2. auto.
Qed.

Lemma sameGuess_ids l l' :
Forall2 (fun g g' => sameGuess g g') l l' ->
map Guess.groupId l' = map Guess.groupId l /\ map Guess.word l' = map Guess.word l.
Proof.
induction 1 as [|g g' l l' (Hi & Hw) _ (IH1 & IH2)]; simpl; [auto|].
rewrite Hi, Hw, IH1, IH2. auto.
Qed.

(** Scoring changes neither the submitters nor their words nor their order. *)
Lemma assignScores_ids rs gs scored :
assignScores lc rs gs = Some scored ->
map Guess.groupId scored = map Guess.groupId gs /\
map Guess.word scored = map Guess.word gs.
Proof.
intros H. apply assignScores_keeps in H. apply sameGuess_ids.
eapply Forall2_impl; [|exact H]. intros a b [Hs _]. exact Hs.
Qed.

(** ** The winner of a round *)

(** What a [try] block that runs to its end has done. *)
Lemma tryBlock_summary guesses a draw s m :
snd (tryBlock lc guesses a draw s) = Some m ->
exists rs scored w rest wp nx lines,
  a = results rs /\ assignScores lc rs guesses = Some scored /\
  Array_sort byScoreDesc scored = w :: rest /\
  get (Guess.groupId w) (players s) = Some wp /\
  nth_error (w :: rest) (draw mod length (w :: rest)) = Some nx /\
  players (fst (tryBlock lc guesses a draw s)) =
  map (fun p => Player.with_score
                  (Player.score p + pointsFor w (w :: rest) (Player.id p))%Z p)
      (players s) /\
  chain (gameState (fst (tryBlock lc guesses a draw s))) =
  chain (gameState s) ++ [Node.mk (Guess.word nx) (Some (Guess.groupId nx))] /\
  m = Summary (turn (gameState s)) (Guess.word w) (Guess.scoreOr0 w)
              (Player.name wp) lines (Guess.word nx).
Proof.
unfold tryBlock.
destruct a as [|rs]; [discriminate|].
destruct (assignScores lc rs guesses) as [scored|] eqn:Es; [|discriminate].
destruct (Array_sort byScoreDesc scored) as [|w rest] eqn:Eo; [discriminate|].
destruct (get (Guess.groupId w) (players s)) as [wp|] eqn:Ew; [|discriminate].
destruct (awardPoints w (w :: rest) (players s) []) as [ps [lines|]] eqn:Ea;
  [|discriminate].
destruct (nth_error (w :: rest) _) as [nx|] eqn:En; [|discriminate].
simpl. intros H. injection H as <-.
apply awardPoints_total in Ea.
exists rs, scored, w, rest, wp, nx, lines. repeat split; auto.
Qed.

Lemma assignScores_roster_order rs ps scored :
assignScores lc rs (snapshot ps) = Some scored ->
map Guess.groupId scored = map Player.id (filter Player.submitted ps).
Proof.
intros H. apply assignScores_ids in H. destruct H as [E _].
rewrite E. apply snapshot_ids.
Qed.

(** C5, as the code has it.  The array that is sorted lists the
    submissions in roster order (the order in which the players joined),
    not in the order in which they submitted.  Sorting it gives the same
    submissions in descending order of score, submissions of equal score
    keeping their roster order; its first element, the round winner, is
    thus the earliest-joined of the best-scored submitters.  The winner's
    word and score head the round summary, and the 5 bonus points go to
    the player of that first element. *)
Theorem ranking_stable_in_roster_order :
(forall l,
   Permutation l (Array_sort byScoreDesc l) /\
   StronglySorted scoreGe (Array_sort byScoreDesc l) /\
   (forall z, withScore z (Array_sort byScoreDesc l) = withScore z l) /\
   (forall w rest, Array_sort byScoreDesc l = w :: rest ->
      exists pre post,
        l = pre ++ w :: post /\
        Forall (fun h => (Guess.scoreOr0 h < Guess.scoreOr0 w)%Z) pre /\
        Forall (fun h => (Guess.scoreOr0 h <= Guess.scoreOr0 w)%Z) post)) /\
(forall rs ps scored,
   assignScores lc rs (snapshot ps) = Some scored ->
   map Guess.groupId scored = map Player.id (filter Player.submitted ps)) /\
(forall guesses a draw s t ww ws wn lines nw,
   snd (tryBlock lc guesses a draw s) = Some (Summary t ww ws wn lines nw) ->
   exists rs scored w rest,
     a = results rs /\ assignScores lc rs guesses = Some scored /\
     Array_sort byScoreDesc scored = w :: rest /\
     ww = Guess.word w /\ ws = Guess.scoreOr0 w /\
     players (fst (tryBlock lc guesses a draw s)) =
     map (fun p => Player.with_score
                     (Player.score p + pointsFor w (w :: rest) (Player.id p))%Z p)
         (players s)).
Proof.
split; [|split].
- intros l. split; [apply Array_sort_perm|]. split; [apply Array_sort_sorted|].
  split; [intros z; apply Array_sort_stable | apply Array_sort_head].
- apply assignScores_roster_order.
- intros guesses a draw s t ww ws wn lines nw H.
  destruct (tryBlock_summary _ _ _ _ _ H)
    as (rs & scored & w & rest & wp & nx & lines' & Ha & Hs & Ho & _ & _ & Hp & _ & Hm).
  injection Hm as _ -> -> _ _ _.
  exists rs, scored, w, rest. auto 10.
Qed.

(** ** The length of the chain *)

Lemma chainTracksTurn_step v s e :
Inv s -> chainTracksTurn s ->
existsb is_skip (snd (step lc uc v s e)) = false ->
chainTracksTurn (fst (step lc uc v s e)).
Proof.
intros HI HJ Hclean. unfold chainTracksTurn in *.
destruct (step_kinds v s e HI) as [H | [H | H]].
- destruct H as (_ & _ & _ & [(Hc & Ht & Hs & _) | (_ & Hs & Ht & Hc)]).
  + rewrite Hc, Ht, Hs. exact HJ.
  + rewrite Hs, Ht, Hc. reflexivity.
- destruct H as (_ & _ & _ & _ & _ & _ & _ & _ & Hc & Ht & Hs).
  rewrite Hc, Ht, Hs. exact HJ.
- destruct H as (_ & _ & Hs & _ & _ & Ht & Happ).
  destruct (Happ Hclean) as [node Hc]. rewrite Hs in HJ.
  rewrite Hc, length_app. simpl.
  destruct Ht as [(_ & -> & -> & _) | (_ & -> & ->)]; lia.
Qed.

(** As long as no round is skipped, the chain has as many nodes as the
    turn being played, and one more once the game is finished: the seed
    and one node per completed turn. *)
Theorem chain_length_after_clean_turns v evs : forall s,
Inv s -> chainTracksTurn s ->
existsb is_skip (snd (run lc uc v s evs)) = false ->
chainTracksTurn (fst (run lc uc v s evs)).
Proof.
induction evs as [|e evs IH]; intros s HI HJ Hclean; simpl in *; [exact HJ|].
pose proof (step_Inv v s e HI) as HI1.
pose proof (chainTracksTurn_step v s e HI HJ) as HJ1.
destruct (step lc uc v s e) as [s1 o1]. simpl in *.
specialize (IH s1 HI1).
destruct (run lc uc v s1 evs) as [s2 o2]. simpl in *.
rewrite existsb_app in Hclean. apply orb_false_iff in Hclean.
destruct Hclean as [C1 C2]. auto.
Qed.

Corollary chain_length_from_start v evs :
existsb is_skip (snd (run lc uc v initialState evs)) = false ->
chainTracksTurn (fst (run lc uc v initialState evs)).
Proof.
apply chain_length_after_clean_turns.
- unfold Inv. simpl. auto.
- exact I.
Qed.

(** ** The points of a round, nobody having left *)

Lemma tryBlock_ids guesses a draw s :
map Player.id (players (fst (tryBlock lc guesses a draw s)))
= map Player.id (players s).
Proof.
unfold tryBlock.
destruct a as [|rs]; [reflexivity|].
destruct (assignScores lc rs guesses) as [scored|]; [|reflexivity].
destruct (Array_sort byScoreDesc scored) as [|w rest]; [reflexivity|].
destruct (get (Guess.groupId w) (players s)); [|reflexivity].
pose proof (awardPoints_ids w (w :: rest) (players s) []) as Hi.
destruct (awardPoints w (w :: rest) (players s) []) as [ps [lines|]];
  simpl in Hi; [|exact Hi].
destruct (nth_error (w :: rest) _); exact Hi.
Qed.

Lemma remove_nth_Forall {A : Type} (P : A -> Prop) k (l : list A) :
Forall P l -> Forall P (remove_nth k l).
Proof.
revert k. induction l as [|x l IH]; intros k H; [destruct k; constructor|].
inversion H; subst. destruct k; simpl; [assumption|].
constructor; auto.
Qed.

Lemma step_Distinct v s e : Distinct s -> Distinct (fst (step lc uc v s e)).
Proof.
intros HD. pose proof HD as [Hps Hpd].
destruct e as [sid nm | sid draw | sid w | sid | | k a draw]; simpl.
- destruct (io_use nm); [|exact HD].
  unfold on_connection. destruct (_ || _); [exact HD|].
  destruct v; [destruct (_ && _)|]; simpl; split; simpl;
    auto using NoDup_set.
- destruct (connected sid s); [|exact HD].
  unfold on_startGame. destruct (mayStart v sid s); [|exact HD].
  split; simpl; [|exact Hpd]. rewrite map_map. exact Hps.
- destruct (connected sid s); [|exact HD].
  unfold on_submitGuess. destruct (acceptsGuess sid s); [|exact HD].
  assert (HD1 : Distinct (recordGuess sid w s)).
  { split; simpl; [|exact Hpd]. rewrite map_id_modify; auto. }
  destruct (forallb _ _); [|exact HD1].
  pose proof (evaluateRound_Distinct _ HD1) as H.
  destruct (evaluateRound (recordGuess sid w s)). exact H.
- destruct (connected sid s); [|exact HD].
  unfold on_disconnect. destruct (get sid (players s)); [|exact HD].
  destruct (match hostId s with Some h => _ | None => _ end); split; simpl;
    auto; unfold delete; apply NoDup_map_filter; exact Hps.
- destruct (timerInterval s); [|exact HD]. unfold timerCallback.
  destruct (0 <? timeLeft (gameState s)); simpl.
  + destruct (_ <=? 0); [|exact HD].
    destruct (negb _); [|exact HD].
    match goal with |- context [evaluateRound ?x] => set (s2 := x) end.
    assert (HD2 : Distinct s2) by exact HD.
    pose proof (evaluateRound_Distinct _ HD2) as H.
    destruct (evaluateRound s2). exact H.
  + destruct (_ <=? 0); [|exact HD].
    destruct (negb _); [|exact HD].
    match goal with |- context [evaluateRound ?x] => set (s2 := x) end.
    assert (HD2 : Distinct s2) by exact HD.
    pose proof (evaluateRound_Distinct _ HD2) as H.
    destruct (evaluateRound s2). exact H.
- destruct (nth_error (pending s) k) as [gs|]; [|exact HD].
  unfold evaluateRound_resume.
  set (s0 := set_pending (remove_nth k (pending s)) s).
  pose proof (tryBlock_ids gs a draw s0) as Hi.
  pose proof (tryBlock_frame gs a draw s0) as (_ & _ & Hp & _).
  destruct (tryBlock lc gs a draw s0) as [s1 m]. simpl in *.
  destruct (startNextTurn_ids s1) as (Hi2 & _ & Hp2).
  destruct (startNextTurn s1) as [s2 o2]. simpl in *.
  split; [rewrite Hi2, Hi; exact Hps|].
  rewrite Hp2, Hp. apply remove_nth_Forall. exact Hpd.
Qed.

Lemma reachable_Distinct v s : reachable lc uc v s -> Distinct s.
Proof.
induction 1 as [|s e _ IH].
- split; constructor.
- apply step_Distinct, IH.
Qed.

(** When the [try] block runs to its end (the answer is readable and
    every submitter is still in the roster), every player gains the points
    of its own guess, 2 at or above the threshold and 5 more for the
    winner, and a player without a guess gains nothing. *)
Theorem round_points_when_all_present v s guesses a draw m :
reachable lc uc v s -> pending s = [guesses] ->
snd (tryBlock lc guesses a draw (set_pending [] s)) = Some m ->
let s' := fst (step lc uc v s (oracleAnswer 0 a draw)) in
exists rs scored w rest,
  a = results rs /\ assignScores lc rs guesses = Some scored /\
  Array_sort byScoreDesc scored = w :: rest /\
  map Guess.groupId scored = map Guess.groupId guesses /\
  map Player.id (players s') = map Player.id (players s) /\
  map Player.score (players s') =
  map (fun p => (Player.score p + pointsFor w (w :: rest) (Player.id p))%Z)
      (players s) /\
  (forall g, In g (w :: rest) ->
             pointsFor w (w :: rest) (Guess.groupId g) = pointsOf w g) /\
  (forall k, ~ In k (map Guess.groupId guesses) ->
             pointsFor w (w :: rest) k = 0%Z).
Proof.
intros Hr Hp Hm s'.
destruct (reachable_Distinct v s Hr) as [_ Hpd].
rewrite Hp in Hpd. inversion Hpd as [|? ? Hnd _]; subst.
destruct (tryBlock_summary _ _ _ _ _ Hm)
  as (rs & scored & w & rest & wp & nx & lines & Ha & Hs & Ho & _ & _ & Hpl & _).
exists rs, scored, w, rest.
assert (Hids : map Guess.groupId scored = map Guess.groupId guesses)
  by (exact (proj1 (assignScores_ids rs guesses scored Hs))).
assert (Hperm : Permutation (map Guess.groupId guesses)
                            (map Guess.groupId (w :: rest))).
{ rewrite <- Hids, <- Ho. apply Permutation_map, Array_sort_perm. }
assert (Hnd' : NoDup (map Guess.groupId (w :: rest)))
  by (exact (Permutation_NoDup Hperm Hnd)).
split; [exact Ha|]. split; [exact Hs|]. split; [exact Ho|].
split; [exact Hids|].
assert (Hstep : map Player.id (players s') = map Player.id (players s) /\
                map Player.score (players s') =
                map (fun p => (Player.score p
                               + pointsFor w (w :: rest) (Player.id p))%Z)
                    (players s)).
{ subst s'. unfold step. rewrite Hp. simpl. unfold evaluateRound_resume.
  pose proof (tryBlock_ids guesses a draw (set_pending [] s)) as Hi.
  destruct (tryBlock lc guesses a draw (set_pending [] s)) as [s1 m1].
  simpl in *.
  destruct (startNextTurn_ids s1) as (Hi2 & Hs2 & _).
  destruct (startNextTurn s1) as [s2 o2]. simpl in *.
  rewrite Hi2, Hs2, Hi, Hpl, map_map. simpl. auto. }
destruct Hstep as [H1 H2].
split; [exact H1|]. split; [exact H2|]. split.
- intros g Hg. apply pointsFor_unique; assumption.
- intros k Hk. apply pointsFor_absent. intros Hin. apply Hk.
  apply (Permutation_in _ (Permutation_sym Hperm)). exact Hin.
Qed.

End ServerProperties.

(** C3: the finished game of [silent_game] has one player, and both
    servers accept a newcomer there. *)
Lemma join_accepted_when_finished :
  status (gameState after_silent_game_index) = finished /\
  status (gameState after_silent_game_part0) = finished /\
  map Player.id
      (players (fst (on_connection upper HostGated "z" "Zoe" after_silent_game_index)))
  = ["a"; "z"] /\
  map Player.id
      (players (fst (on_connection upper OpenLobby "z" "Zoe" after_silent_game_part0)))
  = ["a"; "z"] /\
  ~ (status (gameState after_silent_game_index) <> lobby ->
     on_connection upper HostGated "z" "Zoe" after_silent_game_index
     = (after_silent_game_index, [socket_disconnect "z"])).
Proof.
  repeat split; try (vm_compute; reflexivity).
  intros H.
  assert (E : status (gameState after_silent_game_index) <> lobby)
    by (vm_compute; discriminate).
  specialize (H E). vm_compute in H. discriminate.
Qed.

Lemma join_rejected_witness :
  (on_connection upper HostGated "z" "Zoe" after_silent_game_index
   = (after_silent_game_index, [socket_disconnect "z"])
   <-> status (gameState after_silent_game_index) = playing
       \/ 50 <= length (players after_silent_game_index)) /\
  (status (gameState after_silent_game_index) = finished /\
   length (players after_silent_game_index) < 50 /\
   exists c,
     get "z" (players (fst (on_connection upper HostGated "z" "Zoe"
                                           after_silent_game_index)))
     = Some (Player.mk "z" "Zoe" c 0%Z false None) /\
     exists h,
       snd (on_connection upper HostGated "z" "Zoe" after_silent_game_index)
       = [emit_lobbyState
            (players (fst (on_connection upper HostGated "z" "Zoe"
                                          after_silent_game_index))) h]).
Proof.
  pose proof (join_rejected_iff_playing_or_full upper HostGated "z" "Zoe"
                                                after_silent_game_index)
    as [H1 H2].
  assert (Hs : status (gameState after_silent_game_index) = finished)
    by (vm_compute; reflexivity).
  assert (Hl : length (players after_silent_game_index) < 50)
    by (vm_compute; lia).
  split; [exact H1|]. split; [exact Hs|]. split; [exact Hl|].
  exact (H2 Hs Hl).
Defined.

(** C4: after the finished game of [silent_game], the start command of
    the host of [src/index.js] is accepted and a new game is under way. *)
Lemma host_restarts_finished_game :
  status (gameState after_silent_game_index) = finished /\
  let s' := fst (step lower upper HostGated after_silent_game_index
                      (startGame "a" 2)) in
  status (gameState s') = playing /\ turn (gameState s') = 1 /\
  timerInterval s' = true /\
  chain (gameState s') = [Node.mk (Some "Arte") None].
Proof. vm_compute. repeat split. Qed.

Lemma finished_terminal_witness :
  (reachable lower upper OpenLobby after_silent_game_part0 /\
   status (gameState after_silent_game_part0) = finished /\
   let evs := [startGame "a" 1; connection "b" "Bia"; startGame "b" 0;
               submitGuess "a" (Some "Casa"); tick] in
   gameState (fst (run lower upper OpenLobby after_silent_game_part0 evs))
   = gameState after_silent_game_part0 /\
   timerInterval (fst (run lower upper OpenLobby after_silent_game_part0 evs))
   = false /\
   existsb is_timer (snd (run lower upper OpenLobby after_silent_game_part0 evs))
   = false) /\
  (reachable lower upper HostGated after_silent_game_index /\
   status (gameState after_silent_game_index) = finished /\
   hostId after_silent_game_index = Some "a" /\
   connected "a" after_silent_game_index = true /\
   let s' := fst (step lower upper HostGated after_silent_game_index
                       (startGame "a" 2)) in
   status (gameState s') = playing /\ turn (gameState s') = 1 /\
   length (chain (gameState s')) = 1 /\ timerInterval s' = true /\
   Forall (fun p => Player.score p = 0%Z) (players s')).
Proof.
  pose proof (finished_terminal_without_host_restart lower upper) as [H1 H2].
  assert (R1 : reachable lower upper OpenLobby after_silent_game_part0)
    by (apply reachable_run, reachable_init).
  assert (R2 : reachable lower upper HostGated after_silent_game_index)
    by (apply reachable_run, reachable_init).
  assert (F1 : status (gameState after_silent_game_part0) = finished)
    by (vm_compute; reflexivity).
  assert (F2 : status (gameState after_silent_game_index) = finished)
    by (vm_compute; reflexivity).
  assert (Hh : hostId after_silent_game_index = Some "a")
    by (vm_compute; reflexivity).
  assert (Hc : connected "a" after_silent_game_index = true)
    by (vm_compute; reflexivity).
  split.
  - split; [exact R1|]. split; [exact F1|]. exact (H1 _ _ R1 F1).
  - split; [exact R2|]. split; [exact F2|]. split; [exact Hh|].
    split; [exact Hc|]. exact (H2 _ "a" 2 R2 F2 Hh Hc).
Defined.

Lemma submission_recorded_witness :
  let s := fst (run lower upper HostGated initialState
                    (two_players_started ++ [submitGuess "b" (Some "Carro")])) in
  reachable lower upper HostGated s /\
  let accepting sid :=
    status (gameState s) = playing /\ isRoundActive (gameState s) = true /\
    isEvaluating (gameState s) = false /\
    exists p, get sid (players s) = Some p /\ Player.submitted p = false in
  (accepting "a" /\
   exists p, get "a" (players s) = Some p /\
     get "a" (players (fst (step lower upper HostGated s (submitGuess "a" (Some "Passado")))))
     = Some (Player.mk "a" (Player.name p) (Player.color p) (Player.score p)
                       true (Some "Passado"))) /\
  (~ accepting "b" /\
   step lower upper HostGated s (submitGuess "b" (Some "Moto")) = (s, [])).
Proof.
  intros s.
  assert (R : reachable lower upper HostGated s)
    by (apply reachable_run, reachable_init).
  split; [exact R|]. intros accepting.
  assert (A : accepting "a").
  { unfold accepting. repeat split. eexists. split; vm_compute; reflexivity. }
  assert (B : ~ accepting "b").
  { intros (_ & _ & _ & p & Hg & Hs). vm_compute in Hg.
    injection Hg as <-. discriminate. }
  split.
  - split; [exact A|].
    exact (proj1 (submission_recorded_iff_accepting lower upper HostGated s
                    "a" (Some "Passado") R) A).
  - split; [exact B|].
    exact (proj1 (proj2 (submission_recorded_iff_accepting lower upper HostGated s
                           "b" (Some "Moto") R)) B).
Defined.

(** C2: both players submit and the scoring request fails.  The turn
    advances, but the chain still holds the seed alone and nobody has a
    point, not even the first candidate. *)
Lemma chain_not_extended_on_oracle_failure :
  let s := fst (run_index initialState both_submitted) in
  let s' := fst (step lower upper HostGated s (oracleAnswer 0 rejected 0)) in
  map Guess.word (concat (pending s)) = [Some "Passado"; Some "Carro"] /\
  turn (gameState s) = 1 /\ turn (gameState s') = 2 /\
  chain (gameState s) = [Node.mk (Some "Futuro") None] /\
  chain (gameState s') = [Node.mk (Some "Futuro") None] /\
  map Player.score (players s') = [0%Z; 0%Z].
Proof. vm_compute. repeat split. Qed.

Lemma oracle_failure_witness :
  let s := fst (run_index initialState both_submitted) in
  let guesses := [Guess.mk "a" (Some "Passado") None; Guess.mk "b" (Some "Carro") None] in
  let a := results [Result.mk None (Some 80%Z)] in
  reachable lower upper HostGated s /\ pending s = [guesses] /\
  answerThrows lower a guesses /\
  let r := step lower upper HostGated s (oracleAnswer 0 a 1) in
  chain (gameState (fst r)) = chain (gameState s) /\
  map Player.score (players (fst r)) = map Player.score (players s) /\
  map Player.id (players (fst r)) = map Player.id (players s) /\
  pending (fst r) = [] /\
  count is_roundResult (snd r) = 1 /\
  In (emit_roundResult OracleError) (snd r) /\ In console_error (snd r) /\
  ((turn (gameState s) < MAX_TURNS /\
    status (gameState (fst r)) = playing /\
    turn (gameState (fst r)) = S (turn (gameState s)) /\
    isRoundActive (gameState (fst r)) = true /\
    isEvaluating (gameState (fst r)) = false /\
    timerInterval (fst r) = true) \/
   (turn (gameState s) = MAX_TURNS /\ status (gameState (fst r)) = finished)).
Proof.
  intros s guesses a.
  assert (R : reachable lower upper HostGated s)
    by (apply reachable_run, reachable_init).
  assert (P : pending s = [guesses]) by (vm_compute; reflexivity).
  assert (T : answerThrows lower a guesses) by (vm_compute; reflexivity).
  split; [exact R|]. split; [exact P|]. split; [exact T|].
  exact (oracle_failure_skips_turn lower upper HostGated s guesses a 1 R P T).
Defined.

(** C1: the timer of the first turn runs out with nothing submitted.  One
    invocation passes the guard and one round result is broadcast, but no
    node is appended: the chain is the seed alone when turn 2 begins. *)
Lemma silent_turn_appends_nothing :
  let r := run_index initialState silent_turn in
  count is_roundResult (snd r) = 1 /\
  In (emit_roundResult NobodyPlayed) (snd r) /\
  turn (gameState (fst r)) = 2 /\
  chain (gameState (fst r)) = [Node.mk (Some "Futuro") None].
Proof.
  vm_compute. repeat split. do 35 (try (left; reflexivity); right).
Qed.

Lemma evaluation_single_flight_witness :
  let s := fst (run_index initialState
                  (two_players_started ++ [submitGuess "a" (Some "Passado")])) in
  let s1 := fst (run_index initialState both_submitted) in
  (isEvaluating (gameState s1) = true /\ evaluateRound s1 = (s1, [])) /\
  (ready s /\ snapshot (players s) <> [] /\
   invokeEvaluate 3 s = evaluateRound s /\
   count is_request (snd (invokeEvaluate 3 s)) = 1) /\
  (reachable lower upper HostGated s1 /\
   let r := step lower upper HostGated s1
                 (oracleAnswer 0 (results [Result.mk (Some "carro") (Some 60%Z)]) 0) in
   count is_roundResult (snd r) = 1 /\
   status (gameState s1) = playing /\ pending (fst r) = [] /\
   ((status (gameState (fst r)) = playing /\
     turn (gameState (fst r)) = S (turn (gameState s1))) \/
    status (gameState (fst r)) = finished)) /\
  (pending s1 <> [] /\
   let r := step lower upper HostGated s1 tick in
   gameState (fst r) = gameState s1 /\ pending (fst r) = pending s1 /\
   count is_roundResult (snd r) = 0 /\ count is_request (snd r) = 0) /\
  (let evs := [tick; submitGuess "b" (Some "Carro"); tick] in
   let r1 := run lower upper HostGated s evs in
   let r2 := step lower upper HostGated (fst r1)
                  (oracleAnswer 0 (results [Result.mk (Some "carro") (Some 60%Z)]) 0) in
   Forall (sameTurn s) (trace lower upper HostGated s evs) /\
   ~ sameTurn s (fst r2) /\
   count is_roundResult (snd r1) = 0 /\
   count is_roundResult (snd r1 ++ snd r2) = 1).
Proof.
  intros s s1.
  destruct (evaluation_single_flight lower upper HostGated)
    as (H1 & H2 & H3 & H4 & H5).
  assert (R1 : reachable lower upper HostGated s1)
    by (apply reachable_run, reachable_init).
  assert (E1 : isEvaluating (gameState s1) = true) by (vm_compute; reflexivity).
  assert (Rd : ready s).
  { unfold ready. split; [vm_compute; reflexivity|].
    split; [vm_compute; discriminate|]. split; [vm_compute; lia|].
    split; vm_compute; reflexivity. }
  assert (Sn : snapshot (players s) <> []) by (vm_compute; discriminate).
  assert (P1 : pending s1 <> []) by (vm_compute; discriminate).
  split; [split; [exact E1 | exact (H1 s1 E1)]|].
  split; [split; [exact Rd|]; split; [exact Sn | exact (H2 s 2 Rd Sn)]|].
  split.
  { split; [exact R1|].
    pose proof (H3 s1 (oracleAnswer 0 (results [Result.mk (Some "carro") (Some 60%Z)]) 0)
                   R1) as (_ & _ & K & _).
    assert (C : count is_roundResult
                  (snd (step lower upper HostGated s1
                          (oracleAnswer 0 (results [Result.mk (Some "carro") (Some 60%Z)]) 0)))
                = 1) by (vm_compute; reflexivity).
    split; [exact C | exact (K C)]. }
  split.
  - split; [exact P1|].
    apply (H4 s1 tick R1 P1). intros k a d; discriminate.
  - intros evs r1 r2.
    assert (R : reachable lower upper HostGated s)
      by (apply reachable_run, reachable_init).
    assert (Pl : status (gameState s) = playing) by (vm_compute; reflexivity).
    assert (T : Forall (sameTurn s) (trace lower upper HostGated s evs))
      by (repeat constructor; vm_compute; reflexivity).
    assert (L : ~ sameTurn s (fst r2))
      by (intros [_ L]; vm_compute in L; discriminate).
    destruct (H5 s evs
                 (oracleAnswer 0 (results [Result.mk (Some "carro") (Some 60%Z)]) 0)
                 R Pl T) as (K1 & K2).
    split; [exact T|]. split; [exact L|]. split; [exact K1|].
    exact (proj1 (K2 L)).
Defined.

(** C9: two players submit the same word.  The request lists it twice,
    and the score answered for it goes to the first of the two only. *)
Lemma request_lists_duplicate_words :
  let r := run_index initialState same_word_twice in
  let a := results [Result.mk (Some "Casa") (Some 90%Z)] in
  filter is_request (snd r) = [openai_create (Some "Futuro") [Some "Casa"; Some "Casa"]] /\
  ~ NoDup [Some "Casa"; Some "Casa"] /\
  map (fun p => (Player.id p, Player.score p))
      (players (fst (step lower upper HostGated (fst r) (oracleAnswer 0 a 0))))
  = [("a", 7%Z); ("b", 0%Z)].
Proof.
  split; [vm_compute; reflexivity|]. split; [|vm_compute; reflexivity].
  intros H. inversion H as [|x l Hn _]; subst. apply Hn. left. reflexivity.
Qed.

Lemma scoring_request_witness :
  let s := fst (run_index initialState
                  (two_players_started ++ [submitGuess "a" (Some "Passado")])) in
  let s1 := fst (run_index initialState both_submitted) in
  let rs := [Result.mk (Some "PASSADO") (Some 80%Z)] in
  (ready s /\ snapshot (players s) <> [] /\
   exists last,
     lastNode (chain (gameState s)) = Some last /\
     filter is_request (snd (evaluateRound s)) =
     [openai_create (Node.word last)
                    (map Player.lastGuess (filter Player.submitted (players s)))]) /\
  (reachable lower upper HostGated s /\
   let r := step lower upper HostGated s (submitGuess "b" (Some "Carro")) in
   count is_request (snd r) = 1 /\
   pending s = [] /\ pending (fst r) <> [] /\
   turn (gameState (fst r)) = turn (gameState s)) /\
  (reachable lower upper HostGated s1 /\ pending s1 <> [] /\
   count is_request (snd (step lower upper HostGated s1 tick)) = 0) /\
  (let evs := [tick; submitGuess "b" (Some "Carro"); tick; tick] in
   Forall (sameTurn s) (trace lower upper HostGated s evs) /\
   count is_request (snd (run lower upper HostGated s evs)) + length (pending s) <= 1) /\
  (exists scored,
      assignScores lower rs (snapshot (players s1)) = Some scored /\
      Forall2 (fun g g' =>
                 sameGuess g g' /\
                 (unmatched lower rs g ->
                  Guess.scoreOr0 g' = 0%Z /\ Guess.reachesThreshold g' = false))
              (snapshot (players s1)) scored).
Proof.
  intros s s1 rs.
  destruct (scoring_request_and_matching lower upper HostGated)
    as (H1 & H2 & H3 & _ & H4 & H5).
  assert (R : reachable lower upper HostGated s)
    by (apply reachable_run, reachable_init).
  assert (R1 : reachable lower upper HostGated s1)
    by (apply reachable_run, reachable_init).
  assert (Rd : ready s).
  { unfold ready. split; [vm_compute; reflexivity|].
    split; [vm_compute; discriminate|]. split; [vm_compute; lia|].
    split; vm_compute; reflexivity. }
  assert (Sn : snapshot (players s) <> []) by (vm_compute; discriminate).
  assert (P1 : pending s1 <> []) by (vm_compute; discriminate).
  split; [split; [exact Rd|]; split; [exact Sn | exact (H1 s Rd Sn)]|].
  split.
  { split; [exact R|].
    destruct (H2 s (submitGuess "b" (Some "Carro")) R) as (_ & K & _).
    assert (C : count is_request
                  (snd (step lower upper HostGated s (submitGuess "b" (Some "Carro")))) = 1)
      by (vm_compute; reflexivity).
    split; [exact C | exact (K C)]. }
  split.
  { split; [exact R1|]. split; [exact P1|].
    destruct (H2 s1 tick R1) as (_ & _ & K). exact (K P1). }
  split.
  { intros evs.
    assert (Pl : status (gameState s) = playing) by (vm_compute; reflexivity).
    assert (T : Forall (sameTurn s) (trace lower upper HostGated s evs))
      by (repeat constructor; vm_compute; reflexivity).
    split; [exact T | exact (H3 s evs R Pl T)]. }
  destruct (H5 rs (snapshot (players s1))) as [scored Hsc].
  - repeat constructor; discriminate.
  - vm_compute. repeat constructor; discriminate.
  - exists scored. split; [exact Hsc | exact (H4 rs (players s1) scored Hsc)].
Defined.

Lemma disconnect_witness :
  let s := fst (run_index initialState last_one_leaves) in
  let r := step lower upper HostGated s (disconnect "c") in
  let evs := repeat tick 29 ++ [submitGuess "a" (Some "Moto"); connection "d" "Dudu"] in
  reachable lower upper HostGated s /\
  isRoundActive (gameState s) = true /\
  forallb Player.submitted (players (fst r)) = true /\
  countTicks evs < timeLeft (gameState s) /\
  timeLeft (gameState s) = S (countTicks evs) /\
  let r2 := run lower upper HostGated (fst r) evs in
  isEvaluating (gameState (fst r2)) = false /\
  count is_request (snd r2) = 0 /\ count is_roundResult (snd r2) = 0 /\
  let r3 := step lower upper HostGated (fst r2) tick in
  count is_request (snd r3) + count is_roundResult (snd r3) = 1 /\
  forall gs g, In gs (pending (fst r3)) -> In g gs -> Guess.groupId g <> "c".
Proof.
  intros s r evs.
  assert (R : reachable lower upper HostGated s)
    by (apply reachable_run, reachable_init).
  assert (A : isRoundActive (gameState s) = true) by (vm_compute; reflexivity).
  assert (F : forallb Player.submitted (players (fst r)) = true)
    by (vm_compute; reflexivity).
  assert (L : countTicks evs < timeLeft (gameState s)) by (vm_compute; lia).
  assert (E : timeLeft (gameState s) = S (countTicks evs))
    by (vm_compute; reflexivity).
  destruct (disconnect_never_evaluates lower upper HostGated s "c" R)
    as (_ & _ & _ & _ & _ & _ & H).
  destruct (H A F evs L) as (H1 & _ & _ & _ & H2 & H3 & H4).
  destruct (H4 E) as (H5 & _ & H6).
  repeat (split; [assumption|]). assumption.
Defined.

(** C5: [b] submits before [a], and the two words score the same.  The
    bonus goes to [a], who joined first, not to [b], who submitted first. *)
Lemma tie_goes_to_first_joiner :
  let r := run_index initialState tie_second_joiner_first in
  map (fun p => (Player.id p, Player.score p)) (players (fst r))
  = [("a", 7%Z); ("b", 2%Z)] /\
  exists lines nw,
    In (emit_roundResult (Summary 1 (Some "Passado") 60%Z "Lider" lines nw)) (snd r).
Proof.
  split; [vm_compute; reflexivity|].
  eexists; eexists. vm_compute.
  do 40 (try (left; reflexivity); right).
Qed.

Lemma ranking_witness :
  let s := fst (run_index initialState both_submitted) in
  let guesses := snapshot (players s) in
  let a := results [Result.mk (Some "carro") (Some 60%Z);
                    Result.mk (Some "passado") (Some 60%Z)] in
  exists lines,
    snd (tryBlock lower guesses a 0 s)
    = Some (Summary 1 (Some "Passado") 60%Z "Lider" lines (Some "Passado")) /\
    exists rs scored w rest,
      a = results rs /\ assignScores lower rs guesses = Some scored /\
      Array_sort byScoreDesc scored = w :: rest /\
      Some "Passado" = Guess.word w /\ 60%Z = Guess.scoreOr0 w /\
      players (fst (tryBlock lower guesses a 0 s)) =
      map (fun p => Player.with_score
                      (Player.score p + pointsFor w (w :: rest) (Player.id p))%Z p)
          (players s).
Proof.
  intros s guesses a.
  destruct (ranking_stable_in_roster_order lower) as (_ & _ & H).
  eexists. 
  assert (E : snd (tryBlock lower guesses a 0 s)
              = Some (Summary 1 (Some "Passado") 60%Z "Lider"
                        [mkLine "Lider" (Some "Passado") 60%Z 7%Z;
                         mkLine "Bia" (Some "Carro") 60%Z 2%Z] (Some "Passado")))
    by (vm_compute; reflexivity).
  split; [exact E|]. exact (H _ _ _ _ _ _ _ _ _ _ E).
Defined.

(** C6: a submitter leaves while the scoring request is out.  The points
    loop adds 7 to the winner [a], then throws at the entry of [b], whose
    player is gone; the exception lands in the [catch] of the request.
    [c], still present and scored 70, receives nothing, where the same
    round without the departure gives it 2. *)
Theorem departure_aborts_points_loop :
  let r := run_index initialState departure_during_scoring in
  let r' := run_index initialState nobody_leaves in
  map (fun p => (Player.id p, Player.score p)) (players (fst r))
  = [("a", 7%Z); ("c", 0%Z)] /\
  map (fun p => (Player.id p, Player.score p)) (players (fst r'))
  = [("a", 7%Z); ("b", 2%Z); ("c", 2%Z)] /\
  filter is_roundResult (snd r) = [emit_roundResult OracleError] /\
  status (gameState (fst r)) = playing /\ turn (gameState (fst r)) = 2.
Proof. vm_compute. repeat split. Qed.

(** C8: in the same run the first turn had three submissions and an
    answer from the scoring service, and it is over; the chain still has
    the seed alone, where the run without the departure has two nodes. *)
Theorem departure_drops_chain_node :
  let s := fst (run_index initialState all_three_submitted) in
  let r := run_index initialState departure_during_scoring in
  let r' := run_index initialState nobody_leaves in
  length (concat (pending s)) = 3 /\
  turn (gameState s) = 1 /\ turn (gameState (fst r)) = 2 /\
  length (chain (gameState (fst r))) = 1 /\
  turn (gameState (fst r')) = 2 /\
  length (chain (gameState (fst r'))) = 2.
Proof. vm_compute. repeat split. Qed.

(** The round of [nobody_leaves] is not skipped, and its chain has one
    node per completed turn and the seed. *)
Example nobody_leaves_chain :
  chainTracksTurn (fst (run lower upper HostGated initialState nobody_leaves)).
Proof.
  apply chain_length_from_start. vm_compute. reflexivity.
Qed.

(** * Further properties *)

(** ** The shape of a step *)

Lemma award_nil winner p : award winner [] p = p.
Proof.
destruct p as [i n c sc sb lg]. unfold award, Player.with_score. simpl.
rewrite Z.add_0_r. reflexivity.
Qed.

Lemma map_award_nil winner ps : map (award winner []) ps = ps.
Proof.
rewrite <- (map_id ps) at 2. apply map_ext. intros p. apply award_nil.
Qed.

(** The points loop, stopped or not, has gone through a prefix of the
    ranking. *)
Lemma awardPoints_prefix winner gs : forall ps lines,
exists done rest,
  gs = done ++ rest /\
  fst (awardPoints winner gs ps lines) = map (award winner done) ps /\
  (snd (awardPoints winner gs ps lines) <> None -> rest = []).
Proof.
induction gs as [|g gs IH]; simpl; intros ps lines.
- exists [], []. rewrite map_award_nil. auto.
- destruct (get (Guess.groupId g) ps) as [p|].
  + destruct (IH (modify (Guess.groupId g)
                    (fun q => Player.with_score
                                (Player.score q
                                 + ((if Guess.reachesThreshold g then 2 else 0)
                                    + (if String.eqb (Guess.groupId g)
                                                     (Guess.groupId winner)
                                       then 5 else 0)))%Z q) ps)
                 (lines ++ [mkLine (Player.name p) (Guess.word g)
                                   (Guess.scoreOr0 g)
                                   ((if Guess.reachesThreshold g then 2 else 0)
                                    + (if String.eqb (Guess.groupId g)
                                                     (Guess.groupId winner)
                                       then 5 else 0))%Z]))
      as (done & rest & -> & Hf & Hs).
    exists (g :: done), rest. split; [reflexivity|]. split; [|exact Hs].
    rewrite Hf. unfold modify. rewrite map_map. apply map_ext.
    intros [i n c sc sb lg]. unfold award, Player.with_score. simpl.
    destruct (String.eqb i (Guess.groupId g)); simpl; unfold pointsOf;
      f_equal; lia.
  + exists [], (g :: gs). simpl. rewrite map_award_nil.
    split; [reflexivity|]. split; [reflexivity|]. intros H. congruence.
Qed.

Lemma startNextTurn_change s :
status (gameState s) = playing -> 1 <= turn (gameState s) <= MAX_TURNS ->
(players (fst (startNextTurn s)) = players s \/
 players (fst (startNextTurn s))
 = map (Player.with_submission false None) (players s)) /\
hostId (fst (startNextTurn s)) = hostId s /\
chain (gameState (fst (startNextTurn s))) = chain (gameState s) /\
completedTurns (fst (startNextTurn s)) = S (completedTurns s).
Proof.
intros Hst Ht. unfold completedTurns at 2. rewrite Hst.
destruct (Nat.le_gt_cases MAX_TURNS (turn (gameState s))) as [L | L].
- rewrite startNextTurn_last by exact L. unfold completedTurns. simpl.
  repeat split; auto. lia.
- rewrite startNextTurn_next by exact L. unfold completedTurns. simpl.
  rewrite Hst. repeat split; auto. lia.
Qed.

Lemma evaluateRound_silent s :
ready s -> snapshot (players s) = [] ->
(players (fst (evaluateRound s)) = players s \/
 players (fst (evaluateRound s))
 = map (Player.with_submission false None) (players s)) /\
hostId (fst (evaluateRound s)) = hostId s /\
chain (gameState (fst (evaluateRound s))) = chain (gameState s) /\
completedTurns (fst (evaluateRound s)) = S (completedTurns s).
Proof.
intros (Hst & Hc & Ht & He & Hp) Hsn.
unfold evaluateRound. rewrite He.
destruct (lastNode_nonempty _ Hc) as [n Hn]. simpl. rewrite Hn, Hsn.
match goal with |- context [startNextTurn ?x] => set (s1 := x) end.
assert (H1 : status (gameState s1) = playing) by exact Hst.
assert (H2 : 1 <= turn (gameState s1) <= MAX_TURNS) by exact Ht.
pose proof (startNextTurn_change s1 H1 H2) as H.
destruct (startNextTurn s1) as [s2 o2]. simpl in *.
assert (Hcs : completedTurns s1 = completedTurns s)
  by (unfold completedTurns; simpl; reflexivity).
rewrite Hcs in H. exact H.
Qed.

Lemma evaluateRound_hostId s : hostId (fst (evaluateRound s)) = hostId s.
Proof.
unfold evaluateRound. destruct (isEvaluating (gameState s)); [reflexivity|].
simpl. destruct (lastNode (chain (gameState s))); [|reflexivity].
destruct (snapshot (players s)); [|reflexivity].
match goal with |- context [startNextTurn ?x] => set (s1 := x) end.
destruct (Nat.le_gt_cases MAX_TURNS (turn (gameState s1))) as [L | L].
- rewrite startNextTurn_last by exact L. reflexivity.
- rewrite startNextTurn_next by exact L. reflexivity.
Qed.

(** ** Lookups in the roster *)

Lemma get_map f k ps :
(forall p, Player.id (f p) = Player.id p) ->
get k (map f ps) = option_map f (get k ps).
Proof.
intros Hf. induction ps as [|p ps IH]; simpl; [reflexivity|].
rewrite Hf. destruct (String.eqb (Player.id p) k); [reflexivity | exact IH].
Qed.

Lemma get_set_other k k' p ps :
k' <> k -> Player.id p = k -> get k' (set k p ps) = get k' ps.
Proof.
intros Hk Hp. induction ps as [|q ps IH]; simpl.
- rewrite Hp. destruct (String.eqb_spec k k'); [congruence | reflexivity].
- destruct (String.eqb_spec (Player.id q) k) as [E | E]; simpl.
  + rewrite Hp, E.
    destruct (String.eqb_spec k k'); [congruence | reflexivity].
  + destruct (String.eqb (Player.id q) k'); [reflexivity | exact IH].
Qed.

Lemma get_delete_other k k' ps :
k' <> k -> get k' (delete k ps) = get k' ps.
Proof.
intros Hk. induction ps as [|q ps IH]; simpl; [reflexivity|].
destruct (String.eqb_spec (Player.id q) k) as [E | E]; simpl.
- destruct (String.eqb_spec (Player.id q) k'); [congruence | exact IH].
- destruct (String.eqb (Player.id q) k'); [reflexivity | exact IH].
Qed.

Lemma get_modify_other k k' f ps :
k' <> k -> (forall q, Player.id (f q) = Player.id q) ->
get k' (modify k f ps) = get k' ps.
Proof.
intros Hk Hf. induction ps as [|q ps IH]; simpl; [reflexivity|].
destruct (String.eqb_spec (Player.id q) k) as [E | E].
- rewrite Hf. destruct (String.eqb_spec (Player.id q) k'); [congruence | exact IH].
- destruct (String.eqb (Player.id q) k'); [reflexivity | exact IH].
Qed.

Lemma length_set k p ps : length (set k p ps) <= S (length ps).
Proof.
induction ps as [|q ps IH]; simpl; [lia|].
destruct (String.eqb (Player.id q) k); simpl; lia.
Qed.

Lemma Forall_set (P : Player.t -> Prop) k p ps :
P p -> Forall P ps -> Forall P (set k p ps).
Proof.
intros Hp. induction 1 as [|q ps Hq Hps IH]; simpl.
- constructor; [exact Hp | constructor].
- destruct (String.eqb (Player.id q) k); constructor; assumption.
Qed.

Lemma Forall_delete (P : Player.t -> Prop) k ps :
Forall P ps -> Forall P (delete k ps).
Proof.
intros H. apply Forall_forall. intros p Hp. apply filter_In in Hp.
rewrite Forall_forall in H. apply H. tauto.
Qed.

Lemma Forall_map_keep (P : Player.t -> Prop) f ps :
(forall p, P p -> P (f p)) -> Forall P ps -> Forall P (map f ps).
Proof.
intros Hf. induction 1; simpl; constructor; auto.
Qed.


(** With distinct scorers a player gains the points of one guess at most. *)
Lemma pointsFor_bounds winner done k :
NoDup (map Guess.groupId done) -> (0 <= pointsFor winner done k <= 7)%Z.
Proof.
induction done as [|g done IH]; simpl; intros Hnd; [lia|].
inversion Hnd as [|? ? Hg Hnd']; subst. specialize (IH Hnd').
destruct (String.eqb_spec k (Guess.groupId g)) as [E | E]; [|lia].
rewrite (pointsFor_absent winner done k) by (rewrite E; exact Hg).
unfold pointsOf.
destruct (Guess.reachesThreshold g);
  destruct (String.eqb (Guess.groupId g) (Guess.groupId winner)); lia.
Qed.

(** No player object carries [isHost], so the search for one always fails. *)
Lemma existsb_isHost ps : existsb Player.isHost ps = false.
Proof. induction ps as [|p ps IH]; simpl; auto. Qed.

Section RosterProperties.
Variables lc uc : string -> string.

Lemma tryBlock_players guesses a draw s :
exists winner done,
  players (fst (tryBlock lc guesses a draw s))
  = map (award winner done) (players s) /\
  (NoDup (map Guess.groupId guesses) -> NoDup (map Guess.groupId done)).
Proof.
assert (Hnone : exists winner done,
           players s = map (award winner done) (players s) /\
           (NoDup (map Guess.groupId guesses) -> NoDup (map Guess.groupId done))).
{ exists (Guess.mk "" None None), []. rewrite map_award_nil.
  split; [reflexivity|]. intros _. constructor. }
unfold tryBlock.
destruct a as [|rs]; [exact Hnone|].
destruct (assignScores lc rs guesses) as [scored|] eqn:Es; [|exact Hnone].
destruct (Array_sort byScoreDesc scored) as [|w rest] eqn:Eo; [exact Hnone|].
destruct (get (Guess.groupId w) (players s)); [|exact Hnone].
destruct (awardPoints_prefix w (w :: rest) (players s) [])
  as (done & rest' & Hsplit & Hf & _).
assert (Hnd : NoDup (map Guess.groupId guesses) -> NoDup (map Guess.groupId done)).
{ intros Hg.
  assert (Hp : Permutation (map Guess.groupId guesses)
                           (map Guess.groupId (w :: rest))).
  { rewrite <- (proj1 (assignScores_ids lc rs guesses scored Es)), <- Eo.
    apply Permutation_map, Array_sort_perm. }
  pose proof (Permutation_NoDup Hp Hg) as H.
  rewrite Hsplit, map_app in H. exact (NoDup_app_remove_r _ _ H). }
exists w, done. split; [|exact Hnd].
destruct (awardPoints w (w :: rest) (players s) []) as [ps [lines|]];
  simpl in Hf; [|exact Hf].
destruct (nth_error (w :: rest) _); exact Hf.
Qed.

(** Every step of the server has one of the shapes of [Change]. *)
Lemma step_change v s e : Inv s -> Change uc v s (fst (step lc uc v s e)).
Proof.
intros HI.
assert (Hsame : Change uc v s s) by (apply change_none; reflexivity).
destruct e as [sid nm | sid draw | sid w | sid | | k a draw]; simpl.
- (* connection *)
  destruct (io_use nm) eqn:Hn; [|exact Hsame].
  unfold on_connection.
  destruct (Status_eqb (status (gameState s)) playing) eqn:Es; [exact Hsame|].
  destruct (50 <=? length (players s)) eqn:El; [exact Hsame|]. simpl.
  apply Nat.leb_gt in El.
  assert (Hs : status (gameState s) <> playing).
  { intros H. rewrite H in Es. discriminate. }
  apply (change_join uc v s _ sid nm); auto.
  + destruct v; [destruct (_ && _)|]; reflexivity.
  + destruct v; [|reflexivity].
    rewrite existsb_isHost, andb_true_r.
    destruct (String.eqb (uc nm) "LIDER"); reflexivity.
  + destruct v; [destruct (_ && _)|]; reflexivity.
- (* startGame *)
  destruct (connected sid s) eqn:Hc; [|exact Hsame].
  unfold on_startGame. destruct (mayStart v sid s) eqn:Hm; [|exact Hsame].
  apply (change_start uc v s _ sid draw); auto.
- (* submitGuess *)
  destruct (connected sid s); [|exact Hsame].
  unfold on_submitGuess. destruct (acceptsGuess sid s) eqn:Hacc; [|exact Hsame].
  pose proof Hacc as Hacc'. unfold acceptsGuess in Hacc'.
  destruct (get sid (players s)) as [p|] eqn:Hg; [|discriminate].
  apply andb_true_iff in Hacc'. destruct Hacc' as [Ha _].
  destruct (Inv_active s HI Ha) as (Hst & Hch & Ht & (_ & He & _ & Hp & _)).
  destruct (forallb _ _).
  + assert (Hready : ready (recordGuess sid w s)) by (unfold ready; simpl; auto).
    assert (Hsn : snapshot (players (recordGuess sid w s)) <> []).
    { pose proof (get_modify_same sid (Player.with_submission true w)
                    (players s) p (fun q => eq_refl) Hg) as Hm.
      destruct (get_In _ _ _ Hm) as [Hin _].
      exact (snapshot_nonempty _ _ Hin eq_refl). }
    pose proof (evaluateRound_players _ Hsn) as Hpl.
    pose proof (evaluateRound_hostId (recordGuess sid w s)) as Hh.
    pose proof (evaluateRound_open _ Hready) as H.
    destruct (evaluateRound (recordGuess sid w s)) as [s2 o2]. simpl in *.
    destruct H as [H | (H & _)]; [|congruence].
    destruct H as (_ & _ & _ & _ & _ & _ & _ & _ & C1 & C2 & C3).
    apply (change_submit uc v s _ sid w); auto.
  + apply (change_submit uc v s _ sid w); auto.
- (* disconnect *)
  destruct (connected sid s); [|exact Hsame].
  unfold on_disconnect. destruct (get sid (players s)) eqn:Hg; [|exact Hsame].
  apply (change_leave uc v s _ sid).
  + rewrite Hg. discriminate.
  + destruct (match hostId s with Some h => _ | None => _ end); reflexivity.
  + destruct (match hostId s with Some h => _ | None => _ end); reflexivity.
  + destruct (match hostId s with Some h => _ | None => _ end); reflexivity.
- (* tick *)
  destruct (timerInterval s) eqn:Hti; [|exact Hsame].
  destruct (Inv_timer s HI Hti) as (Hst & Hc & Ht & (Ha & He & _ & Hp & Htl)).
  unfold timerCallback.
  destruct (0 <? timeLeft (gameState s)) eqn:E0;
    [|apply Nat.ltb_ge in E0; lia].
  simpl.
  destruct (timeLeft (gameState s) - 1 <=? 0) eqn:E1.
  + rewrite He. simpl.
    match goal with |- context [evaluateRound ?x] => set (s2 := x) end.
    assert (Hready : ready s2) by (unfold ready; simpl; auto).
    destruct (snapshot (players s)) as [|g0 gs0] eqn:Esn.
    * pose proof (evaluateRound_silent s2 Hready Esn) as (H1 & H2 & H3 & H4).
      destruct (evaluateRound s2) as [s3 o3]. simpl in *.
      apply change_silent; auto.
    * assert (Hsn : snapshot (players s2) <> [])
        by (subst s2; simpl; rewrite Esn; discriminate).
      pose proof (evaluateRound_players _ Hsn) as Hpl.
      pose proof (evaluateRound_hostId s2) as Hh.
      pose proof (evaluateRound_open _ Hready) as H.
      destruct (evaluateRound s2) as [s3 o3]. simpl in *.
      destruct H as [H | (H & _)]; [|subst s2; simpl in H; congruence].
      destruct H as (_ & _ & _ & _ & _ & _ & _ & _ & C1 & C2 & C3).
      apply change_none; auto.
  + apply change_none; reflexivity.
- (* oracleAnswer *)
  destruct (nth_error (pending s) k) as [gs|] eqn:Hk; [|exact Hsame].
  destruct (Inv_pending s gs k HI Hk)
    as (-> & Hp & Hst & Hc & Ht & (Ha & He & Hti & _)).
  rewrite Hp. simpl. unfold evaluateRound_resume.
  set (s0 := set_pending [] s).
  destruct (tryBlock_players gs a draw s0) as (winner & done & Hpl & Hnd).
  pose proof (tryBlock_frame lc gs a draw s0) as (Hh & _ & _ & Hg).
  destruct (tryBlock lc gs a draw s0) as [s1 m]. simpl in *.
  assert (Hsame1 : status (gameState s1) = playing /\
                   turn (gameState s1) = turn (gameState s)).
  { destruct m as [m|].
    - destruct Hg as [node ->]. simpl. auto.
    - rewrite Hg. auto. }
  destruct Hsame1 as [Hst1 Ht1].
  assert (Ht1' : 1 <= turn (gameState s1) <= MAX_TURNS) by lia.
  pose proof (startNextTurn_change s1 Hst1 Ht1') as (H1 & H2 & _ & H4).
  destruct (startNextTurn s1) as [s2 o2]. simpl in *.
  apply (change_scored uc v s _ gs winner done); auto.
  + rewrite Hpl in H1. exact H1.
  + congruence.
  + rewrite H4. unfold completedTurns. rewrite Hst1, Hst, Ht1. reflexivity.
Qed.

(** ** What every reachable roster satisfies *)

Lemma nth_color n : In (nth (n mod length colors) colors "") colors.
Proof.
apply nth_In. apply Nat.mod_upper_bound. discriminate.
Qed.

Lemma io_use_name name : io_use name = true -> name <> "".
Proof.
unfold io_use. intros H Hn. subst name. discriminate.
Qed.

Lemma step_RosterOk v s e :
Inv s -> RosterOk s -> RosterOk (fst (step lc uc v s e)).
Proof.
intros HI (Hl & Hn & Hc).
destruct (step_change v s e HI)
  as [Hp _ _ _ _ | sid nm Hio Hst Hlt Hp _ _ | sid _ Hp _ _
      | sid draw _ _ Hp _ _ | sid w _ Hp _ _ _ _ | _ _ Hp _ _ _
      | gs winner done _ _ _ Hp _ _];
  unfold RosterOk.
- rewrite Hp. auto.
- rewrite Hp. split; [pose proof (length_set sid
      (Player.mk sid nm (nth (length (players s) mod length colors) colors "")
                 0%Z false None) (players s)); lia|].
  split; apply Forall_set; auto; simpl.
  + apply io_use_name. exact Hio.
  + apply nth_color.
- rewrite Hp. split; [unfold delete; pose proof (filter_length_le
      (fun p => negb (String.eqb (Player.id p) sid)) (players s)); lia|].
  split; apply Forall_delete; assumption.
- rewrite Hp. unfold resetGame. simpl. rewrite length_map.
  split; [exact Hl|]. split; apply Forall_map_keep; auto.
- rewrite Hp. unfold modify. rewrite length_map.
  split; [exact Hl|].
  split; apply Forall_map_keep; auto;
    intros p Hq; destruct (String.eqb (Player.id p) sid); exact Hq.
- destruct Hp as [-> | ->]; [auto|]. rewrite length_map.
  split; [exact Hl|]. split; apply Forall_map_keep; auto.
- destruct Hp as [-> | ->]; rewrite ?length_map;
    (split; [exact Hl|]); split; repeat apply Forall_map_keep; auto.
Qed.

Lemma step_coherent v s e :
Inv s -> Forall coherent (players s) ->
Forall coherent (players (fst (step lc uc v s e))).
Proof.
intros HI Hc.
assert (Hclear : forall p, coherent (Player.with_submission false None p)).
{ intros p. unfold coherent. simpl. reflexivity. }
destruct (step_change v s e HI)
  as [Hp _ _ _ _ | sid nm Hio Hst Hlt Hp _ _ | sid _ Hp _ _
      | sid draw _ _ Hp _ _ | sid w _ Hp _ _ _ _ | _ _ Hp _ _ _
      | gs winner done _ _ _ Hp _ _].
- rewrite Hp. exact Hc.
- rewrite Hp. apply Forall_set; [|exact Hc].
  unfold coherent. simpl. reflexivity.
- rewrite Hp. apply Forall_delete. exact Hc.
- rewrite Hp. unfold resetGame. simpl. apply Forall_map_keep; [|exact Hc].
  intros p _. apply (Hclear (Player.with_score 0%Z p)).
- rewrite Hp. apply Forall_map_keep; [|exact Hc].
  intros p Hq. destruct (String.eqb (Player.id p) sid); [|exact Hq].
  unfold coherent. simpl. discriminate.
- destruct Hp as [-> | ->]; [exact Hc|].
  apply Forall_map_keep; [|exact Hc]. intros p _. apply Hclear.
- destruct Hp as [-> | ->].
  + apply Forall_map_keep; [|exact Hc]. intros p Hq. exact Hq.
  + apply Forall_map_keep; [intros p _; apply Hclear|].
    apply Forall_map_keep; [|exact Hc]. intros p Hq. exact Hq.
Qed.

Lemma get_map_some f k ps :
(forall p, Player.id (f p) = Player.id p) ->
get k ps <> None -> get k (map f ps) <> None.
Proof.
intros Hf H. rewrite (get_map f k ps Hf).
destruct (get k ps); [discriminate | congruence].
Qed.

Lemma step_HostOk v s e :
Inv s -> HostOk v s -> HostOk v (fst (step lc uc v s e)).
Proof.
intros HI HH. destruct v; unfold HostOk in *.
- destruct (step_change HostGated s e HI)
    as [Hp Hh _ _ _ | sid nm Hio Hst Hlt Hp Hh _ | sid Hg Hp Hh _
        | sid draw _ _ Hp Hh _ | sid w _ Hp Hh _ _ _ | _ _ Hp Hh _ _
        | gs winner done _ _ _ Hp Hh _];
    rewrite Hh.
  + rewrite Hp. exact HH.
  + rewrite Hp.
    destruct (String.eqb (uc nm) "LIDER").
    * intros h E. injection E as <-. rewrite get_set_same by reflexivity.
      discriminate.
    * intros h E. destruct (String.eqb_spec h sid) as [-> | Hne].
      -- rewrite get_set_same by reflexivity. discriminate.
      -- rewrite get_set_other by auto. exact (HH h E).
  + rewrite Hp. intros h.
    destruct (hostId s) as [h0|] eqn:E0; [|discriminate].
    destruct (String.eqb_spec sid h0) as [-> | Hne]; [discriminate|].
    intros E. injection E as <-.
    rewrite get_delete_other by auto. exact (HH h0 eq_refl).
  + rewrite Hp. unfold resetGame. simpl. intros h E.
    apply get_map_some; [reflexivity | exact (HH h E)].
  + rewrite Hp. intros h E. unfold modify.
    apply get_map_some; [|exact (HH h E)].
    intros p. destruct (String.eqb (Player.id p) sid); reflexivity.
  + destruct Hp as [-> | ->]; [exact HH|].
    intros h E. apply get_map_some; [reflexivity | exact (HH h E)].
  + destruct Hp as [-> | ->]; intros h E;
      repeat (apply get_map_some; [reflexivity|]); exact (HH h E).
- destruct (step_change OpenLobby s e HI)
    as [_ Hh _ _ _ | sid nm _ _ _ _ Hh _ | sid _ _ Hh _
        | sid draw _ _ _ Hh _ | sid w _ _ Hh _ _ _ | _ _ _ Hh _ _
        | gs winner done _ _ _ _ Hh _];
    rewrite Hh, ?HH; reflexivity.
Qed.

Lemma step_ScoresOk v s e :
Inv s -> Distinct s -> ScoresOk s -> ScoresOk (fst (step lc uc v s e)).
Proof.
intros HI [_ HD] HS. unfold ScoresOk in *.
destruct (step_change v s e HI)
  as [Hp _ Hst Ht _ | sid nm Hio Hst Hlt Hp _ Hg | sid _ Hp _ Hg
      | sid draw _ _ Hp _ Hg | sid w _ Hp _ Hst Ht _ | _ _ Hp _ _ Hct
      | gs winner done Hpd _ Hnd Hp _ Hct].
- unfold completedTurns. rewrite Hp, Hst, Ht. exact HS.
- assert (Hc : completedTurns (fst (step lc uc v s e)) = completedTurns s)
    by (unfold completedTurns; rewrite Hg; reflexivity).
  rewrite Hp, Hc. apply Forall_set; [|exact HS].
  cbn [Player.score]. lia.
- unfold completedTurns. rewrite Hp, Hg. apply Forall_delete. exact HS.
- assert (Hc : completedTurns (fst (step lc uc v s e)) = 0)
    by (unfold completedTurns; rewrite Hg; reflexivity).
  rewrite Hp, Hc. unfold resetGame.
  apply Forall_forall. intros p Hin. cbn [players set_players set_gameState] in Hin.
  apply in_map_iff in Hin.
  destruct Hin as (q & <- & _). cbn. lia.
- unfold completedTurns. rewrite Hp, Hst, Ht.
  apply Forall_map_keep; [|exact HS].
  intros p Hq. destruct (String.eqb (Player.id p) sid); exact Hq.
- rewrite Hct.
  assert (HS' : Forall (fun p => (0 <= Player.score p
                                  <= 7 * Z.of_nat (S (completedTurns s)))%Z)
                       (players s)).
  { eapply Forall_impl; [|exact HS]. intros p Hq. cbv beta in Hq. lia. }
  destruct Hp as [-> | ->]; [exact HS'|].
  apply Forall_map_keep; [|exact HS']. intros p Hq. exact Hq.
- rewrite Hct. rewrite Hpd in HD. inversion HD as [|? ? Hn _]; subst.
  specialize (Hnd Hn).
  assert (HS' : Forall (fun p => (0 <= Player.score p
                                  <= 7 * Z.of_nat (S (completedTurns s)))%Z)
                       (map (award winner done) (players s))).
  { apply Forall_forall. intros p Hin. apply in_map_iff in Hin.
    destruct Hin as (q & <- & Hq). rewrite Forall_forall in HS.
    specialize (HS q Hq). cbv beta in HS.
    pose proof (pointsFor_bounds winner done (Player.id q) Hnd).
    unfold award, Player.with_score. cbn [Player.score]. lia. }
  destruct Hp as [-> | ->]; [exact HS'|].
  apply Forall_map_keep; [|exact HS']. intros p Hq. exact Hq.
Qed.

Lemma step_TurnOk v s e :
Inv s -> TurnOk s -> TurnOk (fst (step lc uc v s e)).
Proof.
intros HI HT. unfold TurnOk in *.
destruct (step_kinds lc uc v s e HI) as [H | [H | H]].
- destruct H as (_ & _ & _ & [(Hc & Ht & Hs & _) | (_ & Hs & Ht & Hc)]).
  + rewrite Hc, Ht, Hs. exact HT.
  + rewrite Hs, Ht, Hc. lia.
- destruct H as (_ & _ & _ & _ & _ & _ & _ & _ & Hc & Ht & Hs).
  rewrite Hc, Ht, Hs. exact HT.
- destruct H as (_ & _ & Hs & _ & Hc & Ht & _). rewrite Hs in HT.
  assert (Hl : length (chain (gameState s))
               <= length (chain (gameState (fst (step lc uc v s e))))
               <= S (length (chain (gameState s)))).
  { destruct Hc as [-> | [node ->]]; [lia|]. rewrite length_app. simpl. lia. }
  destruct Ht as [(_ & -> & -> & _) | (Hm & -> & ->)]; [lia|].
  split; [exact Hm | lia].
Qed.

Lemma startNextTurn_timeLeft s :
timeLeft (gameState (fst (startNextTurn s))) = timeLeft (gameState s) \/
timeLeft (gameState (fst (startNextTurn s))) = TURN_DURATION.
Proof.
destruct (Nat.le_gt_cases MAX_TURNS (turn (gameState s))) as [L | L].
- rewrite startNextTurn_last by exact L. left. reflexivity.
- rewrite startNextTurn_next by exact L. right. reflexivity.
Qed.

Lemma evaluateRound_timeLeft s :
timeLeft (gameState (fst (evaluateRound s))) = timeLeft (gameState s) \/
timeLeft (gameState (fst (evaluateRound s))) = TURN_DURATION.
Proof.
unfold evaluateRound. destruct (isEvaluating (gameState s)); [auto|]. simpl.
destruct (lastNode (chain (gameState s))); [|auto].
destruct (snapshot (players s)); [|auto].
match goal with |- context [startNextTurn ?x] => set (s1 := x) end.
pose proof (startNextTurn_timeLeft s1) as H.
destruct (startNextTurn s1) as [s2 o2]. exact H.
Qed.

Lemma step_timeLeft v s e :
timeLeft (gameState (fst (step lc uc v s e))) <= timeLeft (gameState s) \/
timeLeft (gameState (fst (step lc uc v s e))) = TURN_DURATION.
Proof.
destruct e as [sid nm | sid draw | sid w | sid | | k a draw]; simpl.
- destruct (io_use nm); [|auto]. unfold on_connection.
  destruct (_ || _); [auto|].
  destruct v; [destruct (_ && _)|]; simpl; auto.
- destruct (connected sid s); [|auto]. unfold on_startGame.
  destruct (mayStart v sid s); [|auto]. right. reflexivity.
- destruct (connected sid s); [|auto]. unfold on_submitGuess.
  destruct (acceptsGuess sid s); [|auto].
  destruct (forallb _ _); [|auto].
  pose proof (evaluateRound_timeLeft (recordGuess sid w s)) as H.
  destruct (evaluateRound (recordGuess sid w s)) as [s2 o2]. simpl in *.
  destruct H as [-> | H]; auto.
- destruct (connected sid s); [|auto]. unfold on_disconnect.
  destruct (get sid (players s)); [|auto].
  destruct (match hostId s with Some h => _ | None => _ end); simpl; auto.
- destruct (timerInterval s); [|auto]. unfold timerCallback.
  destruct (0 <? timeLeft (gameState s)); simpl.
  + destruct (_ <=? 0); [|simpl; left; lia].
    destruct (negb _); [|simpl; left; lia].
    match goal with |- context [evaluateRound ?x] => set (s2 := x) end.
    pose proof (evaluateRound_timeLeft s2) as H.
    destruct (evaluateRound s2) as [s3 o3]. simpl in *.
    destruct H as [-> | H]; [left; lia | auto].
  + destruct (_ <=? 0); [|auto].
    destruct (negb _); [|auto].
    match goal with |- context [evaluateRound ?x] => set (s2 := x) end.
    pose proof (evaluateRound_timeLeft s2) as H.
    destruct (evaluateRound s2) as [s3 o3]. simpl in *.
    destruct H as [-> | H]; auto.
- destruct (nth_error (pending s) k) as [gs|]; [|auto].
  unfold evaluateRound_resume.
  set (s0 := set_pending (remove_nth k (pending s)) s).
  pose proof (tryBlock_frame lc gs a draw s0) as (_ & _ & _ & Hg).
  destruct (tryBlock lc gs a draw s0) as [s1 m]. simpl in *.
  assert (Ht : timeLeft (gameState s1) = timeLeft (gameState s)).
  { destruct m as [m|]; [destruct Hg as [node ->] | rewrite Hg]; reflexivity. }
  pose proof (startNextTurn_timeLeft s1) as H.
  destruct (startNextTurn s1) as [s2 o2]. simpl in *.
  destruct H as [-> | H]; [left; lia | auto].
Qed.

(** X1. The roster never exceeds fifty players; every player in it has its
    own id, a name that is not empty and a colour of the palette. *)
Theorem roster_within_capacity v s :
reachable lc uc v s ->
length (players s) <= 50 /\ NoDup (map Player.id (players s)) /\
Forall (fun p => Player.name p <> "") (players s) /\
Forall (fun p => In (Player.color p) colors) (players s).
Proof.
intros Hr.
assert (HR : RosterOk s).
{ induction Hr as [|s e Hr IH].
  - unfold RosterOk. simpl. repeat split; auto. lia.
  - apply step_RosterOk; [exact (reachable_Inv _ _ _ _ Hr) | exact IH]. }
destruct HR as (H1 & H2 & H3).
destruct (reachable_Distinct _ _ _ _ Hr) as [HD _]. auto.
Qed.

(** X2. The two flags of a round are never set together; the timer is armed
    exactly while submissions are taken; at most one evaluation waits for
    its answer, and one waits exactly while a game is being played with
    [isEvaluating] set; a finished game stays closed to submissions. *)
Theorem flags_timer_and_pending_agree v s :
reachable lc uc v s ->
(isRoundActive (gameState s) = true -> isEvaluating (gameState s) = false) /\
(isRoundActive (gameState s) = true -> status (gameState s) = playing) /\
(timerInterval s = true <-> isRoundActive (gameState s) = true) /\
length (pending s) <= 1 /\
(pending s <> [] <->
 status (gameState s) = playing /\ isEvaluating (gameState s) = true) /\
(status (gameState s) = finished ->
 isRoundActive (gameState s) = false /\ isEvaluating (gameState s) = true).
Proof.
intros Hr. pose proof (reachable_Inv _ _ _ _ Hr) as HI.
unfold Inv, collecting, scoring in HI.
destruct (status (gameState s)).
- destruct HI as (Ha & He & Hti & Hp). rewrite Ha, He, Hti, Hp. simpl.
  intuition (try discriminate; try congruence; try lia).
- destruct HI as (_ & _ & [(Ha & He & Hti & Hp & _) | (Ha & He & Hti & gs & Hp)]);
    rewrite Ha, He, Hti, Hp; simpl;
    intuition (try discriminate; try congruence; try lia).
- destruct HI as (_ & Ha & He & Hti & Hp). rewrite Ha, He, Hti, Hp. simpl.
  intuition (try discriminate; try congruence; try lia).
Qed.

(** X3. The turn counter stays within the ten turns of a game, and a game is
    finished only at turn ten; the chain holds the seed and at most one
    node per completed turn; the time left never exceeds the thirty
    seconds of a turn and is at least one while the timer is armed. *)
Theorem turn_chain_and_timer_within_bounds v s :
reachable lc uc v s ->
turn (gameState s) <= MAX_TURNS /\
(status (gameState s) = playing -> 1 <= turn (gameState s)) /\
(status (gameState s) = finished -> turn (gameState s) = MAX_TURNS) /\
(status (gameState s) <> lobby ->
 1 <= length (chain (gameState s)) <= S (completedTurns s)) /\
timeLeft (gameState s) <= TURN_DURATION /\
(timerInterval s = true -> 1 <= timeLeft (gameState s)).
Proof.
intros Hr. pose proof (reachable_Inv _ _ _ _ Hr) as HI.
assert (HT : TurnOk s /\ timeLeft (gameState s) <= TURN_DURATION /\
             (status (gameState s) = lobby -> turn (gameState s) = 0)).
{ clear HI. induction Hr as [|s e Hr IH].
  - unfold TurnOk, TURN_DURATION. simpl. repeat split; auto. lia.
  - destruct IH as (IH1 & IH2 & IH3).
    pose proof (reachable_Inv _ _ _ _ Hr) as HI.
    split; [apply step_TurnOk; assumption|]. split.
    + destruct (step_timeLeft v s e) as [H | H]; [lia | rewrite H; lia].
    + destruct (step_kinds lc uc v s e HI) as [H | [H | H]].
      * destruct H as (_ & _ & _ & [(_ & Ht & Hs & _) | (_ & Hs & _)]).
        -- rewrite Ht, Hs. exact IH3.
        -- rewrite Hs. discriminate.
      * destruct H as (_ & _ & Hs0 & _ & _ & _ & _ & _ & _ & _ & Hs).
        rewrite Hs, Hs0. discriminate.
      * destruct H as (_ & _ & _ & _ & _ & [(_ & -> & _) | (_ & -> & _)] & _);
          discriminate. }
destruct HT as (HT & Htl & Hlob).
unfold TurnOk in HT. unfold Inv, collecting, scoring in HI.
unfold completedTurns.
destruct (status (gameState s)) eqn:Es.
- specialize (Hlob eq_refl). destruct HI as (_ & _ & Hti & _).
  rewrite Hti, Hlob.
  intuition (try discriminate; try congruence; try lia).
- destruct HI as (_ & Ht & Hph).
  destruct Hph as [(_ & _ & _ & _ & H) | (_ & _ & H & _)];
    intuition (try discriminate; try congruence; try lia).
- destruct HT as (Hm & Hl). destruct HI as (_ & _ & _ & Hti & _).
  rewrite Hti.
  intuition (try discriminate; try congruence; try lia).
Qed.

(** X4. In [src/index.js] the host is always a player of the roster; under
    [src/unnamed/part_000] no host is ever recorded. *)
Theorem host_is_in_roster v s :
reachable lc uc v s ->
match v with
| HostGated => forall h, hostId s = Some h -> connected h s = true
| OpenLobby => hostId s = None
end.
Proof.
intros Hr.
assert (HH : HostOk v s).
{ induction Hr as [|s e Hr IH].
  - destruct v; simpl; [discriminate | reflexivity].
  - apply step_HostOk; [exact (reachable_Inv _ _ _ _ Hr) | exact IH]. }
destruct v; [|exact HH].
intros h E. specialize (HH h E). unfold connected.
destruct (get h (players s)); [reflexivity | congruence].
Qed.

(** X5. A score is never negative and never above 7 points per completed
    turn, hence never above 70. *)
Theorem scores_within_bounds v s :
reachable lc uc v s ->
completedTurns s <= MAX_TURNS /\
Forall (fun p => (0 <= Player.score p <= 7 * Z.of_nat (completedTurns s))%Z)
       (players s).
Proof.
intros Hr. split.
- pose proof (reachable_Inv _ _ _ _ Hr) as HI.
  unfold Inv in HI. unfold completedTurns.
  assert (HT : TurnOk s).
  { clear HI. induction Hr as [|s e Hr IH]; [reflexivity|].
    apply step_TurnOk; [exact (reachable_Inv _ _ _ _ Hr) | exact IH]. }
  unfold TurnOk in HT.
  destruct (status (gameState s)); [lia | | ].
  + destruct HI as (_ & Ht & _). lia.
  + destruct HT as (Hm & _). lia.
- induction Hr as [|s e Hr IH]; [constructor|].
  apply step_ScoresOk;
    [exact (reachable_Inv _ _ _ _ Hr) | exact (reachable_Distinct _ _ _ _ Hr)
     | exact IH].
Qed.

(** ** Submissions and the guesses of an evaluation *)

Lemma reachable_submissions v s :
reachable lc uc v s ->
Forall coherent (players s) /\ Forall guessesOk (pending s).
Proof.
induction 1 as [|s e Hr (IH1 & IH2)].
- split; constructor.
- pose proof (reachable_Inv _ _ _ _ Hr) as HI.
  pose proof (step_coherent v s e HI IH1) as Hc.
  pose proof (step_Distinct lc uc v s e (reachable_Distinct _ _ _ _ Hr))
    as [Hd _].
  split; [exact Hc|].
  destruct (step_kinds lc uc v s e HI) as [H | [H | H]].
  + destruct H as (_ & _ & -> & _). exact IH2.
  + destruct H as (_ & _ & _ & _ & _ & _ & -> & Hn & _).
    constructor; [|constructor]. split; [exact Hn|].
    rewrite snapshot_ids. apply NoDup_map_filter. exact Hd.
  + destruct H as (_ & _ & _ & -> & _). constructor.
Qed.

(** X6. A word is recorded only for a player that has submitted, and the
    guesses an evaluation waits with are never empty and name each
    submitter once.  (A submission need not carry a word: the handler
    stores any payload.) *)
Theorem submission_fields_agree v s :
reachable lc uc v s ->
Forall coherent (players s) /\ Forall guessesOk (pending s).
Proof. exact (reachable_submissions v s). Qed.

Lemma sameGuess_entries l l' :
Forall2 (fun g g' => sameGuess g g') l l' -> map entry l' = map entry l.
Proof.
induction 1 as [|g g' l l' (Hi & Hw) _ IH]; simpl; [reflexivity|].
unfold entry at 1 3. rewrite Hi, Hw, IH. reflexivity.
Qed.

Lemma assignScores_entries rs gs scored :
assignScores lc rs gs = Some scored -> map entry scored = map entry gs.
Proof.
intros H. apply assignScores_keeps in H. apply sameGuess_entries.
eapply Forall2_impl; [|exact H]. intros a b [Hs _]. exact Hs.
Qed.

Lemma awardPoints_succeeds winner gs : forall ps lines,
Forall (fun g => get (Guess.groupId g) ps <> None) gs ->
snd (awardPoints winner gs ps lines) <> None.
Proof.
induction gs as [|g gs IH]; simpl; intros ps lines H; [discriminate|].
inversion H as [|? ? Hg Hgs]; subst.
destruct (get (Guess.groupId g) ps) as [p|]; [|congruence].
apply IH. eapply Forall_impl; [|exact Hgs].
intros a Ha. unfold modify. apply get_map_some; [|exact Ha].
intros q. destruct (String.eqb (Player.id q) (Guess.groupId g)); reflexivity.
Qed.

(** With every guess a string, a readable answer and every submitter
    still in the roster the [try] block runs to its end. *)
Lemma tryBlock_succeeds guesses rs draw s :
guesses <> [] -> allWords guesses ->
Forall (fun r => Result.word r <> None) rs ->
Forall (fun g => get (Guess.groupId g) (players s) <> None) guesses ->
snd (tryBlock lc guesses (results rs) draw s) <> None.
Proof.
intros Hne Hw Hrs Hin.
destruct (assignScores_total lc rs guesses Hrs Hw) as [scored Hs].
pose proof (proj1 (assignScores_ids lc rs guesses scored Hs)) as Hids.
pose proof (Array_sort_perm scored) as Hperm.
unfold tryBlock. rewrite Hs.
assert (Hall : Forall (fun g => get (Guess.groupId g) (players s) <> None)
                      (Array_sort byScoreDesc scored)).
{ apply Forall_forall. intros g Hg.
  apply (Permutation_in _ (Permutation_sym Hperm)) in Hg.
  assert (Hi : In (Guess.groupId g) (map Guess.groupId guesses))
    by (rewrite <- Hids; apply in_map; exact Hg).
  apply in_map_iff in Hi. destruct Hi as (g0 & E & Hg0).
  rewrite Forall_forall in Hin. rewrite <- E. exact (Hin g0 Hg0). }
destruct (Array_sort byScoreDesc scored) as [|w rest] eqn:Eo.
- exfalso. apply Permutation_sym, Permutation_nil in Hperm. subst scored.
  destruct guesses; [congruence | discriminate].
- inversion Hall as [|? ? Hgw _]; subst.
  destruct (get (Guess.groupId w) (players s)) as [wp|]; [|congruence].
  pose proof (awardPoints_succeeds w (w :: rest) (players s) [] Hall) as Ha.
  destruct (awardPoints w (w :: rest) (players s) []) as [ps [lines|]];
    [|simpl in Ha; congruence].
  assert (Hlt : draw mod length (w :: rest) < length (w :: rest))
    by (apply Nat.mod_upper_bound; discriminate).
  apply nth_error_Some in Hlt.
  destruct (nth_error (w :: rest) _); [discriminate | congruence].
Qed.

Lemma resume_chain guesses a draw s :
chain (gameState (fst (evaluateRound_resume lc guesses a draw s)))
= chain (gameState (fst (tryBlock lc guesses a draw s))) /\
snd (evaluateRound_resume lc guesses a draw s)
= match snd (tryBlock lc guesses a draw s) with
  | Some m => [emit_roundResult m]
  | None => [console_error; emit_roundResult OracleError]
  end ++ snd (startNextTurn (fst (tryBlock lc guesses a draw s))).
Proof.
unfold evaluateRound_resume.
destruct (tryBlock lc guesses a draw s) as [s1 m]. simpl.
destruct (Nat.le_gt_cases MAX_TURNS (turn (gameState s1))) as [L | L].
- rewrite startNextTurn_last by exact L. auto.
- rewrite startNextTurn_next by exact L. auto.
Qed.

Lemma answered_round v s guesses rs draw :
reachable lc uc v s -> pending s = [guesses] -> allWords guesses ->
Forall (fun r => Result.word r <> None) rs ->
Forall (fun g => connected (Guess.groupId g) s = true) guesses ->
let r := step lc uc v s (oracleAnswer 0 (results rs) draw) in
exists scored nx,
  assignScores lc rs guesses = Some scored /\
  nth_error (Array_sort byScoreDesc scored) (draw mod length guesses) = Some nx /\
  In (entry nx) (map entry guesses) /\
  chain (gameState (fst r))
  = chain (gameState s) ++ [Node.mk (Guess.word nx) (Some (Guess.groupId nx))] /\
  count is_roundResult (snd r) = 1 /\ existsb is_skip (snd r) = false.
Proof.
intros Hr Hp Hw Hrs Hcon r.
destruct (reachable_submissions v s Hr) as [_ Hgs].
rewrite Hp in Hgs. inversion Hgs as [|? ? [Hne _] _]; subst.
assert (Hin : Forall (fun g => get (Guess.groupId g) (players (set_pending [] s))
                               <> None) guesses).
{ eapply Forall_impl; [|exact Hcon]. intros g Hg. unfold connected in Hg.
  simpl. destruct (get (Guess.groupId g) (players s)); [discriminate | congruence]. }
pose proof (tryBlock_succeeds guesses rs draw (set_pending [] s) Hne Hw Hrs Hin)
  as Hsome.
destruct (snd (tryBlock lc guesses (results rs) draw (set_pending [] s)))
  as [m|] eqn:Em; [|congruence].
destruct (tryBlock_summary lc _ _ _ _ _ Em)
  as (rs' & scored & w & rest & wp & nx & lines & Ha & Hs & Ho & _ & Hn & _ & Hc & Hm).
injection Ha as <-.
pose proof (Array_sort_perm scored) as Hperm.
assert (Hlen : length (w :: rest) = length guesses).
{ rewrite <- Ho, <- (Permutation_length Hperm).
  rewrite <- (length_map entry scored), (assignScores_entries _ _ _ Hs).
  apply length_map. }
exists scored, nx. split; [exact Hs|]. rewrite Ho, <- Hlen.
split; [exact Hn|]. split.
- rewrite <- (assignScores_entries _ _ _ Hs). apply in_map.
  apply (Permutation_in _ (Permutation_sym Hperm)). rewrite Ho.
  exact (nth_error_In _ _ Hn).
- subst r. unfold step. rewrite Hp. simpl.
  destruct (resume_chain guesses (results rs) draw (set_pending [] s)) as [E1 E2].
  rewrite E1, E2, Em, Hc.
  pose proof (reachable_Inv _ _ _ _ Hr) as HI.
  assert (Hk : nth_error (pending s) 0 = Some guesses) by (rewrite Hp; reflexivity).
  destruct (Inv_pending s guesses 0 HI Hk) as (_ & _ & _ & _ & Ht & _).
  assert (Hle : turn (gameState (fst (tryBlock lc guesses (results rs) draw
                                                 (set_pending [] s)))) <= MAX_TURNS).
  { pose proof (tryBlock_frame lc guesses (results rs) draw (set_pending [] s))
      as (_ & _ & _ & Hg). rewrite Em in Hg. destruct Hg as [node ->]. simpl. lia. }
  pose proof (startNextTurn_effects _ Hle) as (C1 & _ & C3 & _).
  split; [reflexivity|]. split.
  + rewrite count_app, C1. reflexivity.
  + rewrite existsb_app, C3, Hm. reflexivity.
Qed.

Lemma NoDup_map_Some {A : Type} (l : list A) :
NoDup l -> NoDup (map (@Some A) l).
Proof.
induction 1 as [|x l Hx _ IH]; simpl; constructor; [|exact IH].
intros Hin. apply in_map_iff in Hin. destruct Hin as (y & E & Hy).
injection E as ->. contradiction.
Qed.

Lemma nodeOf_entry l : map nodeOf l = map (fun e => Node.mk (snd e) (Some (fst e))) (map entry l).
Proof. rewrite map_map. reflexivity. Qed.

(** X7. When every submitted guess is a string, the answer of the scoring
    service names a word in every entry and every submitter is still
    connected, the round is not skipped: one round summary is broadcast,
    and the chain grows by the word of one of the submissions, attributed
    to its submitter and picked by the draw from the ranking. *)
Theorem answered_round_extends_chain v s guesses rs draw :
reachable lc uc v s -> pending s = [guesses] -> allWords guesses ->
Forall (fun r => Result.word r <> None) rs ->
Forall (fun g => connected (Guess.groupId g) s = true) guesses ->
let r := step lc uc v s (oracleAnswer 0 (results rs) draw) in
exists scored nx,
  assignScores lc rs guesses = Some scored /\
  nth_error (Array_sort byScoreDesc scored) (draw mod length guesses) = Some nx /\
  In (entry nx) (map entry guesses) /\
  chain (gameState (fst r))
  = chain (gameState s) ++ [Node.mk (Guess.word nx) (Some (Guess.groupId nx))] /\
  count is_roundResult (snd r) = 1 /\ existsb is_skip (snd r) = false.
Proof. exact (answered_round v s guesses rs draw). Qed.

(** X8. The next word of the chain is the guess at the drawn index of the
    ranking, not the winner's: in such a round the ranking is a
    rearrangement of the submissions, each index below the number of
    guesses appends the node of a different submission, and so every
    submission is appended for some draw, whatever its rank. *)
Theorem any_submission_can_be_drawn v s guesses rs :
reachable lc uc v s -> pending s = [guesses] -> allWords guesses ->
Forall (fun r => Result.word r <> None) rs ->
Forall (fun g => connected (Guess.groupId g) s = true) guesses ->
let next draw :=
  chain (gameState (fst (step lc uc v s (oracleAnswer 0 (results rs) draw)))) in
exists ranked,
  Permutation (map nodeOf ranked) (map nodeOf guesses) /\
  NoDup (map nodeOf ranked) /\
  (forall draw, exists nx,
     nth_error ranked (draw mod length guesses) = Some nx /\
     next draw = chain (gameState s) ++ [nodeOf nx]) /\
  (forall g, In g guesses ->
     exists draw, draw < length guesses /\
                  next draw = chain (gameState s) ++ [nodeOf g]).
Proof.
intros Hr Hp Hw Hrs Hcon next.
destruct (answered_round v s guesses rs 0 Hr Hp Hw Hrs Hcon)
  as (scored & _ & Hs & _).
pose proof (Array_sort_perm scored) as Hperm.
set (ranked := Array_sort byScoreDesc scored) in *.
assert (Hnodes : Permutation (map nodeOf ranked) (map nodeOf guesses)).
{ rewrite (nodeOf_entry guesses), <- (assignScores_entries _ _ _ Hs).
  rewrite <- nodeOf_entry. apply Permutation_sym, Permutation_map. exact Hperm. }
assert (Hnd : NoDup (map nodeOf guesses)).
{ destruct (reachable_submissions v s Hr) as [_ Hgs].
  rewrite Hp in Hgs. inversion Hgs as [|? ? [_ Hd] _]; subst.
  apply (NoDup_map_inv (fun n => Node.playerId n)).
  rewrite map_map. simpl.
  rewrite <- (map_map Guess.groupId (@Some string)).
  apply NoDup_map_Some. exact Hd. }
assert (Hat : forall draw, exists nx,
          nth_error ranked (draw mod length guesses) = Some nx /\
          next draw = chain (gameState s) ++ [nodeOf nx]).
{ intros draw.
  destruct (answered_round v s guesses rs draw Hr Hp Hw Hrs Hcon)
    as (scored' & nx & Hs' & Hnx & _ & Hc & _).
  rewrite Hs in Hs'. injection Hs' as <-.
  exists nx. split; [exact Hnx | exact Hc]. }
exists ranked. split; [exact Hnodes|]. split.
{ apply (Permutation_NoDup (Permutation_sym Hnodes)). exact Hnd. }
split; [exact Hat|].
intros g Hg.
assert (Hin : In (nodeOf g) (map nodeOf ranked)).
{ apply (Permutation_in _ (Permutation_sym Hnodes)). apply in_map. exact Hg. }
apply in_map_iff in Hin. destruct Hin as (g' & Eg & Hg').
destruct (In_nth_error _ _ Hg') as [n Hn].
assert (Hlt : n < length guesses).
{ assert (Hl : n < length ranked)
    by (apply nth_error_Some; rewrite Hn; discriminate).
  rewrite <- (length_map nodeOf ranked), (Permutation_length Hnodes) in Hl.
  rewrite length_map in Hl. exact Hl. }
exists n. split; [exact Hlt|].
destruct (Hat n) as (nx & Hnx & Hc).
rewrite Nat.mod_small in Hnx by exact Hlt.
rewrite Hn in Hnx. injection Hnx as <-.
rewrite Hc, Eg. reflexivity.
Qed.

(** ** The timer *)

Lemma tick_counts_down v s :
timerInterval s = true -> 2 <= timeLeft (gameState s) ->
step lc uc v s tick
= (set_gameState (gs_set_timeLeft (timeLeft (gameState s) - 1) (gameState s)) s,
   [emit_timer (timeLeft (gameState s) - 1)]).
Proof.
intros Hti Ht. simpl. rewrite Hti. unfold timerCallback.
destruct (0 <? timeLeft (gameState s)) eqn:E0;
  [|apply Nat.ltb_ge in E0; lia].
simpl.
destruct (timeLeft (gameState s) - 1 <=? 0) eqn:E1;
  [apply Nat.leb_le in E1; lia | reflexivity].
Qed.

Lemma ticks_count_down v k : forall s,
timerInterval s = true -> k < timeLeft (gameState s) ->
run lc uc v s (repeat tick k)
= (set_gameState (gs_set_timeLeft (timeLeft (gameState s) - k) (gameState s)) s,
   map (fun i => emit_timer (timeLeft (gameState s) - S i)) (seq 0 k)).
Proof.
induction k as [|k IH]; intros s Hti Hlt.
- simpl. rewrite Nat.sub_0_r. destruct s as [ps h [st gp gh c t m a ev tl] ti pd].
  reflexivity.
- cbn [repeat run]. rewrite tick_counts_down by (auto; lia).
  rewrite IH by (simpl; auto; lia). simpl.
  replace (timeLeft (gameState s) - 1 - k) with (timeLeft (gameState s) - S k)
    by lia.
  f_equal. f_equal.
  rewrite <- seq_shift, map_map. apply map_ext. intros i. f_equal. lia.
Qed.

Lemma run_app v l1 : forall s l2,
run lc uc v s (l1 ++ l2)
= (fst (run lc uc v (fst (run lc uc v s l1)) l2),
   snd (run lc uc v s l1) ++ snd (run lc uc v (fst (run lc uc v s l1)) l2)).
Proof.
induction l1 as [|e l1 IH]; intros s l2; simpl.
- destruct (run lc uc v s l2); reflexivity.
- destruct (step lc uc v s e) as [s1 o1]. rewrite IH.
  destruct (run lc uc v s1 l1) as [s2 o2]. simpl.
  destruct (run lc uc v s2 l2) as [s3 o3]. simpl.
  rewrite app_assoc. reflexivity.
Qed.

Lemma count_timers f (l : list nat) (g : nat -> nat) :
(forall t, f (emit_timer t) = false) ->
count f (map (fun i => emit_timer (g i)) l) = 0.
Proof.
intros Hf. induction l as [|x l IH]; [reflexivity|].
simpl. rewrite count_cons_false by apply Hf. exact IH.
Qed.

(** The callback that brings the time left to zero. *)
Lemma final_tick v s :
ready s -> timerInterval s = true -> timeLeft (gameState s) = 1 ->
let r := step lc uc v s tick in
(snapshot (players s) <> [] ->
 count is_request (snd r) = 1 /\ count is_roundResult (snd r) = 0 /\
 isEvaluating (gameState (fst r)) = true /\
 isRoundActive (gameState (fst r)) = false /\ timerInterval (fst r) = false /\
 pending (fst r) = [snapshot (players s)] /\ players (fst r) = players s /\
 turn (gameState (fst r)) = turn (gameState s) /\
 chain (gameState (fst r)) = chain (gameState s)) /\
(snapshot (players s) = [] ->
 count is_request (snd r) = 0 /\
 filter is_roundResult (snd r) = [emit_roundResult NobodyPlayed] /\
 pending (fst r) = [] /\
 chain (gameState (fst r)) = chain (gameState s) /\
 completedTurns (fst r) = S (completedTurns s)).
Proof.
intros Hready Hti H1 r. subst r. simpl. rewrite Hti.
pose proof Hready as (Hst & Hc & Ht & He & Hp).
unfold timerCallback. rewrite H1. simpl. rewrite He. simpl.
match goal with |- context [evaluateRound ?x] => set (s2 := x) end.
assert (Hready2 : ready s2) by (unfold ready; simpl; auto).
destruct (lastNode_nonempty _ Hc) as [n Hn].
split.
- intros Hsn. unfold evaluateRound. subst s2. simpl. rewrite He, Hn.
  destruct (snapshot (players s)) as [|g gs] eqn:Eg; [congruence|].
  simpl. rewrite Hp. repeat split; reflexivity.
- intros Hsn.
  destruct (evaluateRound_silent s2 Hready2 Hsn) as (_ & _ & H3 & H4).
  assert (Hcs : completedTurns s2 = completedTurns s)
    by (unfold completedTurns; simpl; reflexivity).
  rewrite Hcs in H4. clear Hcs.
  change (chain (gameState s2)) with (chain (gameState s)) in H3.
  revert H3 H4. unfold evaluateRound. subst s2. simpl. rewrite He, Hn, Hsn.
  match goal with |- context [startNextTurn ?x] => set (s3 := x) end.
  assert (Hle : turn (gameState s3) <= MAX_TURNS) by (simpl; lia).
  pose proof (startNextTurn_effects s3 Hle) as (C1 & C2 & _ & C4 & _).
  destruct (startNextTurn s3) as [s4 o4]. cbn [fst snd] in *.
  intros H3 H4.
  unfold count in *. simpl.
  apply length_zero_iff_nil in C1. rewrite C1, C2, C4.
  repeat split; auto.
Qed.

(** X9. While the timer is armed each callback lowers the time left by one and
    broadcasts it, and does nothing else, until the callback that brings
    it to zero: that one starts the evaluation of the turn.  If somebody
    has submitted, it sends the one request and leaves the evaluation
    waiting with the submissions of the roster, [isEvaluating] set,
    submissions closed and the timer cancelled, with no round result
    yet; if nobody has, it sends no request, broadcasts the one round
    result, that nobody played, and the turn is completed with the chain
    as it was. *)
Theorem timer_counts_down_then_evaluates v s :
reachable lc uc v s -> timerInterval s = true ->
(forall k, k < timeLeft (gameState s) ->
   run lc uc v s (repeat tick k)
   = (set_gameState (gs_set_timeLeft (timeLeft (gameState s) - k) (gameState s)) s,
      map (fun i => emit_timer (timeLeft (gameState s) - S i)) (seq 0 k))) /\
(let r := run lc uc v s (repeat tick (timeLeft (gameState s))) in
 (snapshot (players s) <> [] ->
  count is_request (snd r) = 1 /\ count is_roundResult (snd r) = 0 /\
  isEvaluating (gameState (fst r)) = true /\
  isRoundActive (gameState (fst r)) = false /\ timerInterval (fst r) = false /\
  pending (fst r) = [snapshot (players s)] /\ players (fst r) = players s /\
  turn (gameState (fst r)) = turn (gameState s) /\
  chain (gameState (fst r)) = chain (gameState s)) /\
 (snapshot (players s) = [] ->
  count is_request (snd r) = 0 /\
  filter is_roundResult (snd r) = [emit_roundResult NobodyPlayed] /\
  pending (fst r) = [] /\
  chain (gameState (fst r)) = chain (gameState s) /\
  completedTurns (fst r) = S (completedTurns s))).
Proof.
intros Hr Hti. split; [intros k Hk; apply ticks_count_down; assumption|].
pose proof (reachable_Inv _ _ _ _ Hr) as HI.
destruct (Inv_timer s HI Hti) as (Hst & Hc & Ht & (Ha & He & _ & Hp & Htl)).
set (t := timeLeft (gameState s)) in *.
assert (Hrep : repeat tick t = repeat tick (t - 1) ++ [tick]).
{ replace t with ((t - 1) + 1) at 1 by lia. apply repeat_app. }
rewrite Hrep, run_app.
rewrite ticks_count_down by (auto; fold t; lia). fold t.
cbn [fst snd]. replace (t - (t - 1)) with 1 by lia.
set (s1 := set_gameState (gs_set_timeLeft 1 (gameState s)) s).
assert (Hready : ready s1) by (unfold ready; simpl; auto).
pose proof (final_tick v s1 Hready Hti eq_refl) as H.
assert (E : run lc uc v s1 [tick] = (fst (step lc uc v s1 tick),
                                     snd (step lc uc v s1 tick))).
{ cbn [run]. destruct (step lc uc v s1 tick) as [s2 o2].
  rewrite app_nil_r. reflexivity. }
rewrite E. cbn [fst snd]. rewrite !count_app, filter_app.
rewrite !count_timers by reflexivity.
assert (Ef : filter is_roundResult
               (map (fun i => emit_timer (t - S i)) (seq 0 (t - 1))) = []).
{ apply length_zero_iff_nil. apply (count_timers is_roundResult); reflexivity. }
rewrite Ef.
change (players s1) with (players s) in H.
change (turn (gameState s1)) with (turn (gameState s)) in H.
change (chain (gameState s1)) with (chain (gameState s)) in H.
assert (Hcs : completedTurns s1 = completedTurns s)
  by (unfold completedTurns; simpl; reflexivity).
rewrite Hcs in H. exact H.
Qed.

(** ** A turn in which nobody submits *)

(** X10. When the timer runs out with nothing submitted, the round is
    announced as not played: one round result with that notice, no
    request to the scoring service, the chain and every score as they
    were.  The game then moves to the next turn with its timer armed at
    thirty seconds, or, after the last turn, finishes with the game-over
    broadcast of the roster. *)
Theorem silent_round_skips_turn v s :
reachable lc uc v s -> timerInterval s = true ->
snapshot (players s) = [] -> timeLeft (gameState s) = 1 ->
let r := step lc uc v s tick in
filter is_roundResult (snd r) = [emit_roundResult NobodyPlayed] /\
count is_request (snd r) = 0 /\
chain (gameState (fst r)) = chain (gameState s) /\
map Player.id (players (fst r)) = map Player.id (players s) /\
map Player.score (players (fst r)) = map Player.score (players s) /\
((turn (gameState s) < MAX_TURNS /\ status (gameState (fst r)) = playing /\
  turn (gameState (fst r)) = S (turn (gameState s)) /\
  isRoundActive (gameState (fst r)) = true /\ timerInterval (fst r) = true /\
  timeLeft (gameState (fst r)) = TURN_DURATION) \/
 (turn (gameState s) = MAX_TURNS /\ status (gameState (fst r)) = finished /\
  In (emit_gameOver (players s) (hostId s)) (snd r))).
Proof.
intros Hr Hti Hsn H1 r. subst r.
pose proof (reachable_Inv _ _ _ _ Hr) as HI.
destruct (Inv_timer s HI Hti) as (Hst & Hc & Ht & (Ha & He & _ & Hp & Htl)).
simpl. rewrite Hti. unfold timerCallback. rewrite H1. simpl.
rewrite He. simpl. unfold evaluateRound. simpl. rewrite He.
destruct (lastNode_nonempty _ Hc) as [n Hn]. rewrite Hn, Hsn.
destruct (Nat.le_gt_cases MAX_TURNS (turn (gameState s))) as [L | L].
- rewrite startNextTurn_last by exact L. simpl.
  repeat split; auto. right. repeat split; auto; lia.
- rewrite startNextTurn_next by exact L. simpl. rewrite !map_map. simpl.
  repeat split; auto. left. repeat split; auto.
Qed.

(** ** The submission that completes a round *)

Lemma forallb_after_submit sid w ps :
forallb Player.submitted (modify sid (Player.with_submission true w) ps) = true
<-> forall p, In p ps -> Player.id p <> sid -> Player.submitted p = true.
Proof.
unfold modify. rewrite forallb_forall. split.
- intros H p Hin Hne.
  specialize (H _ (in_map _ _ _ Hin)). cbv beta in H.
  destruct (String.eqb_spec (Player.id p) sid); [congruence | exact H].
- intros H q Hq. apply in_map_iff in Hq. destruct Hq as (p & <- & Hin).
  destruct (String.eqb_spec (Player.id p) sid); [reflexivity | auto].
Qed.

Lemma snapshot_all ps :
forallb Player.submitted ps = true -> length (snapshot ps) = length ps.
Proof.
intros H. unfold snapshot. rewrite length_map.
induction ps as [|p ps IH]; simpl in *; [reflexivity|].
apply andb_true_iff in H. destruct H as [-> H]. simpl. rewrite IH; auto.
Qed.

(** X11. An accepted submission starts the evaluation at once exactly when it
    leaves nobody in the roster without a submission: the timer is
    cancelled (later callbacks do nothing), submissions are closed, and
    one request goes out with a guess for every player.  While somebody
    is still missing, the submission is recorded and broadcast, and the
    round goes on as it was. *)
Theorem last_submission_starts_evaluation v s sid word :
reachable lc uc v s -> acceptsGuess sid s = true ->
let r := step lc uc v s (submitGuess sid word) in
((forall p, In p (players s) -> Player.id p <> sid -> Player.submitted p = true) ->
 isEvaluating (gameState (fst r)) = true /\
 isRoundActive (gameState (fst r)) = false /\
 timerInterval (fst r) = false /\
 pending (fst r) = [snapshot (players (fst r))] /\
 length (snapshot (players (fst r))) = length (players s) /\
 count is_request (snd r) = 1 /\
 turn (gameState (fst r)) = turn (gameState s) /\
 forall n, run lc uc v (fst r) (repeat tick n) = (fst r, [])) /\
((exists p, In p (players s) /\ Player.id p <> sid /\ Player.submitted p = false) ->
 gameState (fst r) = gameState s /\ timerInterval (fst r) = timerInterval s /\
 pending (fst r) = pending s /\
 snd r = [emit_gameState (gameState s) (Some (players (fst r)))]).
Proof.
intros Hr Hacc r. pose proof (reachable_Inv _ _ _ _ Hr) as HI.
pose proof Hacc as Hacc'. unfold acceptsGuess in Hacc'.
destruct (get sid (players s)) as [p0|] eqn:Hg; [|discriminate].
apply andb_true_iff in Hacc'. destruct Hacc' as [Ha _].
destruct (Inv_active s HI Ha) as (Hst & Hc & Ht & (_ & He & Hti & Hp & _)).
assert (Hcon : connected sid s = true) by (unfold connected; rewrite Hg; reflexivity).
assert (Er : r = on_submitGuess sid word s) by (subst r; simpl; rewrite Hcon; reflexivity).
unfold on_submitGuess in Er. rewrite Hacc in Er.
split.
- intros Hall. apply (forallb_after_submit sid word) in Hall.
  change (modify sid (Player.with_submission true word) (players s))
    with (players (recordGuess sid word s)) in Hall.
  rewrite Hall in Er.
  assert (Hready : ready (recordGuess sid word s)) by (unfold ready; simpl; auto).
  assert (Hsn : snapshot (players (recordGuess sid word s)) <> []).
  { pose proof (get_modify_same sid (Player.with_submission true word)
                  (players s) p0 (fun q => eq_refl) Hg) as Hm.
    destruct (get_In _ _ _ Hm) as [Hin _].
    exact (snapshot_nonempty _ _ Hin eq_refl). }
  pose proof (evaluateRound_players _ Hsn) as Hpl.
  pose proof (evaluateRound_Inv _ Hready) as HI2.
  pose proof (evaluateRound_open _ Hready) as H.
  destruct (evaluateRound (recordGuess sid word s)) as [s2 o2].
  rewrite Er. cbn [fst snd] in *.
  destruct H as [H | (H & _)]; [|congruence].
  destruct H as (C1 & C2 & _ & _ & He2 & _ & Hp2 & _ & _ & Ht2 & Hs2).
  assert (Hphase : isRoundActive (gameState s2) = false /\ timerInterval s2 = false).
  { unfold Inv, collecting, scoring in HI2. rewrite Hs2 in HI2.
    cbn [recordGuess set_players gameState] in HI2. rewrite Hst in HI2.
    destruct HI2 as (_ & _ & [(_ & H & _) | (H1 & _ & H3 & _)]);
      [congruence | auto]. }
  destruct Hphase as [Ha2 Hti2].
  split; [exact He2|]. split; [exact Ha2|]. split; [exact Hti2|].
  split; [exact Hp2|]. split.
  { rewrite Hpl. rewrite snapshot_all by exact Hall.
    unfold recordGuess, modify. simpl. apply length_map. }
  split; [rewrite count_app, C2; reflexivity|].
  split; [exact Ht2|].
  intros n. induction n as [|n IH]; [reflexivity|].
  cbn [repeat run]. cbn [step]. rewrite Hti2. rewrite IH. reflexivity.
- intros (p & Hin & Hne & Hs).
  assert (Hnot : forallb Player.submitted (players (recordGuess sid word s)) = false).
  { destruct (forallb Player.submitted (players (recordGuess sid word s))) eqn:E;
      [|reflexivity].
    change (players (recordGuess sid word s))
      with (modify sid (Player.with_submission true word) (players s)) in E.
    pose proof (proj1 (forallb_after_submit sid word (players s)) E p
                      Hin Hne).
    congruence. }
  rewrite Hnot in Er. rewrite Er. cbn [fst snd]. auto.
Qed.

(** ** Starting a game *)

Lemma mayStart_iff v sid s :
mayStart v sid s = true <->
match v with
| HostGated => hostId s = Some sid /\ status (gameState s) <> playing
| OpenLobby => status (gameState s) = lobby
end.
Proof.
unfold mayStart. destruct v.
- destruct (hostId s) as [h|]; [|split; [discriminate | intros [H _]; discriminate]].
  rewrite andb_true_iff, negb_true_iff, String.eqb_eq. split.
  + intros [-> H]. split; [reflexivity|]. intros E. rewrite E in H. discriminate.
  + intros [E H]. injection E as ->. split; [reflexivity|].
    destruct (status (gameState s)); [reflexivity | congruence | reflexivity].
- apply Status_eqb_eq.
Qed.

(** X12. The start command is taken from a connected socket that is the host
    of a session not being played ([src/index.js]) or, in
    [src/unnamed/part_000], from any connected socket while in the lobby.
    It then opens turn 1: the chain is one seed word of the fixed list
    with no player, every score is zero and nothing is submitted, the
    roster keeps its players, names and colours in order, submissions are
    open and the timer is armed at thirty seconds; the new state and the
    timer value are broadcast.  Any other start command changes nothing. *)
Theorem accepted_start_opens_first_turn v s sid draw :
let allowed :=
  connected sid s = true /\
  match v with
  | HostGated => hostId s = Some sid /\ status (gameState s) <> playing
  | OpenLobby => status (gameState s) = lobby
  end in
let r := step lc uc v s (startGame sid draw) in
(allowed ->
 status (gameState (fst r)) = playing /\ turn (gameState (fst r)) = 1 /\
 (exists w, In w seedWords /\
            chain (gameState (fst r)) = [Node.mk (Some w) None]) /\
 isRoundActive (gameState (fst r)) = true /\
 isEvaluating (gameState (fst r)) = false /\
 timeLeft (gameState (fst r)) = TURN_DURATION /\ timerInterval (fst r) = true /\
 map (fun p => (Player.id p, Player.name p, Player.color p)) (players (fst r))
 = map (fun p => (Player.id p, Player.name p, Player.color p)) (players s) /\
 Forall (fun p => Player.score p = 0%Z /\ Player.submitted p = false /\
                  Player.lastGuess p = None) (players (fst r)) /\
 snd r = [emit_gameState (gameState (resetGame draw s)) None;
          emit_timer TURN_DURATION]) /\
(~ allowed -> r = (s, [])).
Proof.
intros allowed r. subst allowed r. cbn [step]. split.
- intros [Hc Hm]. apply mayStart_iff in Hm. rewrite Hc.
  unfold on_startGame. rewrite Hm.
  assert (Hseed : exists w, In w seedWords /\
            chain (gameState (resetGame draw s)) = [Node.mk (Some w) None]).
  { unfold resetGame. cbn [chain gameState set_gameState].
    destruct (nth_error seedWords (draw mod length seedWords)) as [w|] eqn:E.
    - exists w. split; [exact (nth_error_In _ _ E) | reflexivity].
    - apply nth_error_None in E.
      assert (Hl : length seedWords <> 0) by discriminate.
      pose proof (Nat.mod_upper_bound draw (length seedWords) Hl). lia. }
  split; [reflexivity|]. split; [reflexivity|]. split; [exact Hseed|].
  split; [reflexivity|]. split; [reflexivity|]. split; [reflexivity|].
  split; [reflexivity|]. split.
  { unfold startTurnTimer, resetGame. cbn [fst players set_players set_gameState
                                              set_timerInterval].
    rewrite map_map. reflexivity. }
  split; [|reflexivity].
  unfold startTurnTimer, resetGame. cbn [fst players set_players set_gameState
                                            set_timerInterval].
  apply Forall_forall. intros p Hp. apply in_map_iff in Hp.
  destruct Hp as (q & <- & _). auto.
- intros Hn. destruct (connected sid s) eqn:Hc; [|reflexivity].
  unfold on_startGame. destruct (mayStart v sid s) eqn:Hm; [|reflexivity].
  exfalso. apply Hn. split; [reflexivity|]. apply mayStart_iff. exact Hm.
Qed.

(** ** The host of [src/index.js] *)

(** X13. Whoever joins under the name LIDER, in any letter case, becomes the
    host, also when the session already has one (no player is ever marked
    as host, so the test for an existing one never holds): from then on
    the start command of the newcomer is accepted and that of every other
    socket is ignored. *)
Theorem latest_lider_becomes_host s sid name draw :
io_use name = true -> status (gameState s) <> playing ->
length (players s) < 50 -> uc name = "LIDER" ->
let s1 := fst (step lc uc HostGated s (connection sid name)) in
hostId s1 = Some sid /\
status (gameState (fst (step lc uc HostGated s1 (startGame sid draw)))) = playing /\
forall h, h <> sid -> step lc uc HostGated s1 (startGame h draw) = (s1, []).
Proof.
intros Hio Hst Hlt Hn s1.
assert (E1 : hostId s1 = Some sid /\ get sid (players s1) <> None /\
             status (gameState s1) = status (gameState s)).
{ subst s1. simpl. rewrite Hio. unfold on_connection.
  assert (Es : Status_eqb (status (gameState s)) playing = false).
  { destruct (status (gameState s)); [reflexivity | congruence | reflexivity]. }
  apply Nat.leb_gt in Hlt. rewrite Es, Hlt, Hn, existsb_isHost. simpl.
  rewrite get_set_same by reflexivity. repeat split. discriminate. }
destruct E1 as (Hh & Hg & Hs1). split; [exact Hh|]. split.
- simpl. unfold connected. destruct (get sid (players s1)); [|congruence].
  unfold on_startGame, mayStart. rewrite Hh, String.eqb_refl, Hs1.
  destruct (status (gameState s)); [reflexivity | congruence | reflexivity].
- intros h Hne. simpl. destruct (connected h s1); [|reflexivity].
  unfold on_startGame, mayStart. rewrite Hh.
  destruct (String.eqb_spec h sid); [congruence | reflexivity].
Qed.

(** X14. When the host disconnects the session has no host: the other players
    keep their records, and no start command is accepted (until somebody
    joins as LIDER). *)
Theorem host_departure_blocks_start s h :
hostId s = Some h -> connected h s = true ->
let s1 := fst (step lc uc HostGated s (disconnect h)) in
hostId s1 = None /\ get h (players s1) = None /\
(forall k, k <> h -> get k (players s1) = get k (players s)) /\
forall sid draw, step lc uc HostGated s1 (startGame sid draw) = (s1, []).
Proof.
intros Hh Hc s1.
assert (E : hostId s1 = None /\ players s1 = delete h (players s)).
{ subst s1. simpl. rewrite Hc. unfold on_disconnect.
  unfold connected in Hc. destruct (get h (players s)); [|discriminate].
  rewrite Hh, String.eqb_refl. auto. }
destruct E as [E1 E2]. split; [exact E1|].
split; [rewrite E2; apply get_delete_same|].
split; [intros k Hk; rewrite E2; apply get_delete_other; exact Hk|].
intros sid draw. simpl. destruct (connected sid s1); [|reflexivity].
unfold on_startGame, mayStart. rewrite E1. reflexivity.
Qed.

(** ** Joining and leaving *)


(** X16. Neither a departure nor a submission touches the record of another
    player, and neither changes the order of the roster. *)
Theorem others_keep_their_record v s sid :
reachable lc uc v s ->
(forall k, k <> sid ->
   get k (players (fst (step lc uc v s (disconnect sid)))) = get k (players s)) /\
map Player.id (players (fst (step lc uc v s (disconnect sid))))
= filter (fun k => negb (String.eqb k sid)) (map Player.id (players s)) /\
(forall w k, k <> sid ->
   get k (players (fst (step lc uc v s (submitGuess sid w)))) = get k (players s)) /\
(forall w, map Player.id (players (fst (step lc uc v s (submitGuess sid w))))
           = map Player.id (players s)).
Proof.
intros Hr. pose proof (reachable_Inv _ _ _ _ Hr) as HI.
assert (Hd : players (fst (step lc uc v s (disconnect sid))) = players s /\
             get sid (players s) = None \/
             players (fst (step lc uc v s (disconnect sid)))
             = delete sid (players s)).
{ simpl. unfold connected, on_disconnect.
  destruct (get sid (players s)); [right | left; auto].
  destruct (match hostId s with Some h => _ | None => _ end); reflexivity. }
assert (Hfilter : forall ps, map Player.id (delete sid ps)
                  = filter (fun k => negb (String.eqb k sid)) (map Player.id ps)).
{ induction ps as [|p ps IH]; simpl; [reflexivity|].
  destruct (String.eqb (Player.id p) sid); simpl; rewrite IH; reflexivity. }
assert (Hs : forall w, players (fst (step lc uc v s (submitGuess sid w))) = players s \/
             players (fst (step lc uc v s (submitGuess sid w)))
             = modify sid (Player.with_submission true w) (players s)).
{ intros w. simpl. destruct (connected sid s); [|left; reflexivity].
  unfold on_submitGuess. destruct (acceptsGuess sid s) eqn:Hacc; [|left; reflexivity].
  right. unfold acceptsGuess in Hacc.
  destruct (get sid (players s)) as [p0|] eqn:Hg; [|discriminate].
  destruct (forallb _ _); [|reflexivity].
  assert (Hsn : snapshot (players (recordGuess sid w s)) <> []).
  { pose proof (get_modify_same sid (Player.with_submission true w)
                  (players s) p0 (fun q => eq_refl) Hg) as Hm.
    destruct (get_In _ _ _ Hm) as [Hin _].
    exact (snapshot_nonempty _ _ Hin eq_refl). }
  pose proof (evaluateRound_players _ Hsn) as Hpl.
  destruct (evaluateRound (recordGuess sid w s)) as [s2 o2]. exact Hpl. }
split; [|split; [|split]].
- intros k Hk. destruct Hd as [[-> _] | ->]; [reflexivity|].
  apply get_delete_other. exact Hk.
- destruct Hd as [[-> Hg] | ->]; [|apply Hfilter].
  rewrite <- Hfilter. unfold delete. symmetry.
  rewrite <- (map_id (players s)) at 2. rewrite map_id. f_equal.
  apply forallb_filter_id. apply forallb_forall. intros p Hp.
  apply negb_true_iff. apply String.eqb_neq.
  exact (get_none_not_in _ _ _ Hg Hp).
- intros w k Hk. destruct (Hs w) as [-> | ->]; [reflexivity|].
  apply get_modify_other; [exact Hk | reflexivity].
- intros w. destruct (Hs w) as [-> | ->]; [reflexivity|].
  apply map_id_modify. reflexivity.
Qed.

(** ** The end of the game *)

Lemma startNextTurn_over s :
status (gameState s) = playing -> turn (gameState s) <= MAX_TURNS ->
overOk s (fst (startNextTurn s)) (snd (startNextTurn s)).
Proof.
intros Hst Ht. unfold overOk.
destruct (Nat.le_gt_cases MAX_TURNS (turn (gameState s))) as [L | L].
- rewrite startNextTurn_last by exact L. right. simpl.
  repeat split; auto. lia.
- rewrite startNextTurn_next by exact L. left. simpl.
  split; [reflexivity|]. rewrite Hst. intros [_ H]. discriminate.
Qed.

Lemma overOk_frame s0 s s' pre out :
filter is_gameOver pre = [] ->
status (gameState s0) = status (gameState s) ->
turn (gameState s0) = turn (gameState s) ->
overOk s0 s' out -> overOk s s' (pre ++ out).
Proof.
intros Hpre Hs Ht H. unfold overOk in *. rewrite filter_app, Hpre. simpl.
rewrite <- Hs, <- Ht. exact H.
Qed.

Lemma overOk_quiet s s' out :
filter is_gameOver out = [] ->
status (gameState s') <> finished \/ status (gameState s) <> playing ->
overOk s s' out.
Proof.
intros Ho H. left. split; [exact Ho|]. intros [H1 H2]. tauto.
Qed.

Lemma evaluateRound_over s :
ready s -> overOk s (fst (evaluateRound s)) (snd (evaluateRound s)).
Proof.
intros (Hst & Hc & Ht & He & Hp). unfold evaluateRound. rewrite He.
destruct (lastNode_nonempty _ Hc) as [n Hn]. simpl. rewrite Hn.
destruct (snapshot (players s)) as [|g gs].
- match goal with |- context [startNextTurn ?x] => set (s1 := x) end.
  assert (H1 : status (gameState s1) = playing) by exact Hst.
  assert (H2 : turn (gameState s1) <= MAX_TURNS) by (simpl; lia).
  pose proof (startNextTurn_over s1 H1 H2) as H.
  destruct (startNextTurn s1) as [s2 o2]. cbn [fst snd] in *.
  change (emit_gameState (gs_set_flags false true (gameState s)) None
            :: emit_roundResult NobodyPlayed :: o2)
    with ([emit_gameState (gs_set_flags false true (gameState s)) None;
           emit_roundResult NobodyPlayed] ++ o2).
  apply (overOk_frame s1); auto.
- apply overOk_quiet; [reflexivity|]. left. simpl. rewrite Hst. discriminate.
Qed.

Lemma step_over v s e :
Inv s -> overOk s (fst (step lc uc v s e)) (snd (step lc uc v s e)).
Proof.
intros HI.
assert (Hsame : overOk s s []).
{ apply overOk_quiet; [reflexivity|].
  destruct (status (gameState s)); [left | left | right]; discriminate. }
assert (Hkeep : forall s' out, filter is_gameOver out = [] ->
          status (gameState s') = status (gameState s) -> overOk s s' out).
{ intros s' out Ho Hs. apply overOk_quiet; [exact Ho|]. rewrite Hs.
  destruct (status (gameState s)); [left | left | right]; discriminate. }
destruct e as [sid nm | sid draw | sid w | sid | | k a draw]; simpl.
- destruct (io_use nm); [|apply Hkeep; reflexivity].
  unfold on_connection. destruct (_ || _); [apply Hkeep; reflexivity|].
  destruct v; [destruct (_ && _)|]; apply Hkeep; reflexivity.
- destruct (connected sid s); [|exact Hsame].
  unfold on_startGame. destruct (mayStart v sid s); [|exact Hsame].
  apply overOk_quiet; [reflexivity|]. left. discriminate.
- destruct (connected sid s); [|exact Hsame].
  unfold on_submitGuess. destruct (acceptsGuess sid s) eqn:Hacc; [|exact Hsame].
  unfold acceptsGuess in Hacc.
  destruct (get sid (players s)) as [p|]; [|discriminate].
  apply andb_true_iff in Hacc. destruct Hacc as [Ha _].
  destruct (Inv_active s HI Ha) as (Hst & Hc & Ht & (_ & He & _ & Hp & _)).
  destruct (forallb _ _); [|apply Hkeep; reflexivity].
  assert (Hready : ready (recordGuess sid w s)) by (unfold ready; simpl; auto).
  pose proof (evaluateRound_over _ Hready) as H.
  destruct (evaluateRound (recordGuess sid w s)) as [s2 o2]. cbn [fst snd] in *.
  apply (overOk_frame (recordGuess sid w s)); auto.
- destruct (connected sid s); [|exact Hsame].
  unfold on_disconnect. destruct (get sid (players s)); [|exact Hsame].
  destruct (match hostId s with Some h => _ | None => _ end);
    apply Hkeep; reflexivity.
- destruct (timerInterval s) eqn:Hti; [|exact Hsame].
  destruct (Inv_timer s HI Hti) as (Hst & Hc & Ht & (Ha & He & _ & Hp & Htl)).
  unfold timerCallback.
  destruct (0 <? timeLeft (gameState s)) eqn:E0;
    [|apply Nat.ltb_ge in E0; lia].
  simpl.
  destruct (timeLeft (gameState s) - 1 <=? 0) eqn:E1;
    [|apply Hkeep; reflexivity].
  rewrite He. simpl.
  match goal with |- context [evaluateRound ?x] => set (s2 := x) end.
  assert (Hready : ready s2) by (unfold ready; simpl; auto).
  pose proof (evaluateRound_over _ Hready) as H.
  destruct (evaluateRound s2) as [s3 o3]. cbn [fst snd] in *.
  match goal with |- overOk _ _ (?x :: o3) => change (x :: o3) with ([x] ++ o3) end.
  apply (overOk_frame s2); auto.
- destruct (nth_error (pending s) k) as [gs|] eqn:Hk; [|exact Hsame].
  destruct (Inv_pending s gs k HI Hk)
    as (-> & Hp & Hst & Hc & Ht & (Ha & He & Hti & _)).
  rewrite Hp. simpl.
  set (s0 := set_pending [] s).
  destruct (resume_chain gs a draw s0) as [_ E2].
  pose proof (tryBlock_frame lc gs a draw s0) as (_ & _ & _ & Hg).
  unfold evaluateRound_resume in *.
  destruct (tryBlock lc gs a draw s0) as [s1 m]. cbn [fst snd] in *.
  assert (Hsame1 : status (gameState s1) = playing /\
                   turn (gameState s1) = turn (gameState s)).
  { destruct m as [m|]; [destruct Hg as [node ->] | rewrite Hg]; simpl; auto. }
  destruct Hsame1 as [Hst1 Ht1].
  assert (Ht1' : turn (gameState s1) <= MAX_TURNS) by lia.
  pose proof (startNextTurn_over s1 Hst1 Ht1') as H.
  destruct (startNextTurn s1) as [s2 o2]. cbn [fst snd] in *.
  apply (overOk_frame s1); auto; [|congruence].
  destruct m; reflexivity.
Qed.

(** X17. The game-over event is broadcast in the step in which a game being
    played becomes finished, and in no other; there is one per such step,
    it comes at turn ten, and it carries the roster with the final scores
    and the host as they are in the finished session. *)
Theorem game_over_announces_final_roster v s e :
reachable lc uc v s ->
let r := step lc uc v s e in
count is_gameOver (snd r) <= 1 /\
(count is_gameOver (snd r) = 1 <->
 status (gameState s) = playing /\ status (gameState (fst r)) = finished) /\
(forall ps h, In (emit_gameOver ps h) (snd r) ->
   ps = players (fst r) /\ h = hostId (fst r) /\
   turn (gameState s) = MAX_TURNS).
Proof.
intros Hr r. pose proof (reachable_Inv _ _ _ _ Hr) as HI.
pose proof (step_over v s e HI) as H. fold r in H.
unfold count.
assert (Hin : forall ps h, In (emit_gameOver ps h) (snd r) ->
                In (emit_gameOver ps h) (filter is_gameOver (snd r))).
{ intros ps h Hi. apply filter_In. split; [exact Hi | reflexivity]. }
destruct H as [(Ho & Hn) | (Ho & Hs & Hf & Ht)]; rewrite Ho; simpl.
- split; [lia|]. split; [split; [discriminate | tauto]|].
  intros ps h Hi. apply Hin in Hi. rewrite Ho in Hi. destruct Hi.
- split; [lia|]. split; [tauto|].
  intros ps h Hi. apply Hin in Hi. rewrite Ho in Hi.
  destruct Hi as [E | []]. injection E as <- <-. auto.
Qed.

(** ** The chain and the points of rounds that are not skipped *)

(** X18. As long as no round of a session is skipped, the chain holds the seed
    and exactly one node per completed turn. *)
Theorem chain_has_one_node_per_clean_turn v evs :
let r := run lc uc v initialState evs in
existsb is_skip (snd r) = false -> status (gameState (fst r)) <> lobby ->
length (chain (gameState (fst r))) = S (completedTurns (fst r)).
Proof.
intros r Hclean Hst.
assert (HI0 : Inv initialState) by (unfold Inv; simpl; auto).
pose proof (chain_length_after_clean_turns lc uc v evs initialState HI0 I Hclean)
  as HJ.
assert (Hr : reachable lc uc v (fst r))
  by (apply reachable_run, reachable_init).
pose proof (reachable_Inv _ _ _ _ Hr) as HI.
fold r in HJ. unfold chainTracksTurn in HJ. unfold completedTurns, Inv in *.
destruct (status (gameState (fst r))); [congruence | | exact HJ].
destruct HI as (_ & Ht & _). lia.
Qed.

(** X19. In a round in which every guess is a string and whose answer
    names a word in every entry, with every submitter still connected,
    each player gains exactly the points of
    its own guess: 2 if its score reaches 57, 5 more if it is the round
    winner; a player without a guess gains nothing, and the roster keeps
    its order. *)
Theorem answered_round_awards_points v s guesses rs draw :
reachable lc uc v s -> pending s = [guesses] -> allWords guesses ->
Forall (fun r => Result.word r <> None) rs ->
Forall (fun g => connected (Guess.groupId g) s = true) guesses ->
let s' := fst (step lc uc v s (oracleAnswer 0 (results rs) draw)) in
exists scored winner rest,
  assignScores lc rs guesses = Some scored /\
  Array_sort byScoreDesc scored = winner :: rest /\
  map Player.id (players s') = map Player.id (players s) /\
  map Player.score (players s') =
  map (fun p => (Player.score p
                 + pointsFor winner (winner :: rest) (Player.id p))%Z)
      (players s) /\
  (forall g, In g (winner :: rest) ->
     pointsFor winner (winner :: rest) (Guess.groupId g)
     = ((if Guess.reachesThreshold g then 2 else 0)
        + (if String.eqb (Guess.groupId g) (Guess.groupId winner) then 5 else 0))%Z) /\
  (forall k, ~ In k (map Guess.groupId guesses) ->
     pointsFor winner (winner :: rest) k = 0%Z).
Proof.
intros Hr Hp Hw Hrs Hcon s'.
destruct (reachable_submissions v s Hr) as [_ Hgs].
rewrite Hp in Hgs. inversion Hgs as [|? ? [Hne _] _]; subst.
assert (Hin : Forall (fun g => get (Guess.groupId g) (players (set_pending [] s))
                               <> None) guesses).
{ eapply Forall_impl; [|exact Hcon]. intros g Hg. unfold connected in Hg.
  simpl. destruct (get (Guess.groupId g) (players s)); [discriminate | congruence]. }
pose proof (tryBlock_succeeds guesses rs draw (set_pending [] s) Hne Hw Hrs Hin)
  as Hsome.
destruct (snd (tryBlock lc guesses (results rs) draw (set_pending [] s)))
  as [m|] eqn:Em; [|congruence].
destruct (round_points_when_all_present lc uc v s guesses (results rs) draw m
            Hr Hp Em)
  as (rs' & scored & w & rest & Ha & Hs & Ho & _ & H1 & H2 & H3 & H4).
injection Ha as <-.
exists scored, w, rest. repeat split; auto.
Qed.

End RosterProperties.

(** * The further properties on concrete sessions *)

Lemma roster_within_capacity_witness :
let s := fst (run_index initialState two_players_started) in
reachable lower upper HostGated s /\
length (players s) <= 50 /\ NoDup (map Player.id (players s)) /\
Forall (fun p => Player.name p <> "") (players s) /\
Forall (fun p => In (Player.color p) colors) (players s).
Proof.
intros s.
assert (R : reachable lower upper HostGated s)
  by (apply reachable_run, reachable_init).
split; [exact R|].
exact (roster_within_capacity lower upper HostGated s R).
Defined.

Lemma flags_timer_and_pending_agree_witness :
let s := fst (run_index initialState both_submitted) in
reachable lower upper HostGated s /\
length (pending s) <= 1 /\
(pending s <> [] <->
 status (gameState s) = playing /\ isEvaluating (gameState s) = true).
Proof.
intros s.
assert (R : reachable lower upper HostGated s)
  by (apply reachable_run, reachable_init).
split; [exact R|].
destruct (flags_timer_and_pending_agree lower upper HostGated s R)
  as (_ & _ & _ & H4 & H5 & _).
split; [exact H4 | exact H5].
Defined.

Lemma turn_chain_and_timer_within_bounds_witness :
let s := fst (run_part0 initialState two_players_started) in
reachable lower upper OpenLobby s /\
turn (gameState s) <= MAX_TURNS /\
timeLeft (gameState s) <= TURN_DURATION.
Proof.
intros s.
assert (R : reachable lower upper OpenLobby s)
  by (apply reachable_run, reachable_init).
split; [exact R|].
destruct (turn_chain_and_timer_within_bounds lower upper OpenLobby s R)
  as (H1 & _ & _ & _ & H5 & _).
split; [exact H1 | exact H5].
Defined.

Lemma host_is_in_roster_witness :
let s := fst (run_index initialState two_players_started) in
reachable lower upper HostGated s /\
forall h, hostId s = Some h -> connected h s = true.
Proof.
intros s.
assert (R : reachable lower upper HostGated s)
  by (apply reachable_run, reachable_init).
split; [exact R|].
exact (host_is_in_roster lower upper HostGated s R).
Defined.

Lemma scores_within_bounds_witness :
let s := fst (run_index initialState nobody_leaves) in
reachable lower upper HostGated s /\
completedTurns s <= MAX_TURNS /\
Forall (fun p => (0 <= Player.score p <= 7 * Z.of_nat (completedTurns s))%Z)
       (players s).
Proof.
intros s.
assert (R : reachable lower upper HostGated s)
  by (apply reachable_run, reachable_init).
split; [exact R|].
exact (scores_within_bounds lower upper HostGated s R).
Defined.

Lemma submission_fields_agree_witness :
let s := fst (run_index initialState
                (two_players_started
                   ++ [submitGuess "a" None; submitGuess "b" (Some "Carro")])) in
reachable lower upper HostGated s /\
Forall coherent (players s) /\ Forall guessesOk (pending s).
Proof.
intros s.
assert (R : reachable lower upper HostGated s)
  by (apply reachable_run, reachable_init).
split; [exact R|].
exact (submission_fields_agree lower upper HostGated s R).
Defined.

Lemma answered_round_extends_chain_witness :
let s := fst (run_index initialState both_submitted) in
let guesses := [Guess.mk "a" (Some "Passado") None;
                Guess.mk "b" (Some "Carro") None] in
let rs := [Result.mk (Some "carro") (Some 60%Z);
           Result.mk (Some "passado") (Some 40%Z)] in
let r := step lower upper HostGated s (oracleAnswer 0 (results rs) 0) in
pending s = [guesses] /\
exists scored nx,
  assignScores lower rs guesses = Some scored /\
  nth_error (Array_sort byScoreDesc scored) (0 mod length guesses) = Some nx /\
  In (entry nx) (map entry guesses) /\
  chain (gameState (fst r))
  = chain (gameState s) ++ [Node.mk (Guess.word nx) (Some (Guess.groupId nx))] /\
  count is_roundResult (snd r) = 1 /\ existsb is_skip (snd r) = false.
Proof.
intros s guesses rs r.
assert (R : reachable lower upper HostGated s)
  by (apply reachable_run, reachable_init).
assert (P : pending s = [guesses]) by (vm_compute; reflexivity).
assert (W : Forall (fun r => Result.word r <> None) rs)
  by (repeat constructor; discriminate).
assert (C : Forall (fun g => connected (Guess.groupId g) s = true) guesses)
  by (repeat constructor; vm_compute; reflexivity).
assert (A : allWords guesses) by (repeat constructor; discriminate).
split; [exact P|].
exact (answered_round_extends_chain lower upper HostGated s guesses rs 0 R P A W C).
Defined.

Lemma any_submission_can_be_drawn_witness :
let s := fst (run_index initialState both_submitted) in
let guesses := [Guess.mk "a" (Some "Passado") None;
                Guess.mk "b" (Some "Carro") None] in
let rs := [Result.mk (Some "carro") (Some 60%Z);
           Result.mk (Some "passado") (Some 40%Z)] in
let next draw :=
  chain (gameState (fst (step lower upper HostGated s
                              (oracleAnswer 0 (results rs) draw)))) in
pending s = [guesses] /\
exists ranked,
  Permutation (map nodeOf ranked) (map nodeOf guesses) /\
  NoDup (map nodeOf ranked) /\
  (forall draw, exists nx,
     nth_error ranked (draw mod length guesses) = Some nx /\
     next draw = chain (gameState s) ++ [nodeOf nx]) /\
  (forall g, In g guesses ->
     exists draw, draw < length guesses /\
                  next draw = chain (gameState s) ++ [nodeOf g]).
Proof.
intros s guesses rs next.
assert (R : reachable lower upper HostGated s)
  by (apply reachable_run, reachable_init).
assert (P : pending s = [guesses]) by (vm_compute; reflexivity).
assert (W : Forall (fun r => Result.word r <> None) rs)
  by (repeat constructor; discriminate).
assert (C : Forall (fun g => connected (Guess.groupId g) s = true) guesses)
  by (repeat constructor; vm_compute; reflexivity).
assert (A : allWords guesses) by (repeat constructor; discriminate).
split; [exact P|].
exact (any_submission_can_be_drawn lower upper HostGated s guesses rs R P A W C).
Defined.

Lemma timer_counts_down_then_evaluates_witness :
let s := fst (run_index initialState
                (two_players_started ++ [submitGuess "b" (Some "Carro")])) in
let r := run lower upper HostGated s (repeat tick (timeLeft (gameState s))) in
timerInterval s = true /\ snapshot (players s) <> [] /\
count is_request (snd r) = 1 /\ count is_roundResult (snd r) = 0 /\
isEvaluating (gameState (fst r)) = true /\ timerInterval (fst r) = false /\
pending (fst r) = [snapshot (players s)].
Proof.
intros s r.
assert (R : reachable lower upper HostGated s)
  by (apply reachable_run, reachable_init).
assert (T : timerInterval s = true) by (vm_compute; reflexivity).
assert (N : snapshot (players s) <> []) by (vm_compute; discriminate).
destruct (timer_counts_down_then_evaluates lower upper HostGated s R T)
  as (_ & H & _).
destruct (H N) as (H1 & H2 & H3 & _ & H5 & H6 & _).
repeat split; assumption.
Defined.

Lemma silent_round_skips_turn_witness :
let s := fst (run_index initialState (two_players_started ++ repeat tick 29)) in
let r := step lower upper HostGated s tick in
timerInterval s = true /\ snapshot (players s) = [] /\
timeLeft (gameState s) = 1 /\
filter is_roundResult (snd r) = [emit_roundResult NobodyPlayed] /\
count is_request (snd r) = 0 /\
chain (gameState (fst r)) = chain (gameState s).
Proof.
intros s r.
assert (R : reachable lower upper HostGated s)
  by (apply reachable_run, reachable_init).
assert (T : timerInterval s = true) by (vm_compute; reflexivity).
assert (N : snapshot (players s) = []) by (vm_compute; reflexivity).
assert (L : timeLeft (gameState s) = 1) by (vm_compute; reflexivity).
destruct (silent_round_skips_turn lower upper HostGated s R T N L)
  as (H1 & H2 & H3 & _).
repeat split; assumption.
Defined.

Lemma last_submission_starts_evaluation_witness :
let s := fst (run_index initialState
                (two_players_started ++ [submitGuess "a" (Some "Passado")])) in
let r := step lower upper HostGated s (submitGuess "b" (Some "Carro")) in
acceptsGuess "b" s = true /\
isEvaluating (gameState (fst r)) = true /\
timerInterval (fst r) = false /\
count is_request (snd r) = 1.
Proof.
intros s r.
assert (R : reachable lower upper HostGated s)
  by (apply reachable_run, reachable_init).
assert (A : acceptsGuess "b" s = true) by (vm_compute; reflexivity).
assert (E : forall p, In p (players s) -> Player.id p <> "b" ->
                      Player.submitted p = true).
{ intros p Hp Hn. vm_compute in Hp.
  destruct Hp as [<- | [<- | []]]; [reflexivity | elim Hn; reflexivity]. }
destruct (last_submission_starts_evaluation lower upper HostGated s "b" (Some "Carro") R A)
  as [H _].
destruct (H E) as (H1 & _ & H3 & _ & _ & H6 & _).
repeat split; assumption.
Defined.

Lemma accepted_start_opens_first_turn_witness :
let s := fst (run_part0 initialState
                [connection "a" "Ana"; connection "b" "Bia"]) in
let r := step lower upper OpenLobby s (startGame "b" 8) in
status (gameState (fst r)) = playing /\ turn (gameState (fst r)) = 1 /\
(exists w, In w seedWords /\
           chain (gameState (fst r)) = [Node.mk (Some w) None]) /\
timerInterval (fst r) = true.
Proof.
intros s r.
assert (A : connected "b" s = true /\ status (gameState s) = lobby)
  by (split; vm_compute; reflexivity).
destruct (accepted_start_opens_first_turn lower upper OpenLobby s "b" 8)
  as [H _].
destruct (H A) as (H1 & H2 & H3 & _ & _ & _ & H7 & _).
repeat split; assumption.
Defined.

Lemma latest_lider_becomes_host_witness :
let s := fst (run_index initialState [connection "a" "LIDER"]) in
let s1 := fst (step lower upper HostGated s (connection "b" "Lider")) in
hostId s = Some "a" /\ hostId s1 = Some "b" /\
step lower upper HostGated s1 (startGame "a" 0) = (s1, []).
Proof.
intros s s1.
assert (N : io_use "Lider" = true) by reflexivity.
assert (P : status (gameState s) <> playing) by (vm_compute; discriminate).
assert (L : length (players s) < 50) by (vm_compute; lia).
assert (U : upper "Lider" = "LIDER") by reflexivity.
destruct (latest_lider_becomes_host lower upper s "b" "Lider" 0 N P L U)
  as (H1 & _ & H3).
split; [vm_compute; reflexivity|]. split; [exact H1|].
apply H3. discriminate.
Defined.

Lemma host_departure_blocks_start_witness :
let s := fst (run_index initialState
                [connection "a" "Lider"; connection "b" "Bia"]) in
let s1 := fst (step lower upper HostGated s (disconnect "a")) in
hostId s1 = None /\ get "a" (players s1) = None /\
forall sid draw, step lower upper HostGated s1 (startGame sid draw) = (s1, []).
Proof.
intros s s1.
assert (H : hostId s = Some "a") by (vm_compute; reflexivity).
assert (C : connected "a" s = true) by (vm_compute; reflexivity).
destruct (host_departure_blocks_start lower upper s "a" H C)
  as (H1 & H2 & _ & H4).
repeat split; assumption.
Defined.


Lemma others_keep_their_record_witness :
let s := fst (run_index initialState two_players_started) in
reachable lower upper HostGated s /\
forall k, k <> "a" ->
  get k (players (fst (step lower upper HostGated s (disconnect "a"))))
  = get k (players s).
Proof.
intros s.
assert (R : reachable lower upper HostGated s)
  by (apply reachable_run, reachable_init).
split; [exact R|].
destruct (others_keep_their_record lower upper HostGated s "a" R) as (H & _).
exact H.
Defined.

Lemma game_over_announces_final_roster_witness :
let s := fst (run_index initialState last_turn_scoring) in
let r := step lower upper HostGated s (oracleAnswer 0 rejected 0) in
reachable lower upper HostGated s /\
status (gameState s) = playing /\ status (gameState (fst r)) = finished /\
count is_gameOver (snd r) = 1 /\
In (emit_gameOver (players (fst r)) (hostId (fst r))) (snd r) /\
(forall ps h, In (emit_gameOver ps h) (snd r) ->
   ps = players (fst r) /\ h = hostId (fst r) /\
   turn (gameState s) = MAX_TURNS).
Proof.
intros s r.
assert (R : reachable lower upper HostGated s)
  by (apply reachable_run, reachable_init).
assert (P : status (gameState s) = playing) by (vm_compute; reflexivity).
assert (F : status (gameState (fst r)) = finished) by (vm_compute; reflexivity).
destruct (game_over_announces_final_roster lower upper HostGated s
            (oracleAnswer 0 rejected 0) R) as (_ & H2 & H3).
split; [exact R|]. split; [exact P|]. split; [exact F|].
split; [exact (proj2 H2 (conj P F))|].
split; [|exact H3].
vm_compute. right. right. left. reflexivity.
Defined.

Lemma chain_has_one_node_per_clean_turn_witness :
let r := run lower upper HostGated initialState nobody_leaves in
existsb is_skip (snd r) = false /\ status (gameState (fst r)) <> lobby /\
length (chain (gameState (fst r))) = S (completedTurns (fst r)).
Proof.
intros r.
assert (K : existsb is_skip (snd r) = false) by (vm_compute; reflexivity).
assert (L : status (gameState (fst r)) <> lobby) by (vm_compute; discriminate).
split; [exact K|]. split; [exact L|].
exact (chain_has_one_node_per_clean_turn lower upper HostGated nobody_leaves K L).
Defined.

Lemma answered_round_awards_points_witness :
let s := fst (run_index initialState both_submitted) in
let guesses := [Guess.mk "a" (Some "Passado") None;
                Guess.mk "b" (Some "Carro") None] in
let rs := [Result.mk (Some "carro") (Some 60%Z);
           Result.mk (Some "passado") (Some 40%Z)] in
let s' := fst (step lower upper HostGated s (oracleAnswer 0 (results rs) 0)) in
pending s = [guesses] /\
exists scored winner rest,
  assignScores lower rs guesses = Some scored /\
  Array_sort byScoreDesc scored = winner :: rest /\
  map Player.id (players s') = map Player.id (players s) /\
  map Player.score (players s') =
  map (fun p => (Player.score p
                 + pointsFor winner (winner :: rest) (Player.id p))%Z)
      (players s).
Proof.
intros s guesses rs s'.
assert (R : reachable lower upper HostGated s)
  by (apply reachable_run, reachable_init).
assert (P : pending s = [guesses]) by (vm_compute; reflexivity).
assert (W : Forall (fun r => Result.word r <> None) rs)
  by (repeat constructor; discriminate).
assert (C : Forall (fun g => connected (Guess.groupId g) s = true) guesses)
  by (repeat constructor; vm_compute; reflexivity).
assert (A : allWords guesses) by (repeat constructor; discriminate).
split; [exact P|].
destruct (answered_round_awards_points lower upper HostGated s guesses rs 0 R P A W C)
  as (scored & winner & rest & H1 & H2 & H3 & H4 & _).
exists scored, winner, rest. repeat split; assumption.
Defined.

(** A payload that is no string is a submission like any other until the
    answer is matched: it counts for the round being complete and goes
    into the request, and the matching then throws on it, so the round is
    skipped even though the answer is well formed. *)
Example null_guess_skips_round :
let s := fst (run_index initialState
                (two_players_started
                   ++ [submitGuess "a" None; submitGuess "b" (Some "Carro")])) in
let r := step lower upper HostGated s
              (oracleAnswer 0 (results [Result.mk (Some "carro") (Some 60%Z)]) 0) in
map (fun p => (Player.submitted p, Player.lastGuess p)) (players s)
= [(true, None); (true, Some "Carro")] /\
pending s = [[Guess.mk "a" None None; Guess.mk "b" (Some "Carro") None]] /\
filter is_roundResult (snd r) = [emit_roundResult OracleError] /\
chain (gameState (fst r)) = chain (gameState s) /\
map Player.score (players (fst r)) = [0%Z; 0%Z].
Proof.
intros s r.
assert (H1 : map (fun p => (Player.submitted p, Player.lastGuess p)) (players s)
             = [(true, None); (true, Some "Carro")]) by (vm_compute; reflexivity).
assert (H2 : pending s = [[Guess.mk "a" None None; Guess.mk "b" (Some "Carro") None]])
  by (vm_compute; reflexivity).
assert (H3 : filter is_roundResult (snd r) = [emit_roundResult OracleError])
  by (vm_compute; reflexivity).
assert (H4 : chain (gameState (fst r)) = chain (gameState s))
  by (vm_compute; reflexivity).
assert (H5 : map Player.score (players (fst r)) = [0%Z; 0%Z])
  by (vm_compute; reflexivity).
repeat split; assumption.
Qed.
